(** * Elephant: online accumulators and synchrofact detection

    A shallow embedding of [elephant/online.py] and
    [elephant/spike_train_processing.py].

    Conventions of the embedding.
    - Time stamps, bin edges and sampling rates are exact rationals ([Q]);
      every quantity of [spike_train_processing.py] is expressed in one
      common time unit, so [rescale] is the identity.
    - The values fed to the accumulators of [online.py] are rationals
      extended with a not-a-number element, which is what the division
      [0. / 0] of NumPy yields; the square root of [get_mean_std] is the
      real square root.
    - Python exceptions are values of [exn]; a [while] loop is a fixpoint
      on a fuel argument and returns [Timeout] when the fuel is used up. *)

From Stdlib Require Import ZArith QArith Qround Qminmax List Bool Lia String.
From Stdlib Require Import Reals Lra Lqa Qreals.
Import ListNotations.

Local Open Scope Z_scope.

(** ** Exceptions and outcomes *)

Inductive exn : Type :=
| ValueError (msg : string)
| TypeError (msg : string)
| IndexError (msg : string)
| AttributeError (msg : string)
| ZeroDivisionError (msg : string).

Inductive outcome (A : Type) : Type :=
| Done (a : A)
| Raised (e : exn)
| Timeout.

Arguments Done {A} a.
Arguments Raised {A} e.
Arguments Timeout {A}.

Definition bind {A B : Type} (m : outcome A) (k : A -> outcome B) : outcome B :=
  match m with
  | Done a => k a
  | Raised e => Raised e
  | Timeout => Timeout
  end.

Notation "x <- m ;; k" := (bind m (fun x => k))
  (at level 61, m at next level, right associativity).
Notation "' p <- m ;; k" := (bind m (fun p => k))
  (at level 61, p pattern, m at next level, right associativity).

Definition terminates {A : Type} (m : outcome A) : Prop := m <> Timeout.

Definition returns {A : Type} (m : outcome A) : Prop := exists a, m = Done a.

Definition raises {A : Type} (m : outcome A) : Prop := exists e, m = Raised e.

(** ** Array primitives (NumPy and Python lists) *)

Module Np.

(** [a[i:j]] for [0 <= i]: the slice is clipped to the length of [a]. *)
Definition slice {A : Type} (a : list A) (i j : nat) : list A :=
  firstn (j - i) (skipn i a).

(** [a.sum()] *)
Definition sum (a : list Z) : Z := fold_right Z.add 0 a.

Fixpoint nonzero_from (k : nat) (a : list Z) : list nat :=
  match a with
  | [] => []
  | x :: r => if x =? 0 then nonzero_from (S k) r
              else k :: nonzero_from (S k) r
  end.

(** [np.nonzero(a)[0]] of a one-dimensional array. *)
Definition nonzero (a : list Z) : list nat := nonzero_from 0 a.

(** [a[-1]]: raises [IndexError] on an empty array. *)
Definition last_item {A : Type} (a : list A) : outcome A :=
  match rev a with
  | [] => Raised (IndexError "index -1 is out of bounds")
  | x :: _ => Done x
  end.

(** [a[i]] for [0 <= i]. *)
Definition item {A : Type} (a : list A) (i : nat) : outcome A :=
  match nth_error a i with
  | Some x => Done x
  | None => Raised (IndexError "index out of bounds")
  end.

(** [a[idx]] for an integer index array [idx]: raises [IndexError] as
    soon as one index is out of bounds. *)
Fixpoint take {A : Type} (a : list A) (idx : list nat) : outcome (list A) :=
  match idx with
  | [] => Done []
  | i :: r => x <- item a i ;; xs <- take a r ;; Done (x :: xs)
  end.

(** [np.searchsorted(a, v)] with the default [side='left'], for a sorted
    [a]: the first index [i] with [v <= a[i]], or [len(a)]. *)
Fixpoint searchsorted (a : list Q) (v : Q) : nat :=
  match a with
  | [] => O
  | x :: r => if Qle_bool v x then O else S (searchsorted r v)
  end.

(** The result of [np.array(m).squeeze()] for a matrix [m] with one row:
    a row of length one collapses to a zero-dimensional array. *)
Inductive squeezed : Type :=
| Arr0 (v : Z)
| Arr1 (a : list Z).

Definition squeeze (row : list Z) : squeezed :=
  match row with
  | [v] => Arr0 v
  | _ => Arr1 row
  end.

(** [a[mask]] for a boolean mask of the length of [a]. *)
Fixpoint compress {A : Type} (mask : list bool) (a : list A) : list A :=
  match mask, a with
  | b :: m, x :: r => if b then x :: compress m r else compress m r
  | _, _ => []
  end.

End Np.

(** ** Spike trains, binned spike trains and epochs *)

(** A [neo.SpikeTrain].  [st_unit] and [st_segment] are its attributes
    [unit] and [segment], the containers the train belongs to, if any:
    keys into the units and the segments of the memory. *)
Record SpikeTrain : Type := mkSpikeTrain {
  times : list Q;
  t_start : Q;
  t_stop : Q;
  complexity_annotation : option (list Z);
  st_unit : option nat;
  st_segment : option nat
}.

(** An element of the list handed to the functions: a [neo.SpikeTrain] or
    an object of another class. *)
Inductive pyobj : Type :=
| Neo (st : SpikeTrain)
| Foreign.

Record Epoch : Type := mkEpoch {
  ep_times : list Q;
  ep_durations : list Q;
  ep_complexity : list Z
}.

Definition get_t_start (o : pyobj) : outcome Q :=
  match o with
  | Neo st => Done (t_start st)
  | Foreign => Raised (AttributeError "t_start")
  end.

Definition get_t_stop (o : pyobj) : outcome Q :=
  match o with
  | Neo st => Done (t_stop st)
  | Foreign => Raised (AttributeError "t_stop")
  end.

Definition is_none {A : Type} (o : option A) : bool :=
  match o with None => true | Some _ => false end.

Module BinnedSpikeTrain.

(** Modelled from the spec: [elephant.conversion.BinnedSpikeTrain] is not
    part of the sources at hand.  Section 4.4 step 1 and section 6 of the
    specification describe it: all streams are binned jointly on a shared
    axis of fixed-width bins, and the collaborator returns the occurrence
    matrix (streams x bins) together with the bin edge sequence.  The axis
    starts at the common start time of the streams and has
    [floor((t_stop - t_start) / binsize)] bins; an event at time [t] of the
    recording window falls into bin [floor((t - t_start) / binsize)].  A
    stop time earlier than the start time is the [ValueError] of the
    docstring of [precise_complexity_intervals]. *)
Record t : Type := mk {
  start : Q;
  binsize : Q;
  num_bins : nat;
  matrix : list (list Z)
}.

Definition bin_index (t0 w x : Q) : Z := Qfloor ((x - t0) / w)%Q.

Definition in_bin (t0 t1 w : Q) (n k : nat) (x : Q) : bool :=
  Qle_bool t0 x && Qle_bool x t1 &&
  (bin_index t0 w x =? Z.of_nat k) && (k <? n)%nat.

Definition row (t0 t1 w : Q) (n : nat) (ts : list Q) : list Z :=
  map (fun k => Z.of_nat (List.length (filter (in_bin t0 t1 w n k) ts)))
      (seq 0 n).

Fixpoint rows (t0 t1 w : Q) (n : nat) (l : list pyobj)
  : outcome (list (list Z)) :=
  match l with
  | [] => Done []
  | Foreign :: _ => Raised (TypeError "not a SpikeTrain")
  | Neo st :: r =>
      rs <- rows t0 t1 w n r ;; Done (row t0 t1 w n (times st) :: rs)
  end.

Definition init (spiketrains : list pyobj) (w : Q) : outcome t :=
  match spiketrains with
  | [] => Raised (ValueError "no spike trains")
  | o :: _ =>
      t0 <- get_t_start o ;;
      t1 <- get_t_stop o ;;
      if Qlt_le_dec t1 t0
      then Raised (ValueError "t_stop is smaller than t_start")
      else
        let n := Z.to_nat (Qfloor ((t1 - t0) / w)%Q) in
        m <- rows t0 t1 w n spiketrains ;;
        Done (mk t0 w n m)
  end.

(** [bst.bin_edges]: [num_bins + 1] edges. *)
Definition bin_edges (b : t) : list Q :=
  map (fun k => (start b + inject_Z (Z.of_nat k) * binsize b)%Q)
      (seq 0 (S (num_bins b))).

(** [bst.to_sparse_array().sum(axis=0)]: the column sums, one row. *)
Definition column_sums (b : t) : list Z :=
  map (fun k => Np.sum (map (fun r => nth k r 0) (matrix b)))
      (seq 0 (num_bins b)).

End BinnedSpikeTrain.

(** ** [spike_train_processing.py] *)

(** One of the two comparisons of the consistency check:
    [arg is None and not mine == spiketrains[0].attr], where the right
    operand of [and] is only evaluated when [arg] is [None]. *)
Definition differs_from_first (arg : option Q) (mine : Q)
  (first_attr : outcome Q) : outcome bool :=
  if is_none arg
  then v <- first_attr ;; Done (negb (Qeq_bool mine v))
  else Done false.

Fixpoint check_each (spiketrains rest : list pyobj)
  (arg_t_start arg_t_stop : option Q) : outcome unit :=
  match rest with
  | [] => Done tt
  | Foreign :: _ =>
      Raised (TypeError "spike train must be instance of :class:`SpikeTrain` of Neo!")
  | Neo st :: rest' =>
      d <- differs_from_first arg_t_start (t_start st)
             (first <- Np.item spiketrains 0 ;; get_t_start first) ;;
      if d : bool
      then Raised (ValueError "the spike trains must have the same t_start!")
      else
        d' <- differs_from_first arg_t_stop (t_stop st)
                (first <- Np.item spiketrains 0 ;; get_t_stop first) ;;
        if d' : bool
        then Raised (ValueError "the spike trains must have the same t_stop!")
        else check_each spiketrains rest' arg_t_start arg_t_stop
  end.

Definition _check_consistency_of_spiketrainlist
  (spiketrains : list pyobj) (arg_t_start arg_t_stop : option Q) : outcome unit :=
  if (List.length spiketrains =? 0)%nat
  then Raised (ValueError "The spiketrains should not be empty!")
  else check_each spiketrains spiketrains arg_t_start arg_t_stop.

(** The inner [while window_sum > last_window_sum] loop.  Its state is
    [last_window_sum], [last_nonzero_index], [current_window] and
    [window_sum]; the values the code uses afterwards are
    [last_nonzero_index] and [window_sum]. *)
Fixpoint grow_window (fuel : nat) (bincount : list Z) (i spread : nat)
  (last_window_sum : Z) (last_nonzero_index : nat)
  (current_window : list Z) (window_sum : Z) : outcome (nat * Z) :=
  match fuel with
  | O => Timeout
  | S fuel' =>
      if window_sum >? last_window_sum then
        k <- Np.last_item (Np.nonzero current_window) ;;
        let current_window' :=
          Np.slice bincount i (i + k + spread + 1) in
        grow_window fuel' bincount i spread window_sum k
          current_window' (Np.sum current_window')
      else Done (last_nonzero_index, window_sum)
  end.

(** The outer [while i < len(bincount)] loop; [gas] is the fuel handed to
    each run of the inner loop. *)
Fixpoint scan_bins (fuel gas : nat) (bincount : list Z) (bin_edges : list Q)
  (spread i : nat) (complexities : list Z) (left_edges right_edges : list Q)
  : outcome (list Z * list Q * list Q) :=
  match fuel with
  | O => Timeout
  | S fuel' =>
      if (i <? List.length bincount)%nat then
        current_bincount <- Np.item bincount i ;;
        if current_bincount =? 0 then
          scan_bins fuel' gas bincount bin_edges spread (i + 1)
            complexities left_edges right_edges
        else
          let last_window_sum := current_bincount in
          let last_nonzero_index := O in
          let current_window := Np.slice bincount i (i + spread + 1) in
          let window_sum := Np.sum current_window in
          ' (last_nonzero_index, window_sum) <-
            grow_window gas bincount i spread last_window_sum
              last_nonzero_index current_window window_sum ;;
          l <- Np.item bin_edges i ;;
          r <- Np.item bin_edges (i + last_nonzero_index + 1) ;;
          scan_bins fuel' gas bincount bin_edges spread
            (i + last_nonzero_index + 1)
            (complexities ++ [window_sum])
            (left_edges ++ [l]) (right_edges ++ [r])
      else Done (complexities, left_edges, right_edges)
  end.

(** Python's [min] of a list: the first smallest element. *)
Fixpoint py_min_from (m : Q) (l : list Q) : Q :=
  match l with
  | [] => m
  | x :: r => py_min_from (if Qlt_le_dec x m then x else m) r
  end.

Definition py_min (l : list Q) : outcome Q :=
  match l with
  | [] => Raised (ValueError "min() arg is an empty sequence")
  | x :: r => Done (py_min_from x r)
  end.

Fixpoint all_t_start (l : list pyobj) : outcome (list Q) :=
  match l with
  | [] => Done []
  | o :: r => x <- get_t_start o ;; xs <- all_t_start r ;; Done (x :: xs)
  end.

(** [a[0] = v] *)
Definition set_first (a : list Q) (v : Q -> Q) : outcome (list Q) :=
  match a with
  | [] => Raised (IndexError "index 0 is out of bounds for axis 0 with size 0")
  | x :: r => Done (v x :: r)
  end.

Fixpoint zip_with {A B C : Type} (f : A -> B -> C) (a : list A) (b : list B)
  : list C :=
  match a, b with
  | x :: a', y :: b' => f x y :: zip_with f a' b'
  | _, _ => []
  end.

(** The edges of the intervals, before the half-bin shift. *)
Definition raw_intervals (fuel : nat) (bincount : Np.squeezed)
  (bin_edges : list Q) (spread : nat) : outcome (list Z * list Q * list Q) :=
  if (spread =? 0)%nat then
    match bincount with
    | Np.Arr0 _ => Raised (IndexError "too many indices for array")
    | Np.Arr1 bincount =>
        let bin_indices := Np.nonzero bincount in
        complexities <- Np.take bincount bin_indices ;;
        left_edges <- Np.take bin_edges bin_indices ;;
        right_edges <- Np.take bin_edges (map (fun k => k + 1)%nat bin_indices) ;;
        Done (complexities, left_edges, right_edges)
    end
  else
    match bincount with
    | Np.Arr0 _ => Raised (TypeError "len() of unsized object")
    | Np.Arr1 bincount => scan_bins fuel fuel bincount bin_edges spread 0 [] [] []
    end.

Definition precise_complexity_intervals (fuel : nat)
  (spiketrains : list pyobj) (sampling_rate : Q) (spread : nat)
  : outcome Epoch :=
  _ <- _check_consistency_of_spiketrainlist spiketrains None None ;;
  let bin_size := (1 / sampling_rate)%Q in
  bst <- BinnedSpikeTrain.init spiketrains bin_size ;;
  let bincount := Np.squeeze (BinnedSpikeTrain.column_sums bst) in
  ' (complexities, left_edges, right_edges) <-
    raw_intervals fuel bincount (BinnedSpikeTrain.bin_edges bst) spread ;;
  let bin_shift := ((1 # 2) / sampling_rate)%Q in
  let left_edges := map (fun e => e - bin_shift)%Q left_edges in
  let right_edges := map (fun e => e - bin_shift)%Q right_edges in
  starts <- all_t_start spiketrains ;;
  min_t_start <- py_min starts ;;
  left_edges <- set_first left_edges (Qmin min_t_start) ;;
  Done (mkEpoch left_edges (zip_with Qminus right_edges left_edges)
          complexities).

(** [st.array_annotate(complexity=c)] *)
Definition array_annotate (st : SpikeTrain) (c : list Z) : SpikeTrain :=
  mkSpikeTrain (times st) (t_start st) (t_stop st) (Some c)
    (st_unit st) (st_segment st).

(** [st[mask]]: the spikes and their array annotations are selected
    together; the new train belongs to the containers of the old one. *)
Definition getitem_mask (st : SpikeTrain) (mask : list bool) : SpikeTrain :=
  mkSpikeTrain (Np.compress mask (times st)) (t_start st) (t_stop st)
    (option_map (Np.compress mask) (complexity_annotation st))
    (st_unit st) (st_segment st).

(** [a[idx] = v] on a Python list, for an index in range. *)
Fixpoint set_item {A : Type} (a : list A) (idx : nat) (v : A) : list A :=
  match a, idx with
  | [], _ => []
  | _ :: r, O => v :: r
  | x :: r, S k => x :: set_item r k v
  end.

(** Objects are shared: the caller's list, a unit and a segment may all
    refer to one spike train, and [array_annotate] changes it for all of
    them.  The memory holds the objects, a reference being a position in
    [heap], and the [spiketrains] lists of the units and of the segments,
    which are lists of references. *)
Record memory : Type := mkMemory {
  heap : list pyobj;
  units : list (list nat);
  segments : list (list nat)
}.

(** The object behind a reference. *)
Definition deref (m : memory) (ref : nat) : pyobj := nth ref (heap m) Foreign.

(** The change of an object in place. *)
Definition store (m : memory) (ref : nat) (o : pyobj) : memory :=
  mkMemory (set_item (heap m) ref o) (units m) (segments m).

(** A new object; its reference is returned. *)
Definition allocate (m : memory) (o : pyobj) : nat * memory :=
  (List.length (heap m), mkMemory (heap m ++ [o]) (units m) (segments m)).

(** The position of the first element of [lst] that is the object [obj]
    (the comparison is [is]); Python returns [None] when there is none. *)
Fixpoint _get_index_from (index : nat) (lst : list nat) (obj : nat) : option nat :=
  match lst with
  | [] => None
  | item :: rest =>
      if (item =? obj)%nat then Some index
      else _get_index_from (S index) rest obj
  end.

Definition _get_index (lst : list nat) (obj : nat) : option nat :=
  _get_index_from 0 lst obj.

(** [if c is not None: c.spiketrains[_get_index(c.spiketrains, old_st)] = new_st]
    for the unit or the segment [c] of a train, [containers] being the
    units or the segments of the memory; an index [None] is a
    [TypeError]. *)
Definition replace_in_container (containers : list (list nat))
  (c : option nat) (old_st new_st : nat) : outcome (list (list nat)) :=
  match c with
  | None => Done containers
  | Some key =>
      let lst := nth key containers [] in
      match _get_index lst old_st with
      | Some i => Done (set_item containers key (set_item lst i new_st))
      | None =>
          Raised (TypeError "list indices must be integers or slices, not NoneType")
      end
  end.

(** The state that [detect_synchrofacts] works on: the caller's list of
    references, which it updates in place, and the memory. *)
Definition world : Type := (list nat * memory)%type.

(** The body of the [for idx, st in enumerate(spiketrains)] loop.  The
    second component is the state when the body ends or raises. *)
Definition visit (complexity : list Z) (right_edges : list Q)
  (deletion_threshold : option Z) (invert_delete : bool) (idx : nat)
  (spiketrains : list nat) (m : memory) : outcome unit * world :=
  match nth_error spiketrains idx with
  | None => (Raised (IndexError "list index out of range"), (spiketrains, m))
  | Some ref =>
      match deref m ref with
      | Foreign => (Raised (AttributeError "times"), (spiketrains, m))
      | Neo st =>
          let spike_to_epoch_idx :=
            map (Np.searchsorted right_edges) (times st) in
          match Np.take complexity spike_to_epoch_idx with
          | Done complexity_per_spike =>
              let old_st := array_annotate st complexity_per_spike in
              let m := store m ref (Neo old_st) in
              match deletion_threshold with
              | None => (Done tt, (spiketrains, m))
              | Some threshold =>
                  let mask := map (fun c => c <? threshold) complexity_per_spike in
                  let mask := if invert_delete then map negb mask else mask in
                  let ' (new_st, m) := allocate m (Neo (getitem_mask old_st mask)) in
                  let spiketrains := set_item spiketrains idx new_st in
                  match replace_in_container (units m) (st_unit old_st)
                          ref new_st with
                  | Done units' =>
                      let m := mkMemory (heap m) units' (segments m) in
                      match replace_in_container (segments m)
                              (st_segment old_st) ref new_st with
                      | Done segments' =>
                          (Done tt,
                           (spiketrains, mkMemory (heap m) (units m) segments'))
                      | Raised e => (Raised e, (spiketrains, m))
                      | Timeout => (Timeout, (spiketrains, m))
                      end
                  | Raised e => (Raised e, (spiketrains, m))
                  | Timeout => (Timeout, (spiketrains, m))
                  end
              end
          | Raised e => (Raised e, (spiketrains, m))
          | Timeout => (Timeout, (spiketrains, m))
          end
      end
  end.

(** The [for] loop: [todo] elements are still to be visited, from
    position [idx] on. *)
Fixpoint annotate_loop (complexity : list Z) (right_edges : list Q)
  (deletion_threshold : option Z) (invert_delete : bool)
  (todo idx : nat) (spiketrains : list nat) (m : memory)
  : outcome unit * world :=
  match todo with
  | O => (Done tt, (spiketrains, m))
  | S todo' =>
      match visit complexity right_edges deletion_threshold invert_delete
              idx spiketrains m with
      | (Done _, (spiketrains', m')) =>
          annotate_loop complexity right_edges deletion_threshold
            invert_delete todo' (S idx) spiketrains' m'
      | failed => failed
      end
  end.

Definition threshold_rejected (deletion_threshold : option Z) : bool :=
  match deletion_threshold with
  | Some t => t <=? 1
  | None => false
  end.

(** [detect_synchrofacts]: [spiketrains] is the caller's list, [m] the
    memory before the call; the result is the returned epoch, or the
    exception, and the list and the memory after the call. *)
Definition detect_synchrofacts (fuel : nat) (spiketrains : list nat)
  (m : memory) (sampling_rate : Q) (spread : nat)
  (deletion_threshold : option Z) (invert_delete : bool)
  : outcome Epoch * world :=
  if threshold_rejected deletion_threshold then
    (Raised (ValueError "A deletion_threshold <= 1 would resultin deletion of all spikes."),
     (spiketrains, m))
  else
    match precise_complexity_intervals fuel (map (deref m) spiketrains)
            sampling_rate spread with
    | Done complexity_epoch =>
        let complexity := ep_complexity complexity_epoch in
        let right_edges :=
          zip_with Qplus (ep_times complexity_epoch)
            (ep_durations complexity_epoch) in
        let ' (r, after) :=
          annotate_loop complexity right_edges deletion_threshold
            invert_delete (List.length spiketrains) 0 spiketrains m in
        (_ <- r ;; Done complexity_epoch, after)
    | Raised e => (Raised e, (spiketrains, m))
    | Timeout => (Timeout, (spiketrains, m))
    end.

(** The objects a list of references stands for. *)
Definition objects (w : world) : list pyobj := map (deref (snd w)) (fst w).

(** The two spike trains of the docstring of
    [precise_complexity_intervals], in milliseconds. *)
Definition st1 : SpikeTrain := mkSpikeTrain [1; 4; 6]%Q 0 10 None None None.
Definition st2 : SpikeTrain := mkSpikeTrain [1; 5; 8]%Q 0 10 None None None.

(** A memory that holds the two trains and nothing else, and the list
    [[st1, st2]]. *)
Definition docstring_memory : memory := mkMemory [Neo st1; Neo st2] [] [].
Definition docstring_list : list nat := [0; 1]%nat.

(** The same trains as members of containers: each in a unit of its own,
    both in one segment. *)
Definition attached_memory : memory :=
  mkMemory
    [Neo (mkSpikeTrain [1; 4; 6]%Q 0 10 None (Some 0%nat) (Some 0%nat));
     Neo (mkSpikeTrain [1; 5; 8]%Q 0 10 None (Some 1%nat) (Some 0%nat))]
    [[0]; [1]]%nat [[0; 1]]%nat.
Definition attached_list : list nat := [0; 1]%nat.

(** ** [online.py] *)

(** Floating-point values in exact arithmetic: a rational, or the
    not-a-number that NumPy returns for [0. / 0] and that every later
    operation propagates.  (A nonzero value over a zero count, an infinity
    for NumPy, is not told apart from it.) *)
Inductive num : Type :=
| Fin (q : Q)
| NaN.

Module Num.

Definition lift2 (f : Q -> Q -> Q) (a b : num) : num :=
  match a, b with
  | Fin x, Fin y => Fin (f x y)
  | _, _ => NaN
  end.

Definition add : num -> num -> num := lift2 Qplus.
Definition sub : num -> num -> num := lift2 Qminus.
Definition mul : num -> num -> num := lift2 Qmult.

(** [a * n] and [a / n] for an integer count [n]. *)
Definition scale (a : num) (n : Z) : num := mul a (Fin (inject_Z n)).

Definition div (a : num) (n : Z) : num :=
  match a with
  | Fin x => if n =? 0 then NaN else Fin (x / inject_Z n)
  | NaN => NaN
  end.

(** [a.sum(axis=0)] of a one-dimensional array; [0.] when it is empty. *)
Definition sum (a : list num) : num := fold_right add (Fin 0) a.

(** Equality of values, up to the equality of rationals. *)
Definition eq (a b : num) : Prop :=
  match a, b with
  | Fin x, Fin y => (x == y)%Q
  | NaN, NaN => True
  | _, _ => False
  end.

End Num.

(** A square root is a real number (or not a number). *)
Inductive rnum : Type :=
| RFin (r : R)
| RNaN.

(** [np.sqrt] *)
Definition np_sqrt (a : num) : rnum :=
  match a with
  | Fin x => if Qlt_le_dec x 0 then RNaN else RFin (sqrt (Q2R x))
  | NaN => RNaN
  end.

(** A value together with the units it carries when it is a
    [pq.Quantity]; [None] for a plain number or array. *)
Record tagged (A : Type) : Type := mkTagged {
  units_of : option string;
  magnitude : A
}.

Arguments mkTagged {A} _ _.
Arguments units_of {A} _.
Arguments magnitude {A} _.

Definition units_differ (u v : option string) : bool :=
  match u, v with
  | None, None => false
  | Some a, Some b => negb (String.eqb a b)
  | _, _ => true
  end.

(** What [update] receives: one scalar sample when the accumulator was
    built with [batch_mode=False], a one-dimensional array of samples when
    it was built with [batch_mode=True]. *)
Definition sample (batch_mode : bool) : Type :=
  if batch_mode then list num else num.

Module MeanOnline.

Record t : Type := mk {
  mean : option num;
  count : Z;
  units : option string
}.

Definition init : t := mk None 0 None.

(** [update] returns the state it leaves behind together with its
    outcome: the count has already been increased when the units are
    found to differ. *)
Definition update (batch_mode : bool) (self : t)
  (arg : tagged (sample batch_mode)) : outcome unit * t :=
  let units := units_of arg in
  let ' (batch_size, new_val_sum) :=
    (match batch_mode return sample batch_mode -> Z * num with
     | true => fun new_val => (Z.of_nat (List.length new_val), Num.sum new_val)
     | false => fun new_val => (1, new_val)
     end) (magnitude arg) in
  let count := count self + batch_size in
  match mean self with
  | None =>
      (Done tt, mk (Some (Num.div new_val_sum batch_size)) count units)
  | Some m =>
      if units_differ units (MeanOnline.units self)
      then (Raised (ValueError "Each batch must have the same units."),
            mk (Some m) count (MeanOnline.units self))
      else
        (Done tt,
         mk (Some (Num.add m
                     (Num.div (Num.sub new_val_sum (Num.scale m batch_size))
                        count)))
            count (MeanOnline.units self))
  end.

Definition as_units {A : Type} (self : t) (val : A) : tagged A :=
  mkTagged (units self) val.

Definition get_mean (self : t) : tagged (option num) :=
  as_units self (mean self).

Definition reset (self : t) : t := mk None 0 None.

End MeanOnline.

Module VarianceOnline.

(** The fields of [MeanOnline] and [variance_sum]. *)
Record t : Type := mk {
  base : MeanOnline.t;
  variance_sum : num
}.

Definition mean (self : t) := MeanOnline.mean (base self).
Definition count (self : t) := MeanOnline.count (base self).
Definition units (self : t) := MeanOnline.units (base self).

Definition init : t := mk MeanOnline.init (Fin 0).

(** The part of [update] after the units have been checked; [mean] is
    no longer [None] there. *)
Definition accumulate (batch_mode : bool) (mean : num) (count : Z)
  (units : option string) (variance_sum : num)
  : sample batch_mode -> t :=
  match batch_mode return sample batch_mode -> t with
  | true => fun new_val =>
      let delta_var := map (fun x => Num.sub x mean) new_val in
      let batch_size := Z.of_nat (List.length new_val) in
      let count := count + batch_size in
      let delta_mean := Num.sub (Num.sum new_val) (Num.scale mean batch_size) in
      let mean := Num.add mean (Num.div delta_mean count) in
      let delta_var :=
        zip_with Num.mul delta_var (map (fun x => Num.sub x mean) new_val) in
      let delta_var := Num.sum delta_var in
      mk (MeanOnline.mk (Some mean) count units)
         (Num.add variance_sum delta_var)
  | false => fun new_val =>
      let delta_var := Num.sub new_val mean in
      let count := count + 1 in
      let mean := Num.add mean (Num.div delta_var count) in
      let delta_var := Num.mul delta_var (Num.sub new_val mean) in
      mk (MeanOnline.mk (Some mean) count units)
         (Num.add variance_sum delta_var)
  end.

Definition update (batch_mode : bool) (self : t)
  (arg : tagged (sample batch_mode)) : outcome t :=
  let units := units_of arg in
  match mean self with
  | None =>
      Done (accumulate batch_mode (Fin 0) (count self) units (Fin 0)
              (magnitude arg))
  | Some m =>
      if units_differ units (VarianceOnline.units self)
      then Raised (ValueError "Each batch must have the same units.")
      else Done (accumulate batch_mode m (count self)
                   (VarianceOnline.units self) (variance_sum self)
                   (magnitude arg))
  end.

Definition get_mean_std (self : t) (unbiased : bool)
  : option (tagged num) * option (tagged rnum) :=
  match mean self with
  | None => (None, None)
  | Some m =>
      let std :=
        if count self >? 1 then
          let count := if unbiased then count self - 1 else count self in
          np_sqrt (Num.div (variance_sum self) count)
        else RFin 0%R in
      (Some (MeanOnline.as_units (base self) m),
       Some (MeanOnline.as_units (base self) std))
  end.

Definition reset (self : t) : t := mk (MeanOnline.reset (base self)) (Fin 0).

End VarianceOnline.

(** Modelled from the spec: [elephant.statistics.isi] is not part of the
    sources at hand.  Section 4.3 of the specification: the intervals
    between consecutive events of the batch, [N - 1] intervals for [N]
    events. *)
Fixpoint isi (a : list Q) : list Q :=
  match a with
  | x :: (y :: _) as r => (y - x)%Q :: isi r
  | _ => []
  end.

Module Histogram.

(** [int(x)]: truncation toward zero. *)
Definition int_of (x : Q) : Z :=
  if Qlt_le_dec x 0 then Qceiling x else Qfloor x.

(** [np.linspace(start=0, stop=stop, num=num)] for [num >= 1]. *)
Definition linspace0 (stop : Q) (num : nat) : list Q :=
  match num with
  | O => []
  | 1%nat => [0%Q]
  | S div =>
      map (fun k => (inject_Z (Z.of_nat k) * (stop / inject_Z (Z.of_nat div)))%Q)
          (seq 0 num)
  end.

Fixpoint increasing (e : list Q) : bool :=
  match e with
  | x :: (y :: _) as r => Qle_bool x y && increasing r
  | _ => true
  end.

(** Whether [v] is counted in the bin from [lo] to [hi]; the last bin
    includes its right edge. *)
Definition in_range (lo hi : Q) (is_last : bool) (v : Q) : bool :=
  Qle_bool lo v &&
  (if is_last then Qle_bool v hi else negb (Qle_bool hi v)).

Fixpoint counts (a : list Q) (e : list Q) : list Z :=
  match e with
  | lo :: (hi :: rest) as r =>
      Z.of_nat (List.length
        (filter (in_range lo hi (match rest with [] => true | _ => false end)) a))
      :: counts a r
  | _ => []
  end.

(** [np.histogram(a, bins=e)[0]] for an array [e] of bin edges. *)
Definition histogram (a : list Q) (e : list Q) : outcome (list Z) :=
  if increasing e then Done (counts a e)
  else Raised (ValueError "`bins` must increase monotonically, when an array").

End Histogram.

Module InterSpikeIntervalOnline.

Record t : Type := mk {
  max_isi_value : Q;
  last_spike_time : option Q;
  bin_size : Q;
  num_bins : nat;
  bin_edges : list Q;
  current_isi_histogram : list Z;
  units : option string
}.

(** [__init__]; the flag [batch_mode] is an argument of [update] here. *)
Definition init (bin_size max_isi_value : Q) : outcome t :=
  if Qeq_bool bin_size 0 then Raised (ZeroDivisionError "division by zero")
  else
    let num_bins := Histogram.int_of (max_isi_value / bin_size) in
    if num_bins <? 0
    then Raised (ValueError "negative dimensions are not allowed")
    else
      let num_bins := Z.to_nat num_bins in
      Done (mk max_isi_value None bin_size num_bins
              (Histogram.linspace0 max_isi_value (num_bins + 1))
              (repeat 0 num_bins) None).

Definition timestamps (bach_mode : bool) : Type :=
  if bach_mode then list Q else Q.

(** The new intervals and the new [last_spike_time]. *)
Definition intervals (bach_mode : bool) (last : option Q)
  : timestamps bach_mode -> outcome (list Q * Q) :=
  match bach_mode return timestamps bach_mode -> outcome (list Q * Q) with
  | true => fun new_val =>
      let new_isi :=
        match last with
        | None => isi new_val
        | Some t0 => isi (t0 :: new_val)
        end in
      t1 <- Np.last_item new_val ;;
      Done (new_isi, t1)
  | false => fun new_val =>
      let new_isi :=
        match last with
        | None => []
        | Some t0 => [(new_val - t0)%Q]
        end in
      Done (new_isi, new_val)
  end.

(** [update] returns the state it leaves behind together with its
    outcome: [last_spike_time] is already set when [np.histogram]
    raises. *)
Definition update (bach_mode : bool) (self : t)
  (arg : tagged (timestamps bach_mode)) : outcome unit * t :=
  let units := units_of arg in
  if negb (is_none (last_spike_time self)) &&
     units_differ units (InterSpikeIntervalOnline.units self)
  then (Raised (ValueError "Each batch must have the same units."), self)
  else
    match intervals bach_mode (last_spike_time self) (magnitude arg) with
    | Done (new_isi, t1) =>
        let units' :=
          if is_none (last_spike_time self) then units
          else InterSpikeIntervalOnline.units self in
        let self' :=
          mk (max_isi_value self) (Some t1) (bin_size self) (num_bins self)
             (bin_edges self) (current_isi_histogram self) units' in
        match Histogram.histogram new_isi (bin_edges self) with
        | Done isi_hist =>
            (Done tt,
             mk (max_isi_value self) (Some t1) (bin_size self)
                (num_bins self) (bin_edges self)
                (zip_with Z.add (current_isi_histogram self) isi_hist)
                units')
        | Raised e => (Raised e, self')
        | Timeout => (Timeout, self')
        end
    | Raised e => (Raised e, self)
    | Timeout => (Timeout, self)
    end.

Definition get_isi (self : t) : tagged (list Z) :=
  mkTagged (units self) (current_isi_histogram self).

Definition reset (self : t) : t :=
  mk (max_isi_value self) None (bin_size self) (num_bins self)
     (bin_edges self) (repeat 0 (num_bins self)) None.

End InterSpikeIntervalOnline.

Definition plain {A : Type} (x : A) : tagged A := mkTagged None x.

(** ** Vocabulary of the properties *)

(** Bin [k] lies in one of the intervals [ls], [rs]: the interval number
    [j] runs from edge [l] to edge [r] of [bin_edges] with [l <= k < r]. *)
Definition covered (bin_edges : list Q) (ls rs : list Q) (k : nat) : Prop :=
  exists j l r lq rq,
    nth_error ls j = Some lq /\ nth_error rs j = Some rq /\
    nth_error bin_edges l = Some lq /\ nth_error bin_edges r = Some rq /\
    (l <= k < r)%nat.

(** Every non-empty bin below [upto] lies in one of the intervals. *)
Definition covers_upto (bincount : list Z) (bin_edges : list Q) (upto : nat)
  (ls rs : list Q) : Prop :=
  forall k, (k < upto)%nat -> nth k bincount 0 <> 0 ->
    covered bin_edges ls rs k.

Definition epoch_is (ep : Epoch) (complexities : list Z)
  (starts durations : list Q) : Prop :=
  ep_complexity ep = complexities /\
  Forall2 Qeq (ep_times ep) starts /\
  Forall2 Qeq (ep_durations ep) durations.

Definition yields (m : outcome Epoch) (complexities : list Z)
  (starts durations : list Q) : Prop :=
  exists ep, m = Done ep /\ epoch_is ep complexities starts durations.

(** The inputs that the builder refuses. *)
Definition inconsistent (spiketrains : list pyobj) : Prop :=
  spiketrains = [] \/
  In Foreign spiketrains \/
  exists a b, In (Neo a) spiketrains /\ In (Neo b) spiketrains /\
    (~ (t_start a == t_start b)%Q \/ ~ (t_stop a == t_stop b)%Q).

Definition threshold_error : exn :=
  ValueError "A deletion_threshold <= 1 would resultin deletion of all spikes.".

(** No other statement raises the error of the threshold check. *)
Definition other_error {A : Type} (m : outcome A) : Prop :=
  forall e, m = Raised e -> e <> threshold_error.

Definition nonneg (a : list Z) : Prop := Forall (fun x => 0 <= x) a.

(** Spike times at the left edge of a bin: [t0 + k * w] for a bin [k]
    of the axis. *)
Definition at_bin_start (t0 w : Q) (n : nat) (x : Q) (k : nat) : Prop :=
  (k < n)%nat /\ (x == t0 + inject_Z (Z.of_nat k) * w)%Q.

Definition on_bin_grid (t0 w : Q) (n : nat) (x : Q) : Prop :=
  exists k, at_bin_start t0 w n x k.

(** The start of the time axis and its number of bins, as the binned
    spike train derives them from the first spike train. *)
Definition axis_start (spiketrains : list pyobj) : Q :=
  match spiketrains with
  | Neo st :: _ => t_start st
  | _ => 0%Q
  end.

Definition axis_bins (spiketrains : list pyobj) (rate : Q) : nat :=
  match spiketrains with
  | Neo st :: _ => Z.to_nat (Qfloor ((t_stop st - t_start st) / (1 / rate)))
  | _ => O
  end.

(** Every spike of every train sits at the left edge of a bin. *)
Definition spikes_on_grid (spiketrains : list pyobj) (rate : Q) : Prop :=
  forall st, In (Neo st) spiketrains ->
    forall x, In x (times st) ->
      on_bin_grid (axis_start spiketrains) (1 / rate)
        (axis_bins spiketrains rate) x.

(** Interval [j] of the epoch contains [x]. *)
Definition in_interval (ep : Epoch) (j : nat) (x : Q) : Prop :=
  exists l d c,
    nth_error (ep_times ep) j = Some l /\
    nth_error (ep_durations ep) j = Some d /\
    nth_error (ep_complexity ep) j = Some c /\
    (l <= x)%Q /\ (x < l + d)%Q.

(** The right edges that [detect_synchrofacts] searches. *)
Definition right_edges_of (ep : Epoch) : list Q :=
  zip_with Qplus (ep_times ep) (ep_durations ep).

(** The complexity that the right-edge search assigns to each spike of a
    train. *)
Definition event_complexities (ep : Epoch) (st : SpikeTrain) : list Z :=
  map (fun x => nth (Np.searchsorted (right_edges_of ep) x) (ep_complexity ep) 0)
      (times st).

(** Whether a spike of complexity [c] survives the deletion. *)
Definition kept (invert_delete : bool) (threshold c : Z) : bool :=
  if invert_delete then negb (c <? threshold) else c <? threshold.

(** The spikes of [ts], with complexities [cs], that survive, in order. *)
Definition surviving (invert_delete : bool) (threshold : Z)
  (ts : list Q) (cs : list Z) : list Q :=
  map fst (filter (fun p => kept invert_delete threshold (snd p)) (combine ts cs)).

(** A train after the annotation, and after the deletion. *)
Definition annotated_st (ep : Epoch) (st : SpikeTrain) : SpikeTrain :=
  array_annotate st (event_complexities ep st).

Definition filtered_st (ep : Epoch) (invert_delete : bool) (threshold : Z)
  (st : SpikeTrain) : SpikeTrain :=
  let cs := event_complexities ep st in
  mkSpikeTrain (surviving invert_delete threshold (times st) cs)
    (t_start st) (t_stop st)
    (Some (filter (kept invert_delete threshold) cs))
    (st_unit st) (st_segment st).

(** What the call leaves at the place of a train. *)
Definition processed_st (ep : Epoch) (deletion_threshold : option Z)
  (invert_delete : bool) (st : SpikeTrain) : SpikeTrain :=
  match deletion_threshold with
  | None => annotated_st ep st
  | Some t => filtered_st ep invert_delete t st
  end.

Definition processed (ep : Epoch) (deletion_threshold : option Z)
  (invert_delete : bool) (o : pyobj) : pyobj :=
  match o with
  | Neo st => Neo (processed_st ep deletion_threshold invert_delete st)
  | Foreign => Foreign
  end.

Definition spike_count (o : pyobj) : nat :=
  match o with
  | Neo st => List.length (times st)
  | Foreign => O
  end.

Definition total_spikes (l : list pyobj) : nat :=
  fold_right (fun o acc => (spike_count o + acc)%nat) O l.

(** The number of spikes of a train that the deletion removes. *)
Definition removed_count (ep : Epoch) (invert_delete : bool) (threshold : Z)
  (o : pyobj) : nat :=
  match o with
  | Neo st =>
      List.length (filter (fun c => negb (kept invert_delete threshold c))
                     (event_complexities ep st))
  | Foreign => O
  end.

Definition total_removed (ep : Epoch) (invert_delete : bool) (threshold : Z)
  (l : list pyobj) : nat :=
  fold_right (fun o acc => (removed_count ep invert_delete threshold o + acc)%nat)
    O l.

Definition all_spike_trains (l : list pyobj) : Prop :=
  forall o, In o l -> exists st, o = Neo st.

(** Some train has a spike. *)
Definition has_spike (spiketrains : list pyobj) : Prop :=
  exists st x, In (Neo st) spiketrains /\ In x (times st).

(** A decidable form of [spikes_on_grid]. *)
Definition on_bin_grid_b (t0 w : Q) (n : nat) (x : Q) : bool :=
  let k := Qfloor ((x - t0) / w) in
  (0 <=? k) && (Z.to_nat k <? n)%nat && Qeq_bool x (t0 + inject_Z k * w).

Definition spikes_on_grid_b (spiketrains : list pyobj) (rate : Q) : bool :=
  forallb (fun o =>
             match o with
             | Neo st =>
                 forallb (on_bin_grid_b (axis_start spiketrains) (1 / rate)
                            (axis_bins spiketrains rate)) (times st)
             | Foreign => true
             end) spiketrains.

(** The wider precondition: every spike time is an integer multiple of
    the bin width and lies in the recording window. *)
Definition multiple_of_bin_width (rate x : Q) : Prop :=
  exists k : Z, (x == inject_Z k * (1 / rate))%Q.

Definition spikes_on_multiples (spiketrains : list pyobj) (rate : Q) : Prop :=
  forall st, In (Neo st) spiketrains ->
    forall x, In x (times st) ->
      multiple_of_bin_width rate x /\ (t_start st <= x)%Q /\ (x < t_stop st)%Q.

Definition lookup_in_bounds_on_multiples : Prop :=
  forall fuel spiketrains rate spread ep st x,
    (0 < rate)%Q ->
    spikes_on_multiples spiketrains rate ->
    precise_complexity_intervals fuel spiketrains rate spread = Done ep ->
    In (Neo st) spiketrains -> In x (times st) ->
    (Np.searchsorted (right_edges_of ep) x < List.length (ep_complexity ep))%nat.

(** A train that starts off the multiples of the bin width: a window from
    0.3 ms to 10.3 ms, bins of 1 ms, one spike at 1 ms. *)
Definition off_grid_train : SpikeTrain :=
  mkSpikeTrain [1]%Q (3 # 10) (103 # 10) None None None.

(** The numbers of one [update] call: a list of rationals for an
    accumulator in batch mode, one rational otherwise. *)
Definition reading (batch_mode : bool) : Type :=
  if batch_mode then list Q else Q.

Definition to_sample (batch_mode : bool) : reading batch_mode -> sample batch_mode :=
  match batch_mode return reading batch_mode -> sample batch_mode with
  | true => map Fin
  | false => Fin
  end.

(** The individual values of one [update] call. *)
Definition values (batch_mode : bool) : reading batch_mode -> list Q :=
  match batch_mode return reading batch_mode -> list Q with
  | true => fun xs => xs
  | false => fun x => [x]
  end.

Definition Qsum (l : list Q) : Q := fold_right Qplus 0%Q l.

(** The arithmetic mean of a non-empty list. *)
Definition arithmetic_mean (l : list Q) : Q :=
  (Qsum l / inject_Z (Z.of_nat (List.length l)))%Q.

(** A sequence of [update] calls on one accumulator, all with the units
    [u]; it stops at the first call that raises. *)
Fixpoint feed_mean (batch_mode : bool) (self : MeanOnline.t)
  (u : option string) (updates : list (reading batch_mode))
  : outcome unit * MeanOnline.t :=
  match updates with
  | [] => (Done tt, self)
  | x :: r =>
      match MeanOnline.update batch_mode self
              (mkTagged u (to_sample batch_mode x)) with
      | (Done _, self') => feed_mean batch_mode self' u r
      | failed => failed
      end
  end.

(** The mean of every sequence of updates: whatever the sequence, with
    batches of any sizes, as soon as a value has been seen every call
    succeeds and [get_mean] is the arithmetic mean of the values seen. *)
Definition mean_of_every_update_sequence : Prop :=
  forall (batch_mode : bool) (u : option string)
         (updates : list (reading batch_mode)),
    flat_map (values batch_mode) updates <> [] ->
    exists self m,
      feed_mean batch_mode MeanOnline.init u updates = (Done tt, self) /\
      MeanOnline.get_mean self = mkTagged u (Some (Fin m)) /\
      (m == arithmetic_mean (flat_map (values batch_mode) updates))%Q.

(** Feeding single values, one [update] call each, to an accumulator built
    with [batch_mode=False]. *)
Fixpoint feed_variance (self : VarianceOnline.t) (values : list Q)
  : outcome VarianceOnline.t :=
  match values with
  | [] => Done self
  | x :: r =>
      self' <- VarianceOnline.update false self (plain (Fin x)) ;;
      feed_variance self' r
  end.

(** A count of at most one always gives a standard deviation of zero,
    the never-updated state included. *)
Definition std_zero_whenever_count_le_1 : Prop :=
  forall (self : VarianceOnline.t) (unbiased : bool),
    VarianceOnline.count self <= 1 ->
    exists u, snd (VarianceOnline.get_mean_std self unbiased)
              = Some (mkTagged u (RFin 0%R)).

(** The train [st], behind the reference [ref], is listed by the
    containers it belongs to. *)
Definition attached (m : memory) (ref : nat) (st : SpikeTrain) : Prop :=
  (forall key, st_unit st = Some key -> In ref (nth key (units m) [])) /\
  (forall key, st_segment st = Some key -> In ref (nth key (segments m) [])).

(** The list holds distinct spike trains, each listed by its containers. *)
Definition well_attached (spiketrains : list nat) (m : memory) : Prop :=
  NoDup spiketrains /\
  forall ref st, In ref spiketrains -> deref m ref = Neo st -> attached m ref st.

(** The three updates, and the histogram after the first and after the
    last of them. *)
Definition isi_after_0_2_5 (max_isi : Q)
  : outcome (tagged (list Z) * tagged (list Z)) :=
  h0 <- InterSpikeIntervalOnline.init 1 max_isi ;;
  let ' (_, h1) := InterSpikeIntervalOnline.update false h0 (plain 0%Q) in
  let ' (_, h2) := InterSpikeIntervalOnline.update false h1 (plain 2%Q) in
  let ' (_, h3) := InterSpikeIntervalOnline.update false h2 (plain 5%Q) in
  Done (InterSpikeIntervalOnline.get_isi h1, InterSpikeIntervalOnline.get_isi h3).

(** *** The intervals as runs of bins *)

(** The number of spikes in the bins [a], ..., [b - 1]. *)
Definition bins_sum (bincount : list Z) (a b : nat) : Z :=
  Np.sum (Np.slice bincount a b).

(** The bins [a], ..., [b - 1] are one group of synchronous spikes for
    the given [spread]: the first and the last bin are not empty, every bin
    but the last is followed, within [spread] bins, by a bin of the group
    that is not empty, and the [spread] bins after the group are empty. *)
Record cluster (bincount : list Z) (spread a b : nat) : Prop := mkCluster {
  cluster_range : (a < b <= List.length bincount)%nat;
  cluster_first : nth a bincount 0 <> 0;
  cluster_last : nth (b - 1) bincount 0 <> 0;
  cluster_chain : forall k, (a <= k)%nat -> (S k < b)%nat ->
    exists k', (k < k' <= k + spread)%nat /\ (k' < b)%nat /\
               nth k' bincount 0 <> 0;
  cluster_after : forall k, (b <= k < b + spread)%nat -> nth k bincount 0 = 0
}.

(** The runs of bins [ivs], from left to right, are the groups of the bin
    counts: each is a group, each starts at least [spread] bins after the
    end of the ones before it, and every bin that is not empty lies in
    one of them. *)
Definition clusters (bincount : list Z) (spread : nat)
  (ivs : list (nat * nat)) : Prop :=
  (forall ab, In ab ivs -> cluster bincount spread (fst ab) (snd ab)) /\
  (forall j1 j2 p q, (j1 < j2)%nat ->
     nth_error ivs j1 = Some p -> nth_error ivs j2 = Some q ->
     (snd p + spread <= fst q)%nat) /\
  (forall k, nth k bincount 0 <> 0 ->
     exists ab, In ab ivs /\ (fst ab <= k < snd ab)%nat).

(** What the search for the intervals returns for the runs [ivs]: the
    counts of the runs and the edges at their two ends. *)
Definition intervals_of (bincount : list Z) (bin_edges : list Q)
  (ivs : list (nat * nat)) : list Z * list Q * list Q :=
  (map (fun ab => bins_sum bincount (fst ab) (snd ab)) ivs,
   map (fun ab => nth (fst ab) bin_edges 0%Q) ivs,
   map (fun ab => nth (snd ab) bin_edges 0%Q) ivs).

(** Every spike of every train lies in the part of the recording window
    that the bins cover: from the start of the axis up to, but not
    including, the last bin edge. *)
Definition spikes_in_window (spiketrains : list pyobj) (rate : Q) : Prop :=
  forall st, In (Neo st) spiketrains ->
    forall x, In x (times st) ->
      (axis_start spiketrains <= x)%Q /\
      (x < axis_start spiketrains
           + inject_Z (Z.of_nat (axis_bins spiketrains rate)) * (1 / rate))%Q.

(** Some train has a spike in the first bin of the axis. *)
Definition spike_in_first_bin (spiketrains : list pyobj) (rate : Q) : Prop :=
  exists st x,
    In (Neo st) spiketrains /\ In x (times st) /\
    (axis_start spiketrains <= x)%Q /\
    (x < axis_start spiketrains + 1 / rate)%Q.

(** No train has a spike. *)
Definition no_spikes (spiketrains : list pyobj) : Prop :=
  forall st, In (Neo st) spiketrains -> times st = [].

(** The error of an access to the first element of an empty array. *)
Definition empty_index_error : exn :=
  IndexError "index 0 is out of bounds for axis 0 with size 0".

(** Two states of one object that differ at most in the annotation. *)
Definition same_but_annotation (o o' : pyobj) : Prop :=
  match o, o' with
  | Neo st, Neo st' =>
      times st' = times st /\ t_start st' = t_start st /\
      t_stop st' = t_stop st /\ st_unit st' = st_unit st /\
      st_segment st' = st_segment st
  | Foreign, Foreign => True
  | _, _ => False
  end.

(** The memory [m'] holds the objects of [m], with their spikes, at the
    same places, and the same units and segments. *)
Definition only_annotated (m m' : memory) : Prop :=
  units m' = units m /\ segments m' = segments m /\
  List.length (heap m') = List.length (heap m) /\
  forall ref, same_but_annotation (deref m ref) (deref m' ref).

(** The error of a list assignment whose index is [None]. *)
Definition none_index_error : exn :=
  TypeError "list indices must be integers or slices, not NoneType".

(** A train that names the unit 0, in a memory whose unit 0 lists no
    train. *)
Definition unlisted_train : SpikeTrain :=
  mkSpikeTrain [1; 2; 5]%Q 0 10 None (Some 0%nat) None.

Definition unlisted_memory : memory := mkMemory [Neo unlisted_train] [[]] [].

(** A sequence of [update] calls on one variance accumulator, in either
    mode, all with the units [u]; it stops at the first call that
    raises. *)
Fixpoint feed_variance_batches (batch_mode : bool) (self : VarianceOnline.t)
  (u : option string) (updates : list (reading batch_mode))
  : outcome VarianceOnline.t :=
  match updates with
  | [] => Done self
  | x :: r =>
      self' <- VarianceOnline.update batch_mode self
                 (mkTagged u (to_sample batch_mode x)) ;;
      feed_variance_batches batch_mode self' u r
  end.

(** The sum of the squared deviations of the values from [m]. *)
Definition squared_deviations (l : list Q) (m : Q) : Q :=
  Qsum (map (fun x => (x - m) * (x - m))%Q l).

(** The variance of a list: the squared deviations from its mean over
    its length less [ddof], which is 0 for the biased estimate and 1 for
    the unbiased one. *)
Definition variance_of (l : list Q) (ddof : Z) : Q :=
  (squared_deviations l (arithmetic_mean l)
   / inject_Z (Z.of_nat (List.length l) - ddof))%Q.

(** The error of an update whose units differ from the accumulator's. *)
Definition units_error : exn :=
  ValueError "Each batch must have the same units.".

(** A sequence of [update] calls on one histogrammer, all with the units
    [u]; it stops at the first call that raises. *)
Fixpoint feed_isi (bach_mode : bool) (self : InterSpikeIntervalOnline.t)
  (u : option string) (updates : list (InterSpikeIntervalOnline.timestamps bach_mode))
  : outcome unit * InterSpikeIntervalOnline.t :=
  match updates with
  | [] => (Done tt, self)
  | x :: r =>
      match InterSpikeIntervalOnline.update bach_mode self (mkTagged u x) with
      | (Done _, self') => feed_isi bach_mode self' u r
      | failed => failed
      end
  end.

(** The spike times of one [update] call. *)
Definition stamps (bach_mode : bool)
  : InterSpikeIntervalOnline.timestamps bach_mode -> list Q :=
  match bach_mode
        return InterSpikeIntervalOnline.timestamps bach_mode -> list Q with
  | true => fun xs => xs
  | false => fun x => [x]
  end.

(** The intervals that the histogram keeps: those from 0 to the largest
    interval, both included. *)
Definition in_histogram_range (max_isi_value : Q) (v : Q) : bool :=
  Qle_bool 0 v && Qle_bool v max_isi_value.

(** Whether the spike time [x] lies in interval [j] of the epoch, from
    its start up to, but not including, its end. *)
Definition in_interval_b (ep : Epoch) (j : nat) (x : Q) : bool :=
  match nth_error (ep_times ep) j, nth_error (ep_durations ep) j with
  | Some l, Some d => Qle_bool l x && negb (Qle_bool (l + d) x)
  | _, _ => false
  end.

(** The number of spikes of all trains whose time satisfies [p]. *)
Definition count_spikes (p : Q -> bool) (spiketrains : list pyobj) : nat :=
  fold_right
    (fun o acc =>
       (match o with
        | Neo st => List.length (filter p (times st))
        | Foreign => O
        end + acc)%nat)
    O spiketrains.

(** The number of spikes of all trains that lie in interval [j]. *)
Definition spikes_within (ep : Epoch) (j : nat) (spiketrains : list pyobj)
  : nat :=
  count_spikes (in_interval_b ep j) spiketrains.

(** * Properties *)

(** ** Outcomes and fuel *)

Lemma bind_terminates {A B : Type} (m : outcome A) (k : A -> outcome B) :
  terminates (bind m k) -> terminates m.
Proof. unfold terminates. destruct m; simpl; congruence. Qed.

Lemma bind_Done_inv {A B : Type} (m : outcome A) (k : A -> outcome B) (b : B) :
  bind m k = Done b -> exists a, m = Done a /\ k a = Done b.
Proof. destruct m; simpl; intros H; try discriminate. eauto. Qed.

Lemma grow_window_more_fuel bincount i spread :
  forall fuel extra lws lni window wsum,
    terminates (grow_window fuel bincount i spread lws lni window wsum) ->
    grow_window (fuel + extra) bincount i spread lws lni window wsum
    = grow_window fuel bincount i spread lws lni window wsum.
Proof.
  induction fuel as [|fuel IH]; intros extra lws lni window wsum H.
  - exfalso. apply H. reflexivity.
  - simpl in *. destruct (wsum >? lws); [|reflexivity].
    destruct (Np.last_item (Np.nonzero window)) as [k|e|]; simpl in *;
      try reflexivity.
    apply IH. exact H.
Qed.

Lemma scan_bins_more_fuel bincount bin_edges spread :
  forall fuel gas extra extra' i cs ls rs,
    terminates (scan_bins fuel gas bincount bin_edges spread i cs ls rs) ->
    scan_bins (fuel + extra) (gas + extra') bincount bin_edges spread i cs ls rs
    = scan_bins fuel gas bincount bin_edges spread i cs ls rs.
Proof.
  induction fuel as [|fuel IH]; intros gas extra extra' i cs ls rs H.
  - exfalso. apply H. reflexivity.
  - simpl in *. destruct (i <? List.length bincount)%nat; [|reflexivity].
    destruct (Np.item bincount i) as [c|e|]; simpl in *; try reflexivity.
    destruct (c =? 0).
    + apply IH. exact H.
    + pose proof (bind_terminates _ _ H) as Hg.
      rewrite (grow_window_more_fuel _ _ _ _ extra' _ _ _ _ Hg).
      destruct (grow_window gas bincount i spread c 0
                  (Np.slice bincount i (i + spread + 1))
                  (Np.sum (Np.slice bincount i (i + spread + 1))))
        as [[lni wsum]|e|]; simpl in *; try reflexivity.
      destruct (Np.item bin_edges i) as [l|e|]; simpl in *; try reflexivity.
      destruct (Np.item bin_edges (i + lni + 1)) as [r|e|]; simpl in *;
        try reflexivity.
      apply IH. exact H.
Qed.

Lemma raw_intervals_more_fuel fuel extra bincount bin_edges spread :
  terminates (raw_intervals fuel bincount bin_edges spread) ->
  raw_intervals (fuel + extra) bincount bin_edges spread
  = raw_intervals fuel bincount bin_edges spread.
Proof.
  unfold raw_intervals. destruct (spread =? 0)%nat; [reflexivity|].
  destruct bincount; [reflexivity|]. apply scan_bins_more_fuel.
Qed.

Lemma precise_complexity_intervals_more_fuel fuel extra spiketrains rate spread :
  terminates (precise_complexity_intervals fuel spiketrains rate spread) ->
  precise_complexity_intervals (fuel + extra) spiketrains rate spread
  = precise_complexity_intervals fuel spiketrains rate spread.
Proof.
  unfold precise_complexity_intervals. intros H.
  destruct (_check_consistency_of_spiketrainlist spiketrains None None);
    simpl in *; try reflexivity.
  destruct (BinnedSpikeTrain.init spiketrains (1 / rate)); simpl in *;
    try reflexivity.
  rewrite raw_intervals_more_fuel; [reflexivity|].
  exact (bind_terminates _ _ H).
Qed.

(** ** The worked examples of the docstring *)

Ltac forall2_qeq :=
  repeat (first [ apply Forall2_nil
                | apply Forall2_cons; [vm_compute; reflexivity|] ]).

Lemma docstring_example_at (spread : nat) (fuel : nat) (ep : Epoch)
  (complexities : list Z) (starts durations : list Q) :
  precise_complexity_intervals fuel [Neo st1; Neo st2] 1 spread = Done ep ->
  epoch_is ep complexities starts durations ->
  forall extra,
    yields (precise_complexity_intervals (fuel + extra) [Neo st1; Neo st2] 1 spread)
      complexities starts durations.
Proof.
  intros Hrun Hep extra. exists ep. split; [|exact Hep].
  rewrite precise_complexity_intervals_more_fuel; [exact Hrun|].
  rewrite Hrun. discriminate.
Qed.

(** C1.  The two spike trains [1, 4, 6] ms and [1, 5, 8] ms with
    [t_stop = 10] ms, binned at 1 ms, give: for [spread = 0] the
    complexities [2, 1, 1, 1, 1] at [0, 3.5, 4.5, 5.5, 7.5] ms with
    durations [1.5, 1, 1, 1, 1] ms; for [spread = 1] the complexities
    [2, 3, 1] at [0, 3.5, 7.5] ms with durations [1.5, 3, 1] ms; for
    [spread = 2] the complexities [2, 4] at [0, 3.5] ms with durations
    [1.5, 5] ms.  This holds for every amount of fuel from 11 on. *)
Theorem precise_complexity_intervals_docstring_examples :
  forall extra : nat,
    yields (precise_complexity_intervals (11 + extra) [Neo st1; Neo st2] 1 0)
      [2; 1; 1; 1; 1]
      [0; 7 # 2; 9 # 2; 11 # 2; 15 # 2]%Q
      [3 # 2; 1; 1; 1; 1]%Q
    /\
    yields (precise_complexity_intervals (11 + extra) [Neo st1; Neo st2] 1 1)
      [2; 3; 1]
      [0; 7 # 2; 15 # 2]%Q
      [3 # 2; 3; 1]%Q
    /\
    yields (precise_complexity_intervals (11 + extra) [Neo st1; Neo st2] 1 2)
      [2; 4]
      [0; 7 # 2]%Q
      [3 # 2; 5]%Q.
Proof.
  intros extra. split; [|split].
  - eapply docstring_example_at; [vm_compute; reflexivity|].
    unfold epoch_is; simpl. split; [reflexivity|split; forall2_qeq].
  - eapply docstring_example_at; [vm_compute; reflexivity|].
    unfold epoch_is; simpl. split; [reflexivity|split; forall2_qeq].
  - eapply docstring_example_at; [vm_compute; reflexivity|].
    unfold epoch_is; simpl. split; [reflexivity|split; forall2_qeq].
Qed.

(** ** Validation of the inputs *)

Lemma item_0_cons {A : Type} (x : A) (l : list A) : Np.item (x :: l) 0 = Done x.
Proof. reflexivity. Qed.

(** The consistency check never runs out of fuel: it has no [while]. *)
Lemma check_each_terminates l rest a b : terminates (check_each l rest a b).
Proof.
  induction rest as [|o rest IH]; simpl; [discriminate|].
  destruct o as [st|]; [|discriminate].
  unfold differs_from_first.
  destruct a, b, l as [|[f|] l']; simpl; try discriminate; try exact IH;
    repeat (destruct (negb _); simpl; try discriminate); exact IH.
Qed.

(** When the check passes, every element is a spike train whose start and
    stop times are those of the first element. *)
Lemma check_each_Done first l rest :
  check_each (Neo first :: l) rest None None = Done tt ->
  forall o, In o rest ->
    exists st, o = Neo st /\
      (t_start st == t_start first)%Q /\ (t_stop st == t_stop first)%Q.
Proof.
  induction rest as [|o rest IH]; simpl; intros H x Hin; [contradiction|].
  destruct o as [st|]; [|discriminate].
  destruct (Qeq_bool (t_start st) (t_start first)) eqn:E1; simpl in H;
    [|discriminate].
  destruct (Qeq_bool (t_stop st) (t_stop first)) eqn:E2; simpl in H;
    [|discriminate].
  destruct Hin as [<-|Hin].
  - exists st. split; [reflexivity|].
    split; apply Qeq_bool_iff; assumption.
  - apply IH; assumption.
Qed.

Lemma check_Done_inv spiketrains :
  _check_consistency_of_spiketrainlist spiketrains None None = Done tt ->
  exists first rest,
    spiketrains = Neo first :: rest /\
    forall o, In o spiketrains ->
      exists st, o = Neo st /\
        (t_start st == t_start first)%Q /\ (t_stop st == t_stop first)%Q.
Proof.
  unfold _check_consistency_of_spiketrainlist.
  destruct spiketrains as [|o rest]; simpl; [discriminate|].
  destruct o as [first|]; [|discriminate].
  intros H. exists first, rest. split; [reflexivity|].
  apply (check_each_Done first rest (Neo first :: rest)). exact H.
Qed.

Lemma inconsistent_check_raises spiketrains :
  inconsistent spiketrains ->
  raises (_check_consistency_of_spiketrainlist spiketrains None None).
Proof.
  intros Hbad.
  destruct (_check_consistency_of_spiketrainlist spiketrains None None)
    as [[]|e|] eqn:E.
  - exfalso. destruct (check_Done_inv _ E) as (first & rest & -> & Hall).
    destruct Hbad as [Hbad|[Hbad|(a & b & Ha & Hb & Hdiff)]].
    + discriminate.
    + destruct (Hall _ Hbad) as (st & Hst & _). discriminate.
    + destruct (Hall _ Ha) as (sa & Hsa & Ha1 & Ha2).
      destruct (Hall _ Hb) as (sb & Hsb & Hb1 & Hb2).
      injection Hsa as <-. injection Hsb as <-.
      destruct Hdiff as [Hd|Hd]; apply Hd.
      * rewrite Ha1, Hb1. reflexivity.
      * rewrite Ha2, Hb2. reflexivity.
  - exists e. reflexivity.
  - exfalso. revert E. unfold _check_consistency_of_spiketrainlist.
    destruct (List.length spiketrains =? 0)%nat; [discriminate|].
    apply check_each_terminates.
Qed.

(** C8.  An empty list, a list with an element that is not a spike train,
    and a list with two spike trains whose start times or whose stop times
    differ all make [precise_complexity_intervals] raise, for every
    sampling rate, spread and fuel: the error is the one of the consistency
    check, which is the first statement of the function, and no epoch is
    returned. *)
Theorem precise_complexity_intervals_rejects_inconsistent
  (fuel : nat) (spiketrains : list pyobj) (rate : Q) (spread : nat)
  (Hbad : inconsistent spiketrains) :
  exists e,
    _check_consistency_of_spiketrainlist spiketrains None None = Raised e /\
    precise_complexity_intervals fuel spiketrains rate spread = Raised e /\
    ~ returns (precise_complexity_intervals fuel spiketrains rate spread).
Proof.
  destruct (inconsistent_check_raises _ Hbad) as [e He].
  exists e. split; [exact He|].
  assert (Hrun : precise_complexity_intervals fuel spiketrains rate spread
                 = Raised e).
  { unfold precise_complexity_intervals. rewrite He. reflexivity. }
  split; [exact Hrun|].
  intros [ep Hep]. rewrite Hrun in Hep. discriminate.
Qed.

Lemma precise_complexity_intervals_rejects_inconsistent_witness :
  exists e,
    _check_consistency_of_spiketrainlist [Neo st1; Foreign] None None = Raised e /\
    precise_complexity_intervals 5 [Neo st1; Foreign] 1 1 = Raised e /\
    ~ returns (precise_complexity_intervals 5 [Neo st1; Foreign] 1 1).
Proof.
  apply (precise_complexity_intervals_rejects_inconsistent 5 [Neo st1; Foreign] 1 1).
  right. left. simpl. right. left. reflexivity.
Defined.

(** ** The deletion threshold *)

Lemma other_error_bind {A B : Type} (m : outcome A) (k : A -> outcome B) :
  other_error m -> (forall a, m = Done a -> other_error (k a)) ->
  other_error (bind m k).
Proof.
  intros Hm Hk e. destruct m as [a|e'|]; simpl.
  - apply Hk. reflexivity.
  - intros H. injection H as <-. apply Hm. reflexivity.
  - discriminate.
Qed.

Lemma other_error_Done {A : Type} (a : A) : other_error (Done a).
Proof. intros e H. discriminate. Qed.

Lemma other_error_Timeout {A : Type} : other_error (@Timeout A).
Proof. intros e H. discriminate. Qed.

Ltac other_error_leaf :=
  let e := fresh "e" in
  let H := fresh "H" in
  intros e H; injection H as <-; unfold threshold_error; discriminate.

Lemma other_error_item {A : Type} (a : list A) i : other_error (Np.item a i).
Proof.
  unfold Np.item. destruct (nth_error a i);
    [apply other_error_Done|other_error_leaf].
Qed.

Lemma other_error_last_item {A : Type} (a : list A) :
  other_error (Np.last_item a).
Proof.
  unfold Np.last_item. destruct (rev a);
    [other_error_leaf|apply other_error_Done].
Qed.

Lemma other_error_take {A : Type} (a : list A) idx : other_error (Np.take a idx).
Proof.
  induction idx as [|i idx IH]; simpl; [apply other_error_Done|].
  apply other_error_bind; [apply other_error_item|intros x _].
  apply other_error_bind; [exact IH|intros xs _]. apply other_error_Done.
Qed.

Lemma other_error_get_t_start o : other_error (get_t_start o).
Proof. destruct o; [apply other_error_Done|other_error_leaf]. Qed.

Lemma other_error_get_t_stop o : other_error (get_t_stop o).
Proof. destruct o; [apply other_error_Done|other_error_leaf]. Qed.

Create HintDb other_error.

#[local] Hint Resolve other_error_Done other_error_Timeout other_error_item
  other_error_last_item other_error_take other_error_get_t_start
  other_error_get_t_stop : other_error.

Lemma other_error_differs arg mine first :
  other_error first -> other_error (differs_from_first arg mine first).
Proof.
  intros H. unfold differs_from_first. destruct (is_none arg); auto with other_error.
  apply other_error_bind; auto with other_error.
Qed.

Lemma other_error_check_each l rest a b : other_error (check_each l rest a b).
Proof.
  induction rest as [|o rest IH]; simpl; auto with other_error.
  destruct o as [st|]; [|other_error_leaf].
  apply other_error_bind.
  { apply other_error_differs. apply other_error_bind; auto with other_error. }
  intros [|] _; [other_error_leaf|].
  apply other_error_bind.
  { apply other_error_differs. apply other_error_bind; auto with other_error. }
  intros [|] _; [other_error_leaf|exact IH].
Qed.

Lemma other_error_check l a b :
  other_error (_check_consistency_of_spiketrainlist l a b).
Proof.
  unfold _check_consistency_of_spiketrainlist.
  destruct (List.length l =? 0)%nat; [other_error_leaf|].
  apply other_error_check_each.
Qed.

Lemma other_error_rows t0 t1 w n l :
  other_error (BinnedSpikeTrain.rows t0 t1 w n l).
Proof.
  induction l as [|o l IH]; simpl; auto with other_error.
  destruct o; [|other_error_leaf].
  apply other_error_bind; auto with other_error.
Qed.

Lemma other_error_init l w : other_error (BinnedSpikeTrain.init l w).
Proof.
  unfold BinnedSpikeTrain.init. destruct l as [|o l]; [other_error_leaf|].
  apply other_error_bind; auto with other_error. intros t0 _.
  apply other_error_bind; auto with other_error. intros t1 _.
  destruct (Qlt_le_dec t1 t0); [other_error_leaf|].
  apply other_error_bind; [apply other_error_rows|]. auto with other_error.
Qed.

Lemma other_error_grow_window bincount i spread :
  forall fuel lws lni window wsum,
    other_error (grow_window fuel bincount i spread lws lni window wsum).
Proof.
  induction fuel as [|fuel IH]; intros; simpl; auto with other_error.
  destruct (wsum >? lws); auto with other_error.
  apply other_error_bind; auto with other_error.
Qed.

Lemma other_error_scan_bins gas bincount bin_edges spread :
  forall fuel i cs ls rs,
    other_error (scan_bins fuel gas bincount bin_edges spread i cs ls rs).
Proof.
  induction fuel as [|fuel IH]; intros; simpl; auto with other_error.
  destruct (i <? List.length bincount)%nat; auto with other_error.
  apply other_error_bind; auto with other_error. intros c _.
  destruct (c =? 0); [apply IH|].
  apply other_error_bind; [apply other_error_grow_window|].
  intros [lni wsum] _.
  apply other_error_bind; auto with other_error. intros l _.
  apply other_error_bind; auto with other_error.
Qed.

Lemma other_error_raw_intervals fuel bincount bin_edges spread :
  other_error (raw_intervals fuel bincount bin_edges spread).
Proof.
  unfold raw_intervals. destruct (spread =? 0)%nat, bincount;
    try other_error_leaf; [|apply other_error_scan_bins].
  repeat (apply other_error_bind; auto with other_error; intros ? _).
Qed.

Lemma other_error_all_t_start l : other_error (all_t_start l).
Proof.
  induction l as [|o l IH]; simpl; auto with other_error.
  repeat (apply other_error_bind; auto with other_error; intros ? _).
Qed.

Lemma other_error_precise_complexity_intervals fuel l rate spread :
  other_error (precise_complexity_intervals fuel l rate spread).
Proof.
  unfold precise_complexity_intervals.
  apply other_error_bind; [apply other_error_check|intros _ _].
  apply other_error_bind; [apply other_error_init|intros bst _].
  apply other_error_bind; [apply other_error_raw_intervals|].
  intros [[cs ls] rs] _.
  apply other_error_bind; [apply other_error_all_t_start|intros starts _].
  apply other_error_bind.
  { unfold py_min. destruct starts; [other_error_leaf|auto with other_error]. }
  intros m _.
  apply other_error_bind; auto with other_error.
  unfold set_first. destruct (map _ ls); [other_error_leaf|auto with other_error].
Qed.

Lemma other_error_replace (cs : list (list nat)) (c : option nat)
  (old_st new_st : nat) :
  other_error (replace_in_container cs c old_st new_st).
Proof.
  unfold replace_in_container. destruct c as [key|]; auto with other_error.
  destruct (_get_index _ _); [auto with other_error|other_error_leaf].
Qed.

Lemma other_error_visit c r dt inv idx l m :
  other_error (fst (visit c r dt inv idx l m)).
Proof.
  unfold visit.
  destruct (nth_error l idx) as [ref|]; [|simpl; other_error_leaf].
  destruct (deref m ref) as [st|]; [|simpl; other_error_leaf].
  pose proof (other_error_take c (map (Np.searchsorted r) (times st))) as Htake.
  destruct (Np.take c _) as [cps|e|]; cbn [fst]; auto with other_error.
  - destruct dt as [t|]; cbn [fst]; auto with other_error.
    cbv beta iota zeta. unfold allocate.
    match goal with
    | |- context [replace_in_container ?m0 ?u ?a ?b] =>
        pose proof (other_error_replace m0 u a b) as Hu;
        destruct (replace_in_container m0 u a b) as [m1|e|]
    end; cbv beta iota zeta; cbn [fst]; auto with other_error.
    + match goal with
      | |- context [replace_in_container ?m0 ?u ?a ?b] =>
          pose proof (other_error_replace m0 u a b) as Hs;
          destruct (replace_in_container m0 u a b) as [m2|e|]
      end; cbn [fst]; auto with other_error.
      intros e' H. injection H as <-. apply (Hs e). reflexivity.
    + intros e' H. injection H as <-. apply (Hu e). reflexivity.
  - intros e' H. injection H as <-. apply (Htake e). reflexivity.
Qed.

Lemma other_error_annotate_loop c r dt inv :
  forall todo idx l m,
    other_error (fst (annotate_loop c r dt inv todo idx l m)).
Proof.
  induction todo as [|todo IH]; intros; simpl; auto with other_error.
  pose proof (other_error_visit c r dt inv idx l m) as Hv.
  destruct (visit c r dt inv idx l m) as [[[]|e|] [l' m']]; cbn [fst] in *.
  - apply IH.
  - exact Hv.
  - exact Hv.
Qed.

(** C9.  A deletion threshold of 1 or less makes [detect_synchrofacts]
    raise the error of its first statement, whatever the other arguments
    are, and leaves the list of spike trains and the memory as they were;
    without a threshold, or with a threshold of 2 or more, that error is
    never raised. *)
Theorem detect_synchrofacts_threshold_check
  (fuel : nat) (spiketrains : list nat) (m : memory) (rate : Q)
  (spread : nat) (invert_delete : bool) (deletion_threshold : option Z) :
  ((exists t, deletion_threshold = Some t /\ t <= 1) ->
   detect_synchrofacts fuel spiketrains m rate spread deletion_threshold
     invert_delete = (Raised threshold_error, (spiketrains, m)))
  /\
  ((deletion_threshold = None \/
    exists t, deletion_threshold = Some t /\ 2 <= t) ->
   fst (detect_synchrofacts fuel spiketrains m rate spread deletion_threshold
          invert_delete) <> Raised threshold_error).
Proof.
  unfold detect_synchrofacts. split.
  - intros (t & -> & Ht). simpl.
    destruct (Z.leb_spec t 1); [reflexivity|lia].
  - intros Hok.
    assert (Hacc : threshold_rejected deletion_threshold = false).
    { destruct Hok as [->|(t & -> & Ht)]; simpl; [reflexivity|].
      destruct (Z.leb_spec t 1); [lia|reflexivity]. }
    rewrite Hacc.
    pose proof (other_error_precise_complexity_intervals fuel
                  (map (deref m) spiketrains) rate spread) as Hpci.
    destruct (precise_complexity_intervals fuel (map (deref m) spiketrains)
                rate spread) as [ep|e|]; cbn [fst].
    + pose proof (other_error_annotate_loop (ep_complexity ep)
                    (zip_with Qplus (ep_times ep) (ep_durations ep))
                    deletion_threshold invert_delete
                    (List.length spiketrains) 0 spiketrains m) as Hloop.
      destruct (annotate_loop _ _ _ _ _ _ _ _) as [[[]|e|] after];
        cbn [fst bind] in *; try discriminate.
      intros H. injection H as H. exact (Hloop e eq_refl H).
    + intros H. injection H as H. exact (Hpci e eq_refl H).
    + discriminate.
Qed.

Lemma detect_synchrofacts_threshold_check_witness :
  detect_synchrofacts 20 docstring_list docstring_memory 1 1 (Some 1) false
  = (Raised threshold_error, (docstring_list, docstring_memory))
  /\
  fst (detect_synchrofacts 20 docstring_list docstring_memory 1 1 (Some 2) false)
  <> Raised threshold_error.
Proof.
  split.
  - apply (detect_synchrofacts_threshold_check 20 docstring_list
             docstring_memory 1 1 false (Some 1)).
    exists 1. split; [reflexivity|lia].
  - apply (detect_synchrofacts_threshold_check 20 docstring_list
             docstring_memory 1 1 false (Some 2)).
    right. exists 2. split; [reflexivity|lia].
Defined.

(** ** The scan over the bins *)

Lemma sum_nonneg (a : list Z) : nonneg a -> 0 <= Np.sum a.
Proof.
  induction 1 as [|x a Hx _ IH]; simpl; lia.
Qed.

Lemma nonneg_skipn (a : list Z) : forall i, nonneg a -> nonneg (skipn i a).
Proof.
  induction a as [|x a IH]; intros [|i] H; simpl; try assumption.
  apply IH. inversion H; assumption.
Qed.

Lemma sum_firstn_le (a : list Z) : forall n, nonneg a -> Np.sum (firstn n a) <= Np.sum a.
Proof.
  induction a as [|x a IH]; intros [|n] H; simpl; try lia.
  - apply (sum_nonneg (x :: a)). exact H.
  - inversion H as [|? ? Hx Ha]; subst. specialize (IH n Ha). lia.
Qed.

Lemma sum_skipn_le (a : list Z) : forall i, nonneg a -> Np.sum (skipn i a) <= Np.sum a.
Proof.
  induction a as [|x a IH]; intros [|i] H; simpl; try lia.
  inversion H as [|? ? Hx Ha]; subst. specialize (IH i Ha). lia.
Qed.

Lemma slice_sum_le (a : list Z) (i j : nat) :
  nonneg a -> Np.sum (Np.slice a i j) <= Np.sum (skipn i a).
Proof.
  intros H. unfold Np.slice. apply sum_firstn_le. apply nonneg_skipn. exact H.
Qed.

Lemma slice_length (a : list Z) (i j : nat) :
  (i + List.length (Np.slice a i j) <= Nat.max i (List.length a))%nat.
Proof.
  unfold Np.slice. rewrite length_firstn, length_skipn. lia.
Qed.

Lemma nonzero_from_bounds (a : list Z) : forall s k,
  In k (Np.nonzero_from s a) -> (s <= k < s + List.length a)%nat.
Proof.
  induction a as [|x a IH]; intros s k H; simpl in *; [contradiction|].
  destruct (x =? 0).
  - apply IH in H. lia.
  - destruct H as [<-|H]; [lia|]. apply IH in H. lia.
Qed.

Lemma nonzero_from_complete (a : list Z) : forall s k,
  (k < List.length a)%nat -> nth k a 0 <> 0 -> In (s + k)%nat (Np.nonzero_from s a).
Proof.
  induction a as [|x a IH]; intros s k Hk Hnz; simpl in *; [lia|].
  destruct k as [|k].
  - destruct (Z.eqb_spec x 0); [contradiction|]. left. lia.
  - replace (s + S k)%nat with (S s + k)%nat by lia.
    destruct (x =? 0); [|right]; apply IH; (lia || assumption).
Qed.

Lemma nonzero_nonempty (a : list Z) : Np.sum a <> 0 -> Np.nonzero a <> [].
Proof.
  unfold Np.nonzero. generalize 0%nat.
  induction a as [|x a IH]; intros s H; simpl in *; [congruence|].
  destruct (Z.eqb_spec x 0) as [->|_]; [|discriminate].
  apply IH. lia.
Qed.

Lemma last_item_Done {A : Type} (a : list A) :
  a <> [] -> exists x, Np.last_item a = Done x /\ In x a.
Proof.
  intros H. unfold Np.last_item.
  destruct (rev a) as [|x r] eqn:E.
  - exfalso. apply H. apply (f_equal (@rev A)) in E.
    rewrite rev_involutive in E. exact E.
  - exists x. split; [reflexivity|]. apply in_rev. rewrite E. left. reflexivity.
Qed.

(** The last non-zero index of a window whose sum is not zero. *)
Lemma last_nonzero_of_window (a : list Z) :
  Np.sum a <> 0 ->
  exists k, Np.last_item (Np.nonzero a) = Done k /\ (k < List.length a)%nat.
Proof.
  intros H. destruct (last_item_Done _ (nonzero_nonempty a H)) as (k & E & Hin).
  exists k. split; [exact E|]. apply nonzero_from_bounds in Hin. lia.
Qed.

Lemma item_Done_nth_error {A : Type} (a : list A) (i : nat) :
  (i < List.length a)%nat ->
  exists x, Np.item a i = Done x /\ nth_error a i = Some x.
Proof.
  intros H. unfold Np.item. destruct (nth_error a i) as [x|] eqn:E.
  - exists x. split; reflexivity.
  - apply nth_error_None in E. lia.
Qed.

Lemma item_nth (a : list Z) (i : nat) :
  (i < List.length a)%nat -> Np.item a i = Done (nth i a 0).
Proof.
  intros H. destruct (item_Done_nth_error a i H) as (x & -> & E).
  rewrite (nth_error_nth _ _ 0 E). reflexivity.
Qed.

Section Scan.

Variable bincount : list Z.
Variable spread : nat.

Hypothesis counts_nonneg : nonneg bincount.

(** The inner loop returns once its fuel exceeds what the sum of the
    window can still grow by: the sum of a window never exceeds the sum
    of the bins from [i] on, and every iteration raises
    [last_window_sum] by at least one. *)
Lemma grow_window_returns (i : nat) :
  forall fuel lws lni j,
    0 < lws ->
    (i + lni < List.length bincount)%nat ->
    Np.sum (skipn i bincount) - lws < Z.of_nat fuel ->
    fuel <> O ->
    exists lni' wsum',
      grow_window fuel bincount i spread lws lni (Np.slice bincount i j)
        (Np.sum (Np.slice bincount i j)) = Done (lni', wsum') /\
      (i + lni' < List.length bincount)%nat.
Proof.
  induction fuel as [|fuel IH]; intros lws lni j Hlws Hlni Hfuel Hne;
    [congruence|].
  simpl. destruct (Z.gtb_spec (Np.sum (Np.slice bincount i j)) lws) as [Hgt|Hle].
  - destruct (last_nonzero_of_window (Np.slice bincount i j)) as (k & -> & Hk);
      [lia|].
    simpl. pose proof (slice_sum_le bincount i j counts_nonneg) as Hsum.
    pose proof (slice_length bincount i j) as Hlen.
    apply IH; lia.
  - eexists. eexists. split; [reflexivity|exact Hlni].
Qed.

Variable bin_edges : list Q.
Hypothesis edges_length : List.length bin_edges = S (List.length bincount).

Local Abbreviation covered := (covered bin_edges).
Local Abbreviation covers_upto := (covers_upto bincount bin_edges).

Lemma covered_app (ls rs : list Q) (l r : Q) (k : nat) :
  covered ls rs k -> covered (ls ++ [l]) (rs ++ [r]) k.
Proof.
  intros (j & a & b & lq & rq & Hl & Hr & Ha & Hb & Hk).
  exists j, a, b, lq, rq. repeat split; try assumption; try lia.
  - rewrite nth_error_app1; [exact Hl|]. apply nth_error_Some. congruence.
  - rewrite nth_error_app1; [exact Hr|]. apply nth_error_Some. congruence.
Qed.

(** The outer loop returns, and every non-empty bin ends up in one of
    its intervals. *)
Lemma scan_bins_returns (gas : nat) :
  Np.sum bincount < Z.of_nat gas ->
  forall fuel i cs ls rs,
    (List.length bincount - i < fuel)%nat ->
    List.length cs = List.length ls ->
    List.length ls = List.length rs ->
    covers_upto i ls rs ->
    exists cs' ls' rs',
      scan_bins fuel gas bincount bin_edges spread i cs ls rs
      = Done (cs', ls', rs') /\
      List.length cs' = List.length ls' /\
      List.length ls' = List.length rs' /\
      covers_upto (List.length bincount) ls' rs'.
Proof.
  intros Hgas.
  induction fuel as [|fuel IH]; intros i cs ls rs Hfuel Hcl Hlr Hcov; [lia|].
  simpl. destruct (Nat.ltb_spec i (List.length bincount)) as [Hi|Hi].
  - rewrite (item_nth bincount i Hi). simpl.
    destruct (Z.eqb_spec (nth i bincount 0) 0) as [Hz|Hnz].
    + apply IH; try assumption; [lia|].
      intros k Hk Hk'. destruct (Nat.eq_dec k i) as [->|Hne]; [contradiction|].
      apply Hcov; [lia|exact Hk'].
    + assert (Hpos : 0 < nth i bincount 0).
      { pose proof (proj1 (Forall_forall _ _) counts_nonneg
                      (nth i bincount 0) (nth_In _ _ Hi)). simpl in *. lia. }
      pose proof (sum_nonneg bincount counts_nonneg) as Hsum.
      pose proof (sum_skipn_le bincount i counts_nonneg) as Hskip.
      destruct (grow_window_returns i gas (nth i bincount 0) 0
                  (i + spread + 1)) as (lni & wsum & -> & Hlni);
        try lia.
      simpl.
      destruct (item_Done_nth_error bin_edges i) as (l & -> & El); [lia|].
      destruct (item_Done_nth_error bin_edges (i + lni + 1)) as (r & -> & Er);
        [lia|].
      simpl. apply IH.
      * lia.
      * rewrite !length_app. simpl. lia.
      * rewrite !length_app. simpl. lia.
      * intros k Hk Hk'. destruct (Nat.lt_ge_cases k i) as [Hlt|Hge].
        -- apply covered_app. apply Hcov; assumption.
        -- exists (List.length ls), i, (i + lni + 1)%nat, l, r.
           repeat split; try assumption; try lia.
           ++ rewrite nth_error_app2 by lia. rewrite Nat.sub_diag. reflexivity.
           ++ rewrite nth_error_app2 by lia.
              replace (List.length ls - List.length rs)%nat with O by lia.
              reflexivity.
  - eexists. eexists. eexists. split; [reflexivity|].
    repeat split; try assumption.
    intros k Hk Hk'. apply Hcov; [lia|exact Hk'].
Qed.

End Scan.

(** ** Index arrays *)

Lemma take_Done {A : Type} (a : list A) (idx : list nat) :
  Forall (fun i => (i < List.length a)%nat) idx ->
  exists xs,
    Np.take a idx = Done xs /\
    List.length xs = List.length idx /\
    forall j i, nth_error idx j = Some i -> nth_error xs j = nth_error a i.
Proof.
  induction 1 as [|i idx Hi _ IH]; simpl.
  - exists []. repeat split. intros [|j] i H; discriminate.
  - destruct IH as (xs & -> & Hlen & Hnth).
    unfold Np.item. destruct (nth_error a i) as [x|] eqn:E.
    + exists (x :: xs). simpl. repeat split; [lia|].
      intros [|j] i' H; simpl in *.
      * injection H as <-. symmetry. exact E.
      * apply Hnth. exact H.
    + apply nth_error_None in E. lia.
Qed.

Lemma take_Done_inv {A : Type} (a : list A) (idx : list nat) (xs : list A) :
  Np.take a idx = Done xs ->
  Forall (fun i => (i < List.length a)%nat) idx.
Proof.
  revert xs. induction idx as [|i idx IH]; intros xs H; [constructor|].
  simpl in H. unfold Np.item in H.
  destruct (nth_error a i) as [x|] eqn:E; [|discriminate]. simpl in H.
  destruct (Np.take a idx) as [ys| |]; try discriminate.
  constructor; [|apply (IH ys); reflexivity].
  apply nth_error_Some. congruence.
Qed.

Lemma In_nth_error_exists {A : Type} (a : list A) (x : A) :
  In x a -> exists j, nth_error a j = Some x.
Proof. apply In_nth_error. Qed.

(** With [spread = 0] every non-empty bin is an interval of its own. *)
Lemma bincount_intervals_return (bincount : list Z) (bin_edges : list Q) :
  List.length bin_edges = S (List.length bincount) ->
  exists cs ls rs,
    (cs' <- Np.take bincount (Np.nonzero bincount) ;;
     ls' <- Np.take bin_edges (Np.nonzero bincount) ;;
     rs' <- Np.take bin_edges (map (fun k => k + 1)%nat (Np.nonzero bincount)) ;;
     Done (cs', ls', rs')) = Done (cs, ls, rs) /\
    List.length cs = List.length ls /\
    List.length ls = List.length rs /\
    covers_upto bincount bin_edges (List.length bincount) ls rs.
Proof.
  intros Hlen.
  assert (Hb : Forall (fun i => (i < List.length bincount)%nat)
                 (Np.nonzero bincount)).
  { apply Forall_forall. intros k Hk. apply nonzero_from_bounds in Hk. lia. }
  destruct (take_Done bincount _ Hb) as (cs & -> & Hcs & _).
  destruct (take_Done bin_edges (Np.nonzero bincount)) as (ls & -> & Hls & Hl).
  { eapply Forall_impl; [|exact Hb]. simpl. intros; lia. }
  destruct (take_Done bin_edges (map (fun k => k + 1)%nat (Np.nonzero bincount)))
    as (rs & -> & Hrs & Hr).
  { apply Forall_map. eapply Forall_impl; [|exact Hb]. simpl. intros; lia. }
  exists cs, ls, rs. split; [reflexivity|].
  rewrite length_map in Hrs. repeat split; try lia.
  intros k Hk Hnz.
  pose proof (nonzero_from_complete bincount 0 k Hk Hnz) as Hin.
  destruct (In_nth_error _ _ Hin) as [j Hj]. simpl in Hj.
  fold (Np.nonzero bincount) in Hj.
  destruct (nth_error bin_edges k) as [lq|] eqn:El;
    [|apply nth_error_None in El; lia].
  destruct (nth_error bin_edges (k + 1)) as [rq|] eqn:Er;
    [|apply nth_error_None in Er; lia].
  exists j, k, (k + 1)%nat, lq, rq. repeat split; try assumption; try lia.
  - rewrite (Hl j k Hj). exact El.
  - rewrite (Hr j (k + 1)%nat); [exact Er|].
    rewrite nth_error_map, Hj. reflexivity.
Qed.

(** ** The binned spike train *)

Lemma rows_Done t0 t1 w n (l : list pyobj) (m : list (list Z)) :
  BinnedSpikeTrain.rows t0 t1 w n l = Done m ->
  Forall (fun r => exists ts, r = BinnedSpikeTrain.row t0 t1 w n ts) m.
Proof.
  revert m. induction l as [|o l IH]; intros m H; simpl in H.
  - injection H as <-. constructor.
  - destruct o as [st|]; [|discriminate].
    destruct (BinnedSpikeTrain.rows t0 t1 w n l) as [rs| |]; try discriminate.
    simpl in H. injection H as <-. constructor; [eexists; reflexivity|].
    apply IH. reflexivity.
Qed.

Lemma row_entry_nonneg t0 t1 w n ts k :
  0 <= nth k (BinnedSpikeTrain.row t0 t1 w n ts) 0.
Proof.
  destruct (nth_in_or_default k (BinnedSpikeTrain.row t0 t1 w n ts) 0)
    as [Hin|E]; [|rewrite E; lia].
  unfold BinnedSpikeTrain.row in Hin at 2. apply in_map_iff in Hin.
  destruct Hin as (j & E & _). rewrite <- E. lia.
Qed.

Lemma column_sums_nonneg (spiketrains : list pyobj) (w : Q)
  (bst : BinnedSpikeTrain.t) :
  BinnedSpikeTrain.init spiketrains w = Done bst ->
  nonneg (BinnedSpikeTrain.column_sums bst).
Proof.
  unfold BinnedSpikeTrain.init.
  destruct spiketrains as [|[st|] l]; try discriminate.
  cbn [get_t_start get_t_stop bind].
  destruct (Qlt_le_dec (t_stop st) (t_start st)); [discriminate|].
  destruct (BinnedSpikeTrain.rows _ _ _ _ _) as [m| |] eqn:E;
    cbn [bind]; try discriminate.
  intros H. injection H as <-.
  unfold BinnedSpikeTrain.column_sums, nonneg.
  cbn [BinnedSpikeTrain.matrix BinnedSpikeTrain.num_bins].
  apply Forall_map. apply Forall_forall. intros k _.
  apply sum_nonneg. apply Forall_map.
  eapply Forall_impl; [|exact (rows_Done _ _ _ _ _ _ E)].
  cbv beta. intros r [ts ->]. apply row_entry_nonneg.
Qed.

Lemma column_sums_length (bst : BinnedSpikeTrain.t) :
  List.length (BinnedSpikeTrain.column_sums bst) = BinnedSpikeTrain.num_bins bst.
Proof.
  unfold BinnedSpikeTrain.column_sums. rewrite length_map, length_seq. reflexivity.
Qed.

Lemma bin_edges_length (bst : BinnedSpikeTrain.t) :
  List.length (BinnedSpikeTrain.bin_edges bst)
  = S (BinnedSpikeTrain.num_bins bst).
Proof.
  unfold BinnedSpikeTrain.bin_edges. rewrite length_map, length_seq. reflexivity.
Qed.

(** ** Termination *)

Lemma terminates_bind {A B : Type} (m : outcome A) (k : A -> outcome B) :
  terminates m -> (forall a, m = Done a -> terminates (k a)) ->
  terminates (bind m k).
Proof.
  intros Hm Hk. destruct m as [a|e|]; simpl.
  - apply Hk. reflexivity.
  - discriminate.
  - exfalso. apply Hm. reflexivity.
Qed.

Lemma terminates_item {A : Type} (a : list A) i : terminates (Np.item a i).
Proof. unfold Np.item. destruct (nth_error a i); discriminate. Qed.

Lemma terminates_take {A : Type} (a : list A) idx : terminates (Np.take a idx).
Proof.
  induction idx as [|i idx IH]; simpl; [discriminate|].
  apply terminates_bind; [apply terminates_item|intros x _].
  apply terminates_bind; [exact IH|intros xs _]. discriminate.
Qed.

Lemma terminates_rows t0 t1 w n l : terminates (BinnedSpikeTrain.rows t0 t1 w n l).
Proof.
  induction l as [|o l IH]; simpl; [discriminate|].
  destruct o; [|discriminate].
  apply terminates_bind; [exact IH|intros; discriminate].
Qed.

Lemma terminates_init l w : terminates (BinnedSpikeTrain.init l w).
Proof.
  unfold BinnedSpikeTrain.init. destruct l as [|o l]; [discriminate|].
  destruct o as [st|]; cbn [get_t_start get_t_stop bind]; [|discriminate].
  destruct (Qlt_le_dec (t_stop st) (t_start st)); [discriminate|].
  apply terminates_bind; [apply terminates_rows|intros; discriminate].
Qed.

Lemma terminates_all_t_start l : terminates (all_t_start l).
Proof.
  induction l as [|o l IH]; simpl; [discriminate|].
  destruct o; simpl; [|discriminate].
  apply terminates_bind; [exact IH|intros; discriminate].
Qed.

Lemma terminates_check l a b :
  terminates (_check_consistency_of_spiketrainlist l a b).
Proof.
  unfold _check_consistency_of_spiketrainlist.
  destruct (List.length l =? 0)%nat; [discriminate|apply check_each_terminates].
Qed.

(** The statements of [precise_complexity_intervals] after the intervals
    have been found have no loop. *)
Lemma terminates_epoch (spiketrains : list pyobj) (rate : Q)
  (found : list Z * list Q * list Q) :
  terminates
    ((fun ' (complexities, left_edges, right_edges) =>
        let bin_shift := ((1 # 2) / rate)%Q in
        let left_edges := map (fun e => e - bin_shift)%Q left_edges in
        let right_edges := map (fun e => e - bin_shift)%Q right_edges in
        starts <- all_t_start spiketrains ;;
        min_t_start <- py_min starts ;;
        left_edges <- set_first left_edges (Qmin min_t_start) ;;
        Done (mkEpoch left_edges (zip_with Qminus right_edges left_edges)
                complexities)) found).
Proof.
  destruct found as [[cs ls] rs]. cbv beta iota zeta.
  apply terminates_bind; [apply terminates_all_t_start|intros starts _].
  apply terminates_bind.
  { unfold py_min. destruct starts; discriminate. }
  intros m _. apply terminates_bind; [|intros; discriminate].
  unfold set_first. destruct (map _ ls); discriminate.
Qed.

Lemma raw_intervals_returns (a : list Z) (bin_edges : list Q) (spread : nat) :
  nonneg a ->
  List.length bin_edges = S (List.length a) ->
  forall fuel : nat,
    (List.length a + Z.to_nat (Np.sum a) < fuel)%nat ->
    exists cs ls rs,
      raw_intervals fuel (Np.Arr1 a) bin_edges spread = Done (cs, ls, rs) /\
      List.length cs = List.length ls /\
      List.length ls = List.length rs /\
      covers_upto a bin_edges (List.length a) ls rs.
Proof.
  intros Hnn Hlen fuel Hfuel. unfold raw_intervals.
  destruct (spread =? 0)%nat.
  - apply bincount_intervals_return. exact Hlen.
  - pose proof (sum_nonneg a Hnn).
    apply scan_bins_returns; try assumption; try reflexivity; try lia.
    intros k Hk. lia.
Qed.

Lemma squeeze_Arr1 (row a : list Z) : Np.squeeze row = Np.Arr1 a -> a = row.
Proof.
  destruct row as [|x [|y row]]; simpl; intros H; try discriminate;
    injection H as <-; reflexivity.
Qed.

Lemma precise_complexity_intervals_terminates (spiketrains : list pyobj)
  (rate : Q) (spread : nat) :
  exists fuel0 : nat, forall fuel : nat,
    (fuel0 <= fuel)%nat ->
    terminates (precise_complexity_intervals fuel spiketrains rate spread).
Proof.
  unfold precise_complexity_intervals.
  pose proof (terminates_check spiketrains None None) as Hcheck.
  destruct (_check_consistency_of_spiketrainlist spiketrains None None)
    as [[]|e|]; cbn [bind]; [|exists O; discriminate|contradiction Hcheck; reflexivity].
  pose proof (terminates_init spiketrains (1 / rate)) as Hinit.
  pose proof (column_sums_nonneg spiketrains (1 / rate)) as Hnn.
  destruct (BinnedSpikeTrain.init spiketrains (1 / rate)) as [bst|e|];
    cbn [bind]; [|exists O; discriminate|contradiction Hinit; reflexivity].
  specialize (Hnn bst eq_refl).
  destruct (Np.squeeze (BinnedSpikeTrain.column_sums bst)) as [v|a] eqn:Esq.
  - exists O. intros fuel _. unfold raw_intervals.
    destruct (spread =? 0)%nat; discriminate.
  - apply squeeze_Arr1 in Esq. subst a.
    exists (S (List.length (BinnedSpikeTrain.column_sums bst)
               + Z.to_nat (Np.sum (BinnedSpikeTrain.column_sums bst)))).
    intros fuel Hfuel.
    destruct (raw_intervals_returns (BinnedSpikeTrain.column_sums bst)
                (BinnedSpikeTrain.bin_edges bst) spread Hnn) with (fuel := fuel)
      as (cs & ls & rs & -> & _).
    { rewrite bin_edges_length, column_sums_length. reflexivity. }
    { lia. }
    apply (terminates_epoch spiketrains rate (cs, ls, rs)).
Qed.

(** C3.  The loops of the interval builder end, for every array of
    non-negative bin counts and every spread.  The inner loop leaves at
    once when the sum of the new window does not exceed the sum of the
    previous one; started on a non-empty bin it returns within as many
    iterations as there are spikes; the scan over the bins returns once
    the fuel exceeds the number of bins plus the number of spikes; and
    [precise_complexity_intervals] ends, by returning or by raising, on
    every input. *)
Theorem complexity_loops_terminate :
  (forall fuel bincount i spread lws lni window wsum,
      wsum <= lws ->
      grow_window (S fuel) bincount i spread lws lni window wsum
      = Done (lni, wsum))
  /\
  (forall bincount spread i fuel,
      nonneg bincount ->
      (i < List.length bincount)%nat ->
      nth i bincount 0 <> 0 ->
      (Z.to_nat (Np.sum bincount) < fuel)%nat ->
      returns (grow_window fuel bincount i spread (nth i bincount 0) 0
                 (Np.slice bincount i (i + spread + 1))
                 (Np.sum (Np.slice bincount i (i + spread + 1)))))
  /\
  (forall bincount bin_edges spread fuel,
      nonneg bincount ->
      List.length bin_edges = S (List.length bincount) ->
      (List.length bincount + Z.to_nat (Np.sum bincount) < fuel)%nat ->
      returns (scan_bins fuel fuel bincount bin_edges spread 0 [] [] []))
  /\
  (forall spiketrains rate spread,
      exists fuel0 : nat, forall fuel : nat,
        (fuel0 <= fuel)%nat ->
        terminates (precise_complexity_intervals fuel spiketrains rate spread)).
Proof.
  split; [|split; [|split]].
  - intros fuel bincount i spread lws lni window wsum Hle. simpl.
    destruct (Z.gtb_spec wsum lws); [lia|reflexivity].
  - intros bincount spread i fuel Hnn Hi Hnz Hfuel.
    assert (Hpos : 0 < nth i bincount 0).
    { pose proof (proj1 (Forall_forall _ _) Hnn (nth i bincount 0)
                    (nth_In _ _ Hi)). simpl in *. lia. }
    pose proof (sum_nonneg bincount Hnn).
    pose proof (sum_skipn_le bincount i Hnn).
    destruct (grow_window_returns bincount spread Hnn i fuel (nth i bincount 0)
                0 (i + spread + 1)) as (lni & wsum & E & _); try lia.
    exists (lni, wsum). exact E.
  - intros bincount bin_edges spread fuel Hnn Hlen Hfuel.
    pose proof (sum_nonneg bincount Hnn).
    destruct (scan_bins_returns bincount spread Hnn bin_edges Hlen fuel)
      with (fuel := fuel) (i := O) (cs := @nil Z) (ls := @nil Q) (rs := @nil Q)
      as (cs & ls & rs & E & _); try reflexivity; try lia.
    { intros k Hk. lia. }
    exists (cs, ls, rs). exact E.
  - apply precise_complexity_intervals_terminates.
Qed.

Lemma complexity_loops_terminate_witness :
  returns (scan_bins 20 20 [0; 2; 0; 0; 1; 1; 1; 0; 1; 0]
             [0; 1; 2; 3; 4; 5; 6; 7; 8; 9; 10]%Q 2 0 [] [] []).
Proof.
  apply (proj1 (proj2 (proj2 complexity_loops_terminate))
           [0; 2; 0; 0; 1; 1; 1; 0; 1; 0]
           [0; 1; 2; 3; 4; 5; 6; 7; 8; 9; 10]%Q 2%nat 20%nat).
  - repeat constructor; lia.
  - reflexivity.
  - simpl. lia.
Defined.

(** ** Every non-empty bin lies in an interval *)

(** The intervals do not depend on the fuel, so what holds of them with
    enough fuel holds whenever they are returned. *)
Lemma raw_intervals_Done_covers (a : list Z) (bin_edges : list Q)
  (spread fuel : nat) (cs : list Z) (ls rs : list Q) :
  nonneg a ->
  List.length bin_edges = S (List.length a) ->
  raw_intervals fuel (Np.Arr1 a) bin_edges spread = Done (cs, ls, rs) ->
  List.length cs = List.length ls /\
  List.length ls = List.length rs /\
  covers_upto a bin_edges (List.length a) ls rs.
Proof.
  intros Hnn Hlen Hrun.
  set (big := S (List.length a + Z.to_nat (Np.sum a))).
  destruct (raw_intervals_returns a bin_edges spread Hnn Hlen big)
    as (cs' & ls' & rs' & Hbig & Hres); [unfold big; lia|].
  assert (E : raw_intervals (fuel + big) (Np.Arr1 a) bin_edges spread
              = Done (cs, ls, rs)).
  { rewrite raw_intervals_more_fuel; [exact Hrun|]. rewrite Hrun. discriminate. }
  assert (E' : raw_intervals (big + fuel) (Np.Arr1 a) bin_edges spread
               = Done (cs', ls', rs')).
  { rewrite raw_intervals_more_fuel; [exact Hbig|]. rewrite Hbig. discriminate. }
  rewrite Nat.add_comm, E in E'. injection E' as <- <- <-. exact Hres.
Qed.

Lemma sum_ge_member (a : list Z) (x : Z) : nonneg a -> In x a -> x <= Np.sum a.
Proof.
  induction 1 as [|y a Hy Ha IH]; simpl; [contradiction|].
  pose proof (sum_nonneg a Ha). intros [->|Hin]; [lia|].
  specialize (IH Hin). lia.
Qed.

Lemma rows_Done_each t0 t1 w n (l : list pyobj) (m : list (list Z)) :
  BinnedSpikeTrain.rows t0 t1 w n l = Done m ->
  forall st, In (Neo st) l ->
    In (BinnedSpikeTrain.row t0 t1 w n (times st)) m.
Proof.
  revert m. induction l as [|o l IH]; intros m H st Hin; [contradiction|].
  simpl in H. destruct o as [st'|]; [|discriminate].
  destruct (BinnedSpikeTrain.rows t0 t1 w n l) as [rs| |]; try discriminate.
  simpl in H. injection H as <-.
  destruct Hin as [E|Hin].
  - injection E as ->. left. reflexivity.
  - right. apply (IH rs eq_refl). exact Hin.
Qed.

Lemma Qfloor_le_self_div (d w : Q) (n : nat) :
  (0 < w)%Q -> (n <= Z.to_nat (Qfloor (d / w)))%nat -> (n <> 0)%nat ->
  (inject_Z (Z.of_nat n) * w <= d)%Q.
Proof.
  intros Hw Hn Hn0.
  assert (H1 : (inject_Z (Z.of_nat n) <= d / w)%Q).
  { apply Qle_trans with (inject_Z (Qfloor (d / w))); [|apply Qfloor_le].
    rewrite <- Zle_Qle. lia. }
  apply Qle_trans with (d / w * w)%Q.
  - apply Qmult_le_compat_r; [exact H1|apply Qlt_le_weak; exact Hw].
  - apply Qle_lteq. right. field. intros E. rewrite E in Hw.
    exact (Qlt_irrefl 0 Hw).
Qed.

Lemma nth_map_seq {A : Type} (f : nat -> A) (n k : nat) (d : A) :
  (k < n)%nat -> nth k (map f (seq 0 n)) d = f k.
Proof.
  intros Hk. rewrite (nth_indep _ d (f O)) by (rewrite length_map, length_seq; exact Hk).
  rewrite map_nth, seq_nth by exact Hk. reflexivity.
Qed.

Lemma Qlt_nonzero (w : Q) : (0 < w)%Q -> ~ (w == 0)%Q.
Proof. intros Hw E. rewrite E in Hw. exact (Qlt_irrefl 0 Hw). Qed.

(** A spike at the left edge of bin [k] is counted in bin [k]. *)
Lemma in_bin_at_start (t0 t1 w x : Q) (k : nat) :
  (0 < w)%Q ->
  at_bin_start t0 w (Z.to_nat (Qfloor ((t1 - t0) / w))) x k ->
  BinnedSpikeTrain.in_bin t0 t1 w (Z.to_nat (Qfloor ((t1 - t0) / w))) k x = true.
Proof.
  intros Hw [Hk Hx]. unfold BinnedSpikeTrain.in_bin.
  assert (Hk0 : (0 <= inject_Z (Z.of_nat k) * w)%Q).
  { apply Qmult_le_0_compat; [|apply Qlt_le_weak; exact Hw].
    change 0%Q with (inject_Z 0). rewrite <- Zle_Qle. lia. }
  assert (H1 : Qle_bool t0 x = true).
  { apply Qle_bool_iff. rewrite Hx.
    rewrite <- (Qplus_0_r t0) at 1. apply Qplus_le_r. exact Hk0. }
  assert (H2 : Qle_bool x t1 = true).
  { apply Qle_bool_iff. rewrite Hx.
    pose proof (Qfloor_le_self_div (t1 - t0) w (S k) Hw ltac:(lia) ltac:(lia)) as H.
    apply Qle_trans with (t0 + inject_Z (Z.of_nat (S k)) * w)%Q.
    - apply Qplus_le_r. apply Qmult_le_compat_r; [|apply Qlt_le_weak; exact Hw].
      rewrite <- Zle_Qle. lia.
    - apply Qle_trans with (t0 + (t1 - t0))%Q.
      + apply Qplus_le_r. exact H.
      + apply Qle_lteq. right. ring. }
  assert (H3 : BinnedSpikeTrain.bin_index t0 w x = Z.of_nat k).
  { unfold BinnedSpikeTrain.bin_index.
    assert (E : ((x - t0) / w == inject_Z (Z.of_nat k))%Q).
    { rewrite Hx. field. apply Qlt_nonzero. exact Hw. }
    rewrite E. apply Qfloor_Z. }
  rewrite H1, H2, H3, Z.eqb_refl. simpl.
  apply Nat.ltb_lt. exact Hk.
Qed.

Lemma row_entry_positive (t0 t1 w : Q) (n k : nat) (ts : list Q) (x : Q) :
  (k < n)%nat -> In x ts ->
  BinnedSpikeTrain.in_bin t0 t1 w n k x = true ->
  0 < nth k (BinnedSpikeTrain.row t0 t1 w n ts) 0.
Proof.
  intros Hk Hin Hbin. unfold BinnedSpikeTrain.row.
  rewrite nth_map_seq by exact Hk.
  assert (H : In x (filter (BinnedSpikeTrain.in_bin t0 t1 w n k) ts)).
  { apply filter_In. split; assumption. }
  destruct (filter (BinnedSpikeTrain.in_bin t0 t1 w n k) ts);
    [contradiction|simpl; lia].
Qed.

Lemma init_Done_inv (spiketrains : list pyobj) (w : Q) (bst : BinnedSpikeTrain.t) :
  BinnedSpikeTrain.init spiketrains w = Done bst ->
  exists first rest m,
    spiketrains = Neo first :: rest /\
    (t_start first <= t_stop first)%Q /\
    BinnedSpikeTrain.rows (t_start first) (t_stop first) w
      (Z.to_nat (Qfloor ((t_stop first - t_start first) / w))) spiketrains
    = Done m /\
    bst = BinnedSpikeTrain.mk (t_start first) w
            (Z.to_nat (Qfloor ((t_stop first - t_start first) / w))) m.
Proof.
  unfold BinnedSpikeTrain.init.
  destruct spiketrains as [|[first|] rest]; try discriminate.
  cbn [get_t_start get_t_stop bind].
  destruct (Qlt_le_dec (t_stop first) (t_start first)) as [|Hle]; [discriminate|].
  destruct (BinnedSpikeTrain.rows _ _ _ _ _) as [m| |] eqn:E;
    cbn [bind]; try discriminate.
  intros H. injection H as <-.
  exists first, rest, m. repeat split; assumption.
Qed.

(** The bin of a spike at a left edge is not empty. *)
Lemma bincount_positive_at_spike (spiketrains : list pyobj) (w : Q)
  (bst : BinnedSpikeTrain.t) (st : SpikeTrain) (x : Q) (k : nat) :
  BinnedSpikeTrain.init spiketrains w = Done bst ->
  (0 < w)%Q ->
  In (Neo st) spiketrains -> In x (times st) ->
  at_bin_start (BinnedSpikeTrain.start bst) w (BinnedSpikeTrain.num_bins bst) x k ->
  0 < nth k (BinnedSpikeTrain.column_sums bst) 0.
Proof.
  intros Hinit Hw Hst Hx Hgrid.
  pose proof (column_sums_nonneg _ _ _ Hinit) as Hnn.
  destruct (init_Done_inv _ _ _ Hinit) as (first & rest & m & -> & Hle & Hrows & ->).
  cbn [BinnedSpikeTrain.start BinnedSpikeTrain.num_bins] in Hgrid.
  pose proof (in_bin_at_start _ _ _ _ _ Hw Hgrid) as Hbin.
  destruct Hgrid as [Hk _].
  unfold BinnedSpikeTrain.column_sums.
  cbn [BinnedSpikeTrain.matrix BinnedSpikeTrain.num_bins].
  rewrite nth_map_seq by exact Hk.
  pose proof (rows_Done_each _ _ _ _ _ _ Hrows st Hst) as Hrow.
  apply Z.lt_le_trans with
    (nth k (BinnedSpikeTrain.row (t_start first) (t_stop first) w
              (Z.to_nat (Qfloor ((t_stop first - t_start first) / w)))
              (times st)) 0).
  - apply row_entry_positive with (x := x); assumption.
  - apply sum_ge_member.
    + apply Forall_map.
      eapply Forall_impl; [|exact (rows_Done _ _ _ _ _ _ Hrows)].
      cbv beta. intros r [ts ->]. apply row_entry_nonneg.
    + apply in_map_iff. eexists. split; [reflexivity|exact Hrow].
Qed.

(** ** Every spike lies in an interval of the epoch *)

Lemma bin_edges_nth (bst : BinnedSpikeTrain.t) (l : nat) (q : Q) :
  nth_error (BinnedSpikeTrain.bin_edges bst) l = Some q ->
  q = (BinnedSpikeTrain.start bst
       + inject_Z (Z.of_nat l) * BinnedSpikeTrain.binsize bst)%Q.
Proof.
  unfold BinnedSpikeTrain.bin_edges. rewrite nth_error_map.
  destruct (nth_error (seq 0 (S (BinnedSpikeTrain.num_bins bst))) l) as [k|] eqn:E;
    [|discriminate].
  simpl. intros H. injection H as <-.
  pose proof (nth_error_nth _ _ O E) as Hk.
  assert (Hl : nth_error (seq 0 (S (BinnedSpikeTrain.num_bins bst))) l <> None)
    by congruence.
  apply nth_error_Some in Hl. rewrite length_seq in Hl.
  rewrite seq_nth in Hk by exact Hl. simpl in Hk. subst k. reflexivity.
Qed.

Lemma set_first_Done (a a' : list Q) (f : Q -> Q) :
  set_first a f = Done a' ->
  (forall x, (f x <= x)%Q) ->
  List.length a' = List.length a /\
  forall j x, nth_error a j = Some x ->
    exists x', nth_error a' j = Some x' /\ (x' <= x)%Q.
Proof.
  unfold set_first. destruct a as [|x0 r]; [discriminate|].
  intros H Hf. injection H as <-. split; [reflexivity|].
  intros [|j] x Hx; simpl in *.
  - injection Hx as <-. eexists. split; [reflexivity|apply Hf].
  - exists x. split; [exact Hx|apply Qle_refl].
Qed.

Lemma zip_with_nth_error {A B C : Type} (f : A -> B -> C) (a : list A)
  (b : list B) (j : nat) (x : A) (y : B) :
  nth_error a j = Some x -> nth_error b j = Some y ->
  nth_error (zip_with f a b) j = Some (f x y).
Proof.
  revert b j. induction a as [|x' a IH]; intros [|y' b] [|j] Hx Hy;
    simpl in *; try discriminate.
  - injection Hx as <-. injection Hy as <-. reflexivity.
  - apply IH; assumption.
Qed.

Lemma zip_with_length {A B C : Type} (f : A -> B -> C) (a : list A) (b : list B) :
  List.length a = List.length b ->
  List.length (zip_with f a b) = List.length a.
Proof.
  revert b. induction a as [|x a IH]; intros [|y b] H; simpl in *;
    try discriminate; [reflexivity|].
  rewrite IH; [reflexivity|lia].
Qed.

(** What [precise_complexity_intervals] went through when it returns. *)
Lemma precise_complexity_intervals_Done_inv (fuel : nat)
  (spiketrains : list pyobj) (rate : Q) (spread : nat) (ep : Epoch) :
  precise_complexity_intervals fuel spiketrains rate spread = Done ep ->
  exists bst cs ls rs starts times,
    _check_consistency_of_spiketrainlist spiketrains None None = Done tt /\
    BinnedSpikeTrain.init spiketrains (1 / rate) = Done bst /\
    raw_intervals fuel (Np.Arr1 (BinnedSpikeTrain.column_sums bst))
      (BinnedSpikeTrain.bin_edges bst) spread = Done (cs, ls, rs) /\
    all_t_start spiketrains = Done starts /\
    set_first (map (fun e => e - (1 # 2) / rate)%Q ls)
      (Qmin (match starts with [] => 0%Q | x :: r => py_min_from x r end))
    = Done times /\
    ep = mkEpoch times
           (zip_with Qminus (map (fun e => e - (1 # 2) / rate)%Q rs) times) cs.
Proof.
  unfold precise_complexity_intervals. intros H.
  destruct (_check_consistency_of_spiketrainlist spiketrains None None)
    as [[]| |] eqn:Echeck; try discriminate. cbn [bind] in H.
  destruct (BinnedSpikeTrain.init spiketrains (1 / rate)) as [bst| |] eqn:Einit;
    try discriminate. cbn [bind] in H.
  destruct (Np.squeeze (BinnedSpikeTrain.column_sums bst)) as [v|a] eqn:Esq.
  { unfold raw_intervals in H. destruct (spread =? 0)%nat; discriminate. }
  apply squeeze_Arr1 in Esq. subst a.
  destruct (raw_intervals fuel _ _ spread) as [[[cs ls] rs]| |] eqn:Eraw;
    try discriminate. cbn [bind] in H.
  destruct (all_t_start spiketrains) as [starts| |] eqn:Estarts;
    try discriminate.
  cbn [bind] in H.
  destruct starts as [|s0 starts]; [discriminate|]. cbn [py_min bind] in H.
  destruct (set_first _ _) as [times| |] eqn:Eset; try discriminate.
  cbn [bind] in H. injection H as <-.
  exists bst, cs, ls, rs, (s0 :: starts), times.
  repeat split; try reflexivity; assumption.
Qed.

Lemma scaled_le (a b : nat) (w : Q) :
  (0 < w)%Q -> (a <= b)%nat ->
  (inject_Z (Z.of_nat a) * w <= inject_Z (Z.of_nat b) * w)%Q.
Proof.
  intros Hw Hab. apply Qmult_le_compat_r; [|apply Qlt_le_weak; exact Hw].
  rewrite <- Zle_Qle. lia.
Qed.

Lemma scaled_succ (a : nat) (w : Q) :
  (inject_Z (Z.of_nat (S a)) * w == inject_Z (Z.of_nat a) * w + w)%Q.
Proof. rewrite Nat2Z.inj_succ. unfold Z.succ. rewrite inject_Z_plus. ring. Qed.

Lemma precise_complexity_intervals_lengths (fuel : nat)
  (spiketrains : list pyobj) (rate : Q) (spread : nat) (ep : Epoch) :
  precise_complexity_intervals fuel spiketrains rate spread = Done ep ->
  List.length (ep_durations ep) = List.length (ep_times ep) /\
  List.length (ep_complexity ep) = List.length (ep_times ep).
Proof.
  intros Hrun.
  destruct (precise_complexity_intervals_Done_inv _ _ _ _ _ Hrun)
    as (bst & cs & ls & rs & starts & times & _ & Hinit & Hraw & _ & Hset & ->).
  destruct (raw_intervals_Done_covers _ _ _ _ _ _ _
              (column_sums_nonneg _ _ _ Hinit)
              ltac:(rewrite bin_edges_length, column_sums_length; reflexivity)
              Hraw) as (Hcl & Hlr & _).
  destruct (set_first_Done _ _ _ Hset (Q.le_min_r _)) as [Hlen _].
  rewrite length_map in Hlen. cbn [ep_durations ep_times ep_complexity].
  split; [|lia].
  rewrite zip_with_length; rewrite length_map; lia.
Qed.

(** A spike at the left edge of a bin lies in an interval of the epoch,
    strictly below its right edge. *)
Lemma spike_in_interval (fuel : nat) (spiketrains : list pyobj) (rate : Q)
  (spread : nat) (ep : Epoch) (st : SpikeTrain) (x : Q) :
  precise_complexity_intervals fuel spiketrains rate spread = Done ep ->
  (0 < rate)%Q ->
  In (Neo st) spiketrains -> In x (times st) ->
  on_bin_grid (axis_start spiketrains) (1 / rate) (axis_bins spiketrains rate) x ->
  exists j, in_interval ep j x.
Proof.
  intros Hrun Hrate Hst Hx [k Hgrid].
  destruct (precise_complexity_intervals_Done_inv _ _ _ _ _ Hrun)
    as (bst & cs & ls & rs & starts & times & _ & Hinit & Hraw & _ & Hset & ->).
  assert (Hw : (0 < 1 / rate)%Q).
  { apply Qlt_shift_div_l; [exact Hrate|]. rewrite Qmult_0_l. reflexivity. }
  pose proof (column_sums_nonneg _ _ _ Hinit) as Hnn.
  destruct (raw_intervals_Done_covers _ _ _ _ _ _ _ Hnn
              ltac:(rewrite bin_edges_length, column_sums_length; reflexivity)
              Hraw) as (Hcl & Hlr & Hcov).
  destruct (init_Done_inv _ _ _ Hinit) as (first & rest & m & Hsts & _ & _ & Hbst).
  assert (Hgrid' : at_bin_start (BinnedSpikeTrain.start bst) (1 / rate)
                     (BinnedSpikeTrain.num_bins bst) x k).
  { subst spiketrains bst. exact Hgrid. }
  pose proof (bincount_positive_at_spike _ _ _ _ _ _ Hinit Hw Hst Hx Hgrid') as Hpos.
  destruct Hgrid' as [Hk Hxk].
  destruct (Hcov k) as (j & l & r & lq & rq & Hl & Hr & El & Er & Hlk);
    [rewrite column_sums_length; exact Hk|lia|].
  apply bin_edges_nth in El. apply bin_edges_nth in Er.
  assert (Hsize : BinnedSpikeTrain.binsize bst = (1 / rate)%Q)
    by (subst bst; reflexivity).
  rewrite Hsize in El, Er.
  destruct (set_first_Done _ _ _ Hset (Q.le_min_r _)) as [Hlen Hfirst].
  destruct (Hfirst j (lq - (1 # 2) / rate)%Q) as (l' & Hl' & Hle).
  { rewrite nth_error_map, Hl. reflexivity. }
  destruct (nth_error cs j) as [c|] eqn:Ec;
    [|apply nth_error_None in Ec;
      assert (j < List.length ls)%nat by (apply nth_error_Some; congruence); lia].
  exists j, l', ((rq - (1 # 2) / rate) - l')%Q, c.
  cbn [ep_times ep_durations ep_complexity].
  split; [exact Hl'|]. split.
  { apply zip_with_nth_error; [|exact Hl'].
    rewrite nth_error_map, Hr. reflexivity. }
  split; [exact Ec|].
  assert (Hhalf : ((1 # 2) / rate + (1 # 2) / rate == 1 / rate)%Q).
  { field. apply Qlt_nonzero. exact Hrate. }
  pose proof (scaled_le l k (1 / rate) Hw ltac:(lia)) as H1.
  pose proof (scaled_le (S k) r (1 / rate) Hw ltac:(lia)) as H2.
  rewrite scaled_succ in H2.
  subst lq rq. set (sh := ((1 # 2) / rate)%Q) in *.
  set (w := (1 / rate)%Q) in *.
  set (kw := (inject_Z (Z.of_nat k) * w)%Q) in *.
  set (lw := (inject_Z (Z.of_nat l) * w)%Q) in *.
  set (rw := (inject_Z (Z.of_nat r) * w)%Q) in *.
  split; Lqa.lra.
Qed.

(** ** Annotation and deletion *)

Lemma searchsorted_le (a : list Q) (v : Q) :
  forall j e, nth_error a j = Some e -> (v <= e)%Q ->
    (Np.searchsorted a v <= j)%nat.
Proof.
  induction a as [|x a IH]; intros [|j] e Hj Hv; simpl in *; try discriminate.
  - injection Hj as ->. apply Qle_bool_iff in Hv. rewrite Hv. lia.
  - destruct (Qle_bool v x); [lia|]. specialize (IH j e Hj Hv). lia.
Qed.

(** The index found for a spike inside an interval is in bounds. *)
Lemma searchsorted_in_bounds (ep : Epoch) (j : nat) (x : Q) :
  in_interval ep j x ->
  (Np.searchsorted (right_edges_of ep) x < List.length (ep_complexity ep))%nat.
Proof.
  intros (l & d & c & Hl & Hd & Hc & _ & Hlt).
  assert (Hj : (j < List.length (ep_complexity ep))%nat)
    by (apply nth_error_Some; congruence).
  pose proof (searchsorted_le (right_edges_of ep) x j (l + d)%Q
                (zip_with_nth_error Qplus _ _ _ _ _ Hl Hd)
                (Qlt_le_weak _ _ Hlt)).
  lia.
Qed.

Lemma take_nth (a : list Z) (idx : list nat) :
  Forall (fun i => (i < List.length a)%nat) idx ->
  Np.take a idx = Done (map (fun i => nth i a 0) idx).
Proof.
  induction 1 as [|i idx Hi _ IH]; simpl; [reflexivity|].
  rewrite (item_nth a i Hi), IH. reflexivity.
Qed.

Lemma compress_surviving (p : Z -> bool) (ts : list Q) :
  forall cs, List.length cs = List.length ts ->
    Np.compress (map p cs) ts
    = map fst (filter (fun q => p (snd q)) (combine ts cs)).
Proof.
  induction ts as [|x ts IH]; intros [|c cs] H; simpl in *; try discriminate;
    try reflexivity.
  rewrite IH by lia. destruct (p c); reflexivity.
Qed.

Lemma compress_filter (p : Z -> bool) (cs : list Z) :
  Np.compress (map p cs) cs = filter p cs.
Proof.
  induction cs as [|c cs IH]; simpl; [reflexivity|].
  rewrite IH. destruct (p c); reflexivity.
Qed.

Lemma mask_is_kept (invert_delete : bool) (t : Z) (cs : list Z) :
  (if invert_delete then map negb (map (fun c => c <? t) cs)
   else map (fun c => c <? t) cs)
  = map (kept invert_delete t) cs.
Proof.
  unfold kept. destruct invert_delete; [|reflexivity].
  rewrite map_map. reflexivity.
Qed.

(** What the loop body builds from a train whose spikes lie in
    intervals. *)
Lemma complexity_lookup (ep : Epoch) (st : SpikeTrain) :
  (forall x, In x (times st) -> exists j, in_interval ep j x) ->
  Np.take (ep_complexity ep)
    (map (Np.searchsorted (right_edges_of ep)) (times st))
  = Done (event_complexities ep st).
Proof.
  intros Hin. rewrite take_nth.
  - rewrite map_map. reflexivity.
  - apply Forall_map. apply Forall_forall. intros x Hx.
    destruct (Hin x Hx) as [j Hj].
    exact (searchsorted_in_bounds ep j x Hj).
Qed.

Lemma getitem_mask_filtered (ep : Epoch) (invert_delete : bool) (t : Z)
  (st : SpikeTrain) :
  getitem_mask (array_annotate st (event_complexities ep st))
    (if invert_delete
     then map negb (map (fun c => c <? t) (event_complexities ep st))
     else map (fun c => c <? t) (event_complexities ep st))
  = filtered_st ep invert_delete t st.
Proof.
  unfold filtered_st, getitem_mask, array_annotate.
  cbn [times t_start t_stop complexity_annotation option_map st_unit st_segment].
  rewrite mask_is_kept, compress_filter, compress_surviving; [reflexivity|].
  unfold event_complexities. apply length_map.
Qed.

(** *** The memory *)

Lemma set_item_length {A : Type} (a : list A) : forall i v,
  List.length (set_item a i v) = List.length a.
Proof.
  induction a as [|x a IH]; intros [|i] v; simpl; try reflexivity.
  rewrite IH. reflexivity.
Qed.

Lemma set_item_nth_same {A : Type} (a : list A) (d : A) : forall i v,
  (i < List.length a)%nat -> nth i (set_item a i v) d = v.
Proof.
  induction a as [|x a IH]; intros [|i] v H; simpl in *; try lia; try reflexivity.
  apply IH. lia.
Qed.

Lemma set_item_nth_other {A : Type} (a : list A) (d : A) : forall i j v,
  i <> j -> nth j (set_item a i v) d = nth j a d.
Proof.
  induction a as [|x a IH]; intros [|i] [|j] v H; simpl; try reflexivity;
    try congruence.
  apply IH. congruence.
Qed.

Lemma set_item_middle {A : Type} (done : list A) (x v : A) (rest : list A) :
  set_item (done ++ x :: rest) (List.length done) v = done ++ v :: rest.
Proof.
  induction done as [|y done IH]; simpl; [reflexivity|].
  rewrite IH. reflexivity.
Qed.

Lemma deref_Neo_in_heap (m : memory) (ref : nat) (st : SpikeTrain) :
  deref m ref = Neo st -> (ref < List.length (heap m))%nat.
Proof.
  unfold deref. intros H.
  destruct (Nat.lt_ge_cases ref (List.length (heap m))) as [Hlt|Hge];
    [exact Hlt|].
  rewrite nth_overflow in H by exact Hge. discriminate.
Qed.

Lemma deref_store_same (m : memory) (ref : nat) (o : pyobj) :
  (ref < List.length (heap m))%nat -> deref (store m ref o) ref = o.
Proof. intros H. unfold deref, store. simpl. apply set_item_nth_same. exact H. Qed.

Lemma deref_store_other (m : memory) (ref x : nat) (o : pyobj) :
  x <> ref -> deref (store m ref o) x = deref m x.
Proof.
  intros H. unfold deref, store. simpl. apply set_item_nth_other. congruence.
Qed.

Lemma deref_allocate_old (m : memory) (o : pyobj) (x : nat) :
  (x < List.length (heap m))%nat -> deref (snd (allocate m o)) x = deref m x.
Proof. intros H. unfold deref, allocate. simpl. apply app_nth1. exact H. Qed.

Lemma deref_allocate_new (m : memory) (o : pyobj) :
  deref (snd (allocate m o)) (List.length (heap m)) = o.
Proof.
  unfold deref, allocate. simpl. rewrite app_nth2 by lia.
  rewrite Nat.sub_diag. reflexivity.
Qed.

Lemma _get_index_from_found (lst : list nat) (obj : nat) : forall index,
  In obj lst ->
  exists i, _get_index_from index lst obj = Some (index + i)%nat /\
            (i < List.length lst)%nat /\ nth i lst O = obj.
Proof.
  induction lst as [|item rest IH]; intros index Hin; [contradiction|].
  simpl. destruct (Nat.eqb_spec item obj) as [->|Hne].
  - exists O. repeat split; [f_equal; lia|simpl; lia].
  - destruct Hin as [E|Hin]; [congruence|].
    destruct (IH (S index) Hin) as (i & E & Hi & Hn).
    exists (S i). rewrite E. repeat split; [f_equal; lia|simpl; lia|exact Hn].
Qed.

Lemma set_item_In_other {A : Type} (a : list A) (d : A) : forall i v x,
  In x a -> nth i a d <> x -> In x (set_item a i v).
Proof.
  induction a as [|y a IH]; intros [|i] v x Hin Hne; simpl in *;
    try contradiction.
  - destruct Hin as [E|Hin]; [congruence|]. right. exact Hin.
  - destruct Hin as [E|Hin]; [left; exact E|]. right. apply IH; assumption.
Qed.

(** The patch of a container that lists the old train succeeds, and
    keeps every other reference of every container. *)
Lemma replace_in_container_Done (cs : list (list nat)) (c : option nat)
  (old_st new_st : nat) :
  (forall key, c = Some key -> In old_st (nth key cs [])) ->
  exists cs',
    replace_in_container cs c old_st new_st = Done cs' /\
    forall key x, x <> old_st -> In x (nth key cs []) -> In x (nth key cs' []).
Proof.
  intros Hin. unfold replace_in_container. destruct c as [key|].
  - specialize (Hin key eq_refl).
    destruct (_get_index_from_found _ _ O Hin) as (i & E & Hi & Hn).
    unfold _get_index. rewrite E. simpl. eexists. split; [reflexivity|].
    intros key' x Hx Hx'.
    destruct (Nat.eq_dec key key') as [<-|Hk].
    + rewrite set_item_nth_same.
      * apply (set_item_In_other _ O); [exact Hx'|congruence].
      * destruct (Nat.lt_ge_cases key (List.length cs)) as [H|H];
          [exact H|]. rewrite nth_overflow in Hin by exact H. contradiction.
    + rewrite set_item_nth_other by exact Hk. exact Hx'.
  - exists cs. split; [reflexivity|]. intros; assumption.
Qed.

(** One turn of the loop, on a train whose spikes lie in intervals and
    that its containers list: the place of the train in the list gets the
    processed train, every other object stays as it was, and every other
    reference stays in its containers. *)
Lemma visit_Done (ep : Epoch) (deletion_threshold : option Z)
  (invert_delete : bool) (done rest : list nat) (ref : nat) (m : memory)
  (st : SpikeTrain) :
  deref m ref = Neo st ->
  (forall x, In x (times st) -> exists j, in_interval ep j x) ->
  attached m ref st ->
  exists ref' m',
    visit (ep_complexity ep) (right_edges_of ep) deletion_threshold
      invert_delete (List.length done) (done ++ ref :: rest) m
    = (Done tt, (done ++ ref' :: rest, m')) /\
    deref m' ref' = Neo (processed_st ep deletion_threshold invert_delete st) /\
    (ref' < List.length (heap m'))%nat /\
    (ref' = ref \/ ref' = List.length (heap m)) /\
    (List.length (heap m) <= List.length (heap m'))%nat /\
    (forall x, x <> ref -> (x < List.length (heap m))%nat ->
       deref m' x = deref m x) /\
    (forall key x, x <> ref -> In x (nth key (units m) []) ->
       In x (nth key (units m') [])) /\
    (forall key x, x <> ref -> In x (nth key (segments m) []) ->
       In x (nth key (segments m') [])).
Proof.
  intros Hst Hin [Hunit Hseg].
  pose proof (deref_Neo_in_heap _ _ _ Hst) as Href.
  unfold visit.
  rewrite nth_error_app2, Nat.sub_diag by lia. cbn [nth_error].
  rewrite Hst, (complexity_lookup ep st Hin).
  set (annotated := Neo (array_annotate st (event_complexities ep st))).
  assert (Hlen1 : List.length (heap (store m ref annotated))
                  = List.length (heap m)).
  { unfold store. simpl. apply set_item_length. }
  destruct deletion_threshold as [t|].
  - cbv beta iota zeta.
    rewrite getitem_mask_filtered.
    unfold allocate. rewrite Hlen1.
    cbn [array_annotate st_unit st_segment units segments heap store].
    destruct (replace_in_container_Done (units m) (st_unit st) ref
                (List.length (heap m)) Hunit) as (us & -> & Hus).
    destruct (replace_in_container_Done (segments m) (st_segment st) ref
                (List.length (heap m)) Hseg) as (ss & -> & Hss).
    rewrite set_item_middle.
    eexists. eexists. split; [reflexivity|].
    split.
    { unfold deref. cbn [heap]. rewrite app_nth2; rewrite set_item_length;
        [|lia]. rewrite Nat.sub_diag. reflexivity. }
    split; [cbn [heap]; rewrite length_app, set_item_length; simpl; lia|].
    split; [right; reflexivity|].
    split; [cbn [heap]; rewrite length_app, set_item_length; simpl; lia|].
    split.
    { intros x Hx Hlt. unfold deref. cbn [heap].
      rewrite app_nth1 by (rewrite set_item_length; exact Hlt).
      apply set_item_nth_other. congruence. }
    split; [exact Hus|exact Hss].
  - exists ref, (store m ref annotated).
    split; [reflexivity|].
    split; [apply deref_store_same; exact Href|].
    split; [rewrite Hlen1; exact Href|].
    split; [left; reflexivity|].
    split; [rewrite Hlen1; lia|].
    split; [intros x Hx _; apply deref_store_other; exact Hx|].
    split; intros key x _ Hx; exact Hx.
Qed.

(** The loop replaces every train by its processed version.  [done] are
    the references already written, [pending] the ones still to visit. *)
Lemma annotate_loop_Done (ep : Epoch) (deletion_threshold : option Z)
  (invert_delete : bool) :
  forall (pending done : list nat) (m : memory),
    NoDup pending ->
    (forall ref, In ref pending ->
       exists st, deref m ref = Neo st /\
         (forall x, In x (times st) -> exists j, in_interval ep j x) /\
         attached m ref st) ->
    (forall d, In d done ->
       (d < List.length (heap m))%nat /\ ~ In d pending) ->
    exists news m',
      annotate_loop (ep_complexity ep) (right_edges_of ep) deletion_threshold
        invert_delete (List.length pending) (List.length done)
        (done ++ pending) m
      = (Done tt, (done ++ news, m')) /\
      map (deref m') (done ++ news)
      = map (deref m) done
        ++ map (fun ref => processed ep deletion_threshold invert_delete
                             (deref m ref)) pending.
Proof.
  induction pending as [|ref pending IH]; intros done m Hnd Hall Hdone.
  - exists [], m. split; [reflexivity|]. rewrite !app_nil_r. reflexivity.
  - destruct (Hall ref (or_introl eq_refl)) as (st & Hst & Hin & Hatt).
    destruct (visit_Done ep deletion_threshold invert_delete done pending ref m
                st Hst Hin Hatt)
      as (ref' & m1 & Hvisit & Hnew & Hlt & Hwhich & Hgrow & Hsame & Hus & Hss).
    pose proof (deref_Neo_in_heap _ _ _ Hst) as Href.
    inversion Hnd as [|? ? Hnotin Hnd']; subst.
    assert (Hpend : forall x, In x pending ->
              x <> ref /\ (x < List.length (heap m))%nat).
    { intros x Hx. split; [intros ->; contradiction|].
      destruct (Hall x (or_intror Hx)) as (sx & Hsx & _).
      exact (deref_Neo_in_heap _ _ _ Hsx). }
    destruct (IH (done ++ [ref']) m1) as (news & m' & Hloop & Hmap).
    + exact Hnd'.
    + intros x Hx. destruct (Hpend x Hx) as [Hne Hxlt].
      destruct (Hall x (or_intror Hx)) as (sx & Hsx & Hinx & [Hux Hsx']).
      exists sx. split; [rewrite Hsame by assumption; exact Hsx|].
      split; [exact Hinx|]. split.
      * intros key Hk. apply Hus; [exact Hne|]. apply Hux. exact Hk.
      * intros key Hk. apply Hss; [exact Hne|]. apply Hsx'. exact Hk.
    + intros d Hd. apply in_app_or in Hd. destruct Hd as [Hd|[<-|[]]].
      * destruct (Hdone d Hd) as [Hdlt Hdn]. split; [lia|].
        intros Hc. apply Hdn. right. exact Hc.
      * split; [exact Hlt|]. intros Hc. destruct (Hpend _ Hc) as [Hne Hxlt].
        destruct Hwhich as [->| ->]; [congruence|lia].
    + exists (ref' :: news), m'.
      cbn [annotate_loop List.length]. rewrite Hvisit.
      replace (done ++ ref' :: pending) with ((done ++ [ref']) ++ pending)
        by (rewrite <- app_assoc; reflexivity).
      replace (S (List.length done)) with (List.length (done ++ [ref']))
        by (rewrite length_app; simpl; lia).
      rewrite Hloop. rewrite <- !app_assoc. cbn [app].
      split; [reflexivity|].
      rewrite <- !app_assoc in Hmap. cbn [app] in Hmap. rewrite Hmap.
      rewrite map_app. cbn [map]. rewrite <- app_assoc. cbn [app].
      f_equal.
      * apply map_ext_in. intros d Hd. destruct (Hdone d Hd) as [Hdlt Hdn].
        apply Hsame; [|exact Hdlt]. intros ->. apply Hdn. left. reflexivity.
      * rewrite Hnew, Hst. cbn [processed]. f_equal.
        apply map_ext_in. intros x Hx. destruct (Hpend x Hx) as [Hne Hxlt].
        rewrite Hsame by assumption. reflexivity.
Qed.

(** ** When the calls return *)

Lemma check_Done_all_spike_trains (spiketrains : list pyobj) :
  _check_consistency_of_spiketrainlist spiketrains None None = Done tt ->
  all_spike_trains spiketrains.
Proof.
  intros H o Ho. destruct (check_Done_inv _ H) as (first & rest & _ & Hall).
  destruct (Hall o Ho) as (st & -> & _). exists st. reflexivity.
Qed.

Lemma rows_returns t0 t1 w n (l : list pyobj) :
  all_spike_trains l -> returns (BinnedSpikeTrain.rows t0 t1 w n l).
Proof.
  induction l as [|o l IH]; intros Hall; [exists []; reflexivity|].
  destruct (Hall o (or_introl eq_refl)) as [st ->].
  destruct IH as [m Hm]; [intros o Ho; apply Hall; right; exact Ho|].
  simpl. rewrite Hm. eexists. reflexivity.
Qed.

Lemma all_t_start_returns (l : list pyobj) :
  all_spike_trains l ->
  exists starts, all_t_start l = Done starts /\ List.length starts = List.length l.
Proof.
  induction l as [|o l IH]; intros Hall; [exists []; split; reflexivity|].
  destruct (Hall o (or_introl eq_refl)) as [st ->].
  destruct IH as (starts & Hs & Hlen); [intros o Ho; apply Hall; right; exact Ho|].
  simpl. rewrite Hs. eexists. split; [reflexivity|]. simpl. lia.
Qed.

Lemma squeeze_not_singleton (row : list Z) :
  List.length row <> 1%nat -> Np.squeeze row = Np.Arr1 row.
Proof. destruct row as [|x [|y row]]; simpl; intros H; try reflexivity; lia. Qed.

(** With consistent trains, a positive sampling rate, spikes on the bin
    grid, at least one spike and a number of bins other than one,
    [precise_complexity_intervals] returns an epoch once it has fuel
    enough. *)
Lemma precise_complexity_intervals_returns (spiketrains : list pyobj)
  (rate : Q) (spread : nat) :
  _check_consistency_of_spiketrainlist spiketrains None None = Done tt ->
  (0 < rate)%Q ->
  spikes_on_grid spiketrains rate ->
  has_spike spiketrains ->
  axis_bins spiketrains rate <> 1%nat ->
  exists fuel0 : nat, forall fuel : nat,
    (fuel0 <= fuel)%nat ->
    returns (precise_complexity_intervals fuel spiketrains rate spread).
Proof.
  intros Hcheck Hrate Hgrid (st & x & Hst & Hx) Hbins.
  pose proof (check_Done_all_spike_trains _ Hcheck) as Hall.
  assert (Hw : (0 < 1 / rate)%Q).
  { apply Qlt_shift_div_l; [exact Hrate|]. rewrite Qmult_0_l. reflexivity. }
  destruct (Hgrid st Hst x Hx) as [k Hk].
  destruct spiketrains as [|[first|] rest]; try (destruct Hk as [Hk _]; simpl in Hk; lia).
  cbn [axis_start axis_bins] in Hk, Hbins.
  set (n := Z.to_nat (Qfloor ((t_stop first - t_start first) / (1 / rate)))) in *.
  (* the binned spike train *)
  assert (Hle : (t_start first <= t_stop first)%Q).
  { pose proof (Qfloor_le_self_div (t_stop first - t_start first) (1 / rate) 1
                  Hw ltac:(destruct Hk; fold n; lia) ltac:(lia)) as H.
    change (inject_Z (Z.of_nat 1)) with 1%Q in H. Lqa.lra. }
  destruct (rows_returns (t_start first) (t_stop first) (1 / rate) n
              (Neo first :: rest) Hall) as [m Hm].
  assert (Hinit : BinnedSpikeTrain.init (Neo first :: rest) (1 / rate)
                  = Done (BinnedSpikeTrain.mk (t_start first) (1 / rate) n m)).
  { unfold BinnedSpikeTrain.init. cbn [get_t_start get_t_stop bind].
    destruct (Qlt_le_dec (t_stop first) (t_start first)) as [Hlt|_].
    - exfalso. exact (Qlt_not_le _ _ Hlt Hle).
    - fold n. rewrite Hm. reflexivity. }
  set (bst := BinnedSpikeTrain.mk (t_start first) (1 / rate) n m) in *.
  pose proof (column_sums_nonneg _ _ _ Hinit) as Hnn.
  assert (Hlen : List.length (BinnedSpikeTrain.bin_edges bst)
                 = S (List.length (BinnedSpikeTrain.column_sums bst)))
    by (rewrite bin_edges_length, column_sums_length; reflexivity).
  destruct (all_t_start_returns _ Hall) as (starts & Hstarts & Hslen).
  exists (S (List.length (BinnedSpikeTrain.column_sums bst)
             + Z.to_nat (Np.sum (BinnedSpikeTrain.column_sums bst)))).
  intros fuel Hfuel.
  destruct (raw_intervals_returns _ _ spread Hnn Hlen fuel ltac:(lia))
    as (cs & ls & rs & Hraw & Hcl & Hlr & Hcov).
  (* the bin of the spike gives a first interval *)
  pose proof (bincount_positive_at_spike _ _ _ _ _ _ Hinit Hw Hst Hx Hk) as Hpos.
  destruct (Hcov k) as (j & l & r & lq & rq & Hl & _);
    [rewrite column_sums_length; destruct Hk; exact H|lia|].
  unfold precise_complexity_intervals.
  rewrite Hcheck. cbn [bind]. rewrite Hinit. cbn [bind].
  rewrite squeeze_not_singleton
    by (rewrite column_sums_length; exact Hbins).
  rewrite Hraw. cbn [bind]. rewrite Hstarts. cbn [bind].
  destruct starts as [|s0 starts]; [simpl in Hslen; lia|].
  cbn [py_min bind].
  destruct ls as [|l0 ls]; [destruct j; discriminate|].
  cbn [map set_first bind]. eexists. reflexivity.
Qed.

(** [detect_synchrofacts] on top of a returned epoch: the call returns,
    and the list then refers to the processed version of every train. *)
Lemma detect_synchrofacts_with_epoch (fuel : nat) (spiketrains : list nat)
  (m : memory) (rate : Q) (spread : nat) (deletion_threshold : option Z)
  (invert_delete : bool) (ep : Epoch) :
  precise_complexity_intervals fuel (map (deref m) spiketrains) rate spread
  = Done ep ->
  (0 < rate)%Q ->
  spikes_on_grid (map (deref m) spiketrains) rate ->
  well_attached spiketrains m ->
  threshold_rejected deletion_threshold = false ->
  exists after,
    detect_synchrofacts fuel spiketrains m rate spread deletion_threshold
      invert_delete = (Done ep, after) /\
    objects after
    = map (processed ep deletion_threshold invert_delete)
        (map (deref m) spiketrains).
Proof.
  intros Hrun Hrate Hgrid [Hnd Hatt] Hthr. unfold detect_synchrofacts.
  rewrite Hthr, Hrun.
  destruct (precise_complexity_intervals_Done_inv _ _ _ _ _ Hrun)
    as (_ & _ & _ & _ & _ & _ & Hcheck & _).
  pose proof (check_Done_all_spike_trains _ Hcheck) as Hall.
  fold (right_edges_of ep).
  destruct (annotate_loop_Done ep deletion_threshold invert_delete
              spiketrains [] m Hnd) as (news & m' & Hloop & Hmap).
  - intros ref Href.
    destruct (Hall (deref m ref) (in_map _ _ _ Href)) as [st Hst].
    exists st. split; [exact Hst|]. split.
    + intros x Hx.
      apply (spike_in_interval fuel (map (deref m) spiketrains) rate spread
               ep st x); try assumption.
      * rewrite <- Hst. apply in_map. exact Href.
      * apply (Hgrid st); [rewrite <- Hst; apply in_map; exact Href|exact Hx].
    + apply Hatt; assumption.
  - intros d [].
  - cbn [List.length app] in Hloop, Hmap. rewrite Hloop. cbn [bind].
    eexists. split; [reflexivity|].
    unfold objects. cbn [fst snd]. rewrite Hmap, map_map. reflexivity.
Qed.

(** ** The right-edge search *)

Lemma spikes_on_grid_b_true (spiketrains : list pyobj) (rate : Q) :
  spikes_on_grid_b spiketrains rate = true -> spikes_on_grid spiketrains rate.
Proof.
  unfold spikes_on_grid_b, spikes_on_grid. intros H st Hst x Hx.
  rewrite forallb_forall in H. specialize (H _ Hst). cbv beta iota in H.
  rewrite forallb_forall in H. specialize (H _ Hx).
  unfold on_bin_grid_b in H.
  apply andb_prop in H. destruct H as [H H3].
  apply andb_prop in H. destruct H as [H1 H2].
  apply Z.leb_le in H1. apply Nat.ltb_lt in H2. apply Qeq_bool_iff in H3.
  exists (Z.to_nat (Qfloor ((x - axis_start spiketrains) / (1 / rate)))).
  split; [exact H2|]. rewrite Z2Nat.id by exact H1. exact H3.
Qed.

(** The spike at 1 ms falls into the bin from 0.3 ms to 1.3 ms, whose
    shifted right edge is 0.8 ms: the search returns the number of
    intervals and the lookup raises. *)
Lemma lookup_out_of_bounds_off_grid :
  spikes_on_multiples [Neo off_grid_train] 1 /\
  (exists ep,
      precise_complexity_intervals 20 [Neo off_grid_train] 1 1 = Done ep /\
      Forall2 Qeq (right_edges_of ep) [4 # 5]%Q /\
      Np.searchsorted (right_edges_of ep) 1 = List.length (ep_complexity ep)) /\
  fst (detect_synchrofacts 20 [0%nat] (mkMemory [Neo off_grid_train] [] [])
         1 1 None false)
  = Raised (IndexError "index out of bounds") /\
  ~ lookup_in_bounds_on_multiples.
Proof.
  assert (Hpre : spikes_on_multiples [Neo off_grid_train] 1).
  { intros st [E|[]] x Hx. injection E as <-.
    destruct Hx as [<-|[]]. split; [|split].
    - exists 1. reflexivity.
    - vm_compute. discriminate.
    - vm_compute. reflexivity. }
  split; [exact Hpre|]. split; [|split].
  - eexists. split; [vm_compute; reflexivity|].
    split; [|reflexivity]. forall2_qeq.
  - vm_compute. reflexivity.
  - intros H.
    specialize (H 20%nat [Neo off_grid_train] 1%Q 1%nat _ off_grid_train 1%Q
                  eq_refl Hpre eq_refl (or_introl eq_refl) (or_introl eq_refl)).
    vm_compute in H. apply Nat.leb_le in H. discriminate.
Qed.

(** C10 (amended).  When every spike time is the start time plus a whole
    number of bin widths, below the last bin edge, and the sampling rate
    is positive: every spike of every train lies in an interval of the
    returned epoch and is strictly less than its right edge, the
    right-edge search finds an index below the number of intervals, and
    the lookup of the complexities of the spikes of a train returns. *)
Theorem spike_lookup_in_bounds (fuel : nat) (spiketrains : list pyobj)
  (rate : Q) (spread : nat) (ep : Epoch)
  (Hrate : (0 < rate)%Q)
  (Hgrid : spikes_on_grid spiketrains rate)
  (Hrun : precise_complexity_intervals fuel spiketrains rate spread = Done ep) :
  forall st, In (Neo st) spiketrains ->
    (forall x, In x (times st) ->
       (exists j, in_interval ep j x) /\
       (Np.searchsorted (right_edges_of ep) x
        < List.length (ep_complexity ep))%nat) /\
    Np.take (ep_complexity ep)
      (map (Np.searchsorted (right_edges_of ep)) (times st))
    = Done (event_complexities ep st).
Proof.
  intros st Hst.
  assert (Hin : forall x, In x (times st) -> exists j, in_interval ep j x).
  { intros x Hx.
    apply (spike_in_interval fuel spiketrains rate spread ep st x);
      try assumption.
    apply (Hgrid st Hst x Hx). }
  assert (Hidx : forall x, In x (times st) ->
            (Np.searchsorted (right_edges_of ep) x
             < List.length (ep_complexity ep))%nat).
  { intros x Hx. destruct (Hin x Hx) as [j Hj].
    exact (searchsorted_in_bounds ep j x Hj). }
  split.
  - intros x Hx. split; [exact (Hin x Hx)|exact (Hidx x Hx)].
  - rewrite take_nth.
    + unfold event_complexities. rewrite map_map. reflexivity.
    + apply Forall_map. apply Forall_forall. exact Hidx.
Qed.

Lemma spike_lookup_in_bounds_witness :
  exists ep,
    precise_complexity_intervals 20 [Neo st1; Neo st2] 1 1 = Done ep /\
    forall st, In (Neo st) [Neo st1; Neo st2] ->
      (forall x, In x (times st) ->
         (exists j, in_interval ep j x) /\
         (Np.searchsorted (right_edges_of ep) x
          < List.length (ep_complexity ep))%nat) /\
      Np.take (ep_complexity ep)
        (map (Np.searchsorted (right_edges_of ep)) (times st))
      = Done (event_complexities ep st).
Proof.
  eexists. split; [vm_compute; reflexivity|].
  apply (spike_lookup_in_bounds 20 [Neo st1; Neo st2] 1 1).
  - reflexivity.
  - apply spikes_on_grid_b_true. vm_compute. reflexivity.
  - vm_compute. reflexivity.
Defined.

(** ** Deletion by threshold *)

Lemma filter_complement_length {A : Type} (p : A -> bool) (l : list A) :
  (List.length (filter p l) + List.length (filter (fun x => negb (p x)) l)
   = List.length l)%nat.
Proof.
  induction l as [|x l IH]; simpl; [reflexivity|].
  destruct (p x); simpl; lia.
Qed.

Lemma surviving_length (invert_delete : bool) (t : Z) (ts : list Q) :
  forall cs, List.length cs = List.length ts ->
    List.length (surviving invert_delete t ts cs)
    = List.length (filter (kept invert_delete t) cs).
Proof.
  unfold surviving.
  induction ts as [|x ts IH]; intros [|c cs] H; simpl in *; try discriminate;
    try reflexivity.
  specialize (IH cs ltac:(lia)). rewrite length_map in IH |- *.
  destruct (kept invert_delete t c); simpl; lia.
Qed.

Lemma total_spikes_after_deletion (ep : Epoch) (invert_delete : bool)
  (t : Z) (l : list pyobj) :
  (total_spikes (map (processed ep (Some t) invert_delete) l)
   + total_removed ep invert_delete t l = total_spikes l)%nat.
Proof.
  induction l as [|o l IH]; simpl; [reflexivity|].
  assert (H : (spike_count (processed ep (Some t) invert_delete o)
               + removed_count ep invert_delete t o = spike_count o)%nat).
  { destruct o as [st|]; [|reflexivity].
    cbn [processed processed_st spike_count removed_count filtered_st times].
    rewrite surviving_length by (unfold event_complexities; apply length_map).
    rewrite filter_complement_length. unfold event_complexities.
    apply length_map. }
  lia.
Qed.


Lemma attached_memory_well_attached : well_attached attached_list attached_memory.
Proof.
  split.
  - repeat constructor; simpl; intuition discriminate.
  - intros ref st [<-|[<-|[]]] H; injection H as <-; split; intros key Hk;
      injection Hk as <-; simpl; auto.
Qed.


(** The docstring trains, the first in a unit of its own, the second in
    another, both in one segment, with [spread = 1] and a threshold of 2:
    the spikes at 4, 5 and 6 ms (complexity 3) and the two spikes at 1 ms
    (complexity 2) are removed, the spike at 8 ms (complexity 1) stays.
    The list, the units and the segment refer to the two new trains; the
    old ones are still in the heap, annotated. *)
Example detect_synchrofacts_docstring_trains :
  detect_synchrofacts 20 attached_list attached_memory 1 1 (Some 2) false
  = (Done (mkEpoch [0; 7 # 2; 15 # 2]%Q [3 # 2; 12 # 4; 4 # 4]%Q [2; 3; 1]),
     ([2; 3]%nat,
      mkMemory
        [Neo (mkSpikeTrain [1; 4; 6]%Q 0 10 (Some [2; 3; 3]) (Some 0%nat) (Some 0%nat));
         Neo (mkSpikeTrain [1; 5; 8]%Q 0 10 (Some [2; 3; 1]) (Some 1%nat) (Some 0%nat));
         Neo (mkSpikeTrain [] 0 10 (Some []) (Some 0%nat) (Some 0%nat));
         Neo (mkSpikeTrain [8]%Q 0 10 (Some [1]) (Some 1%nat) (Some 0%nat))]
        [[2]; [3]]%nat [[2; 3]]%nat)).
Proof. vm_compute. reflexivity. Qed.

(** ** The mean accumulator *)

Lemma units_differ_same (u : option string) : units_differ u u = false.
Proof.
  destruct u as [a|]; simpl; [|reflexivity].
  rewrite String.eqb_refl. reflexivity.
Qed.

Lemma Num_sum_Fin (l : list Q) : Num.sum (map Fin l) = Fin (Qsum l).
Proof.
  induction l as [|x l IH]; simpl; [reflexivity|].
  rewrite IH. reflexivity.
Qed.

Lemma Qsum_app (a b : list Q) : (Qsum (a ++ b) == Qsum a + Qsum b)%Q.
Proof.
  induction a as [|x a IH]; simpl.
  - rewrite Qplus_0_l. reflexivity.
  - rewrite IH. apply Qplus_assoc.
Qed.

(** What one [update] call hands to the incremental formula. *)
Lemma batch_of_reading (batch_mode : bool) (x : reading batch_mode) :
  exists s : Q,
    (s == Qsum (values batch_mode x))%Q /\
    (match batch_mode return sample batch_mode -> Z * num with
     | true => fun new_val => (Z.of_nat (List.length new_val), Num.sum new_val)
     | false => fun new_val => (1, new_val)
     end) (to_sample batch_mode x)
    = (Z.of_nat (List.length (values batch_mode x)), Fin s).
Proof.
  destruct batch_mode; simpl in *.
  - exists (Qsum x). split; [reflexivity|].
    rewrite Num_sum_Fin, length_map. reflexivity.
  - exists x. split; [|reflexivity]. rewrite Qplus_0_r. reflexivity.
Qed.

Lemma inject_Z_nonzero (n : Z) : n <> 0 -> ~ (inject_Z n == 0)%Q.
Proof.
  intros Hn H. apply Hn. apply inject_Z_injective. exact H.
Qed.

(** The first [update]: the mean of the values of the call. *)
Lemma mean_update_first (batch_mode : bool) (u : option string)
  (x : reading batch_mode) :
  values batch_mode x <> [] ->
  exists m,
    MeanOnline.update batch_mode MeanOnline.init
      (mkTagged u (to_sample batch_mode x))
    = (Done tt,
       MeanOnline.mk (Some (Fin m))
         (Z.of_nat (List.length (values batch_mode x))) u) /\
    (m == arithmetic_mean (values batch_mode x))%Q.
Proof.
  intros Hne. destruct (batch_of_reading batch_mode x) as (s & Hs & E).
  unfold MeanOnline.update. cbn [magnitude units_of MeanOnline.mean MeanOnline.init
                                  MeanOnline.count].
  rewrite E. cbv beta iota. unfold Num.div.
  destruct (Z.eqb_spec (Z.of_nat (List.length (values batch_mode x))) 0) as [H0|_].
  - exfalso. destruct (values batch_mode x); [congruence|discriminate].
  - eexists. split; [reflexivity|]. unfold arithmetic_mean. rewrite Hs.
    reflexivity.
Qed.

(** A later [update] with the same units: the incremental formula keeps
    the mean of everything seen. *)
Lemma mean_update_next (batch_mode : bool) (u : option string)
  (m total : Q) (n : Z) (x : reading batch_mode) :
  0 < n ->
  (m == total / inject_Z n)%Q ->
  exists m',
    MeanOnline.update batch_mode (MeanOnline.mk (Some (Fin m)) n u)
      (mkTagged u (to_sample batch_mode x))
    = (Done tt,
       MeanOnline.mk (Some (Fin m'))
         (n + Z.of_nat (List.length (values batch_mode x))) u) /\
    (m' == (total + Qsum (values batch_mode x))
           / inject_Z (n + Z.of_nat (List.length (values batch_mode x))))%Q.
Proof.
  intros Hn Hm. destruct (batch_of_reading batch_mode x) as (s & Hs & E).
  unfold MeanOnline.update. cbn [magnitude units_of MeanOnline.mean
                                  MeanOnline.count MeanOnline.units].
  rewrite E. cbv beta iota. rewrite units_differ_same.
  set (k := Z.of_nat (List.length (values batch_mode x))).
  assert (Hk : 0 <= k) by (unfold k; lia).
  unfold Num.scale, Num.mul, Num.sub, Num.add, Num.lift2, Num.div.
  destruct (Z.eqb_spec (n + k) 0) as [H0|_]; [lia|].
  eexists. split; [reflexivity|].
  rewrite Hs, Hm, inject_Z_plus.
  assert (Hn0 : ~ (inject_Z n == 0)%Q) by (apply inject_Z_nonzero; lia).
  assert (Hnk : ~ (inject_Z n + inject_Z k == 0)%Q).
  { rewrite <- inject_Z_plus. apply inject_Z_nonzero. lia. }
  field. split; assumption.
Qed.

(** The state after a sequence of updates that starts from a state holding
    the mean of [seen]. *)
Lemma feed_mean_invariant (batch_mode : bool) (u : option string) :
  forall (updates : list (reading batch_mode)) (seen : list Q) (m : Q),
    seen <> [] ->
    (m == arithmetic_mean seen)%Q ->
    exists m',
      feed_mean batch_mode
        (MeanOnline.mk (Some (Fin m)) (Z.of_nat (List.length seen)) u)
        u updates
      = (Done tt,
         MeanOnline.mk (Some (Fin m'))
           (Z.of_nat (List.length (seen ++ flat_map (values batch_mode) updates)))
           u) /\
      (m' == arithmetic_mean (seen ++ flat_map (values batch_mode) updates))%Q.
Proof.
  induction updates as [|x updates IH]; intros seen m Hne Hm.
  - simpl. rewrite app_nil_r. exists m. split; [reflexivity|exact Hm].
  - simpl feed_mean.
    destruct (mean_update_next batch_mode u m (Qsum seen)
                (Z.of_nat (List.length seen)) x) as (m1 & -> & Hm1).
    { destruct seen; [congruence|simpl; lia]. }
    { exact Hm. }
    destruct (IH (seen ++ values batch_mode x) m1) as (m' & Hrun & Hm').
    { destruct seen; [congruence|discriminate]. }
    { rewrite Hm1. unfold arithmetic_mean.
      rewrite Qsum_app, length_app, Nat2Z.inj_add. reflexivity. }
    exists m'. simpl flat_map. rewrite app_assoc.
    rewrite length_app, Nat2Z.inj_add in Hrun. split; [exact Hrun|exact Hm'].
Qed.

(** C2 (amended).  Whatever the sequence of updates of a mean
    accumulator, scalar updates or batches of any sizes, all with the same
    units and the first one with at least one value: every call succeeds,
    and afterwards [get_mean] is the arithmetic mean of all the individual
    values and the count is their number.  A sequence is arbitrary here,
    so this holds after each update of a longer one.  In particular a
    batch of [N >= 1] values gives the mean and the count that feeding the
    [N] values one at a time gives. *)
Theorem mean_online_is_arithmetic_mean :
  (forall (batch_mode : bool) (u : option string)
          (first : reading batch_mode) (later : list (reading batch_mode)),
      values batch_mode first <> [] ->
      let seen := flat_map (values batch_mode) (first :: later) in
      exists self m,
        feed_mean batch_mode MeanOnline.init u (first :: later) = (Done tt, self) /\
        MeanOnline.get_mean self = mkTagged u (Some (Fin m)) /\
        (m == arithmetic_mean seen)%Q /\
        MeanOnline.count self = Z.of_nat (List.length seen))
  /\
  (forall (u : option string) (xs : list Q),
      xs <> [] ->
      exists batched single mb ms,
        feed_mean true MeanOnline.init u [xs] = (Done tt, batched) /\
        feed_mean false MeanOnline.init u xs = (Done tt, single) /\
        MeanOnline.get_mean batched = mkTagged u (Some (Fin mb)) /\
        MeanOnline.get_mean single = mkTagged u (Some (Fin ms)) /\
        (mb == ms)%Q /\
        MeanOnline.count batched = MeanOnline.count single).
Proof.
  assert (Main : forall (batch_mode : bool) (u : option string)
          (first : reading batch_mode) (later : list (reading batch_mode)),
      values batch_mode first <> [] ->
      let seen := flat_map (values batch_mode) (first :: later) in
      exists self m,
        feed_mean batch_mode MeanOnline.init u (first :: later) = (Done tt, self) /\
        MeanOnline.get_mean self = mkTagged u (Some (Fin m)) /\
        (m == arithmetic_mean seen)%Q /\
        MeanOnline.count self = Z.of_nat (List.length seen)).
  { intros batch_mode u first later Hne seen. subst seen.
    destruct (mean_update_first batch_mode u first Hne) as (m0 & E0 & Hm0).
    destruct (feed_mean_invariant batch_mode u later (values batch_mode first)
                m0 Hne Hm0) as (m & Hrun & Hm).
    eexists. exists m. simpl feed_mean. rewrite E0.
    split; [exact Hrun|]. split; [reflexivity|]. split; [exact Hm|reflexivity]. }
  split; [exact Main|].
  intros u xs Hne.
  destruct (Main true u xs [] Hne) as (batched & mb & Hb & Gb & Mb & Cb).
  destruct xs as [|x xs]; [congruence|].
  destruct (Main false u x xs ltac:(discriminate)) as (single & ms & Hs & Gs & Ms & Cs).
  exists batched, single, mb, ms.
  assert (Hflat : forall l : list Q, flat_map (values false) l = l).
  { induction l as [|y l IH]; simpl; [reflexivity|]. f_equal. exact IH. }
  simpl flat_map in Mb, Cb. rewrite app_nil_r in Mb, Cb.
  change (flat_map (values false) (x :: xs)) with (x :: flat_map (values false) xs)
    in Ms, Cs.
  rewrite Hflat in Ms, Cs.
  repeat split; try assumption.
  - rewrite Mb, Ms. reflexivity.
  - rewrite Cb, Cs. reflexivity.
Qed.

Lemma mean_online_is_arithmetic_mean_witness :
  exists self m,
    feed_mean true MeanOnline.init (Some "mV"%string) [[1; 2]; [6]]%Q
    = (Done tt, self) /\
    MeanOnline.get_mean self = mkTagged (Some "mV"%string) (Some (Fin m)) /\
    (m == arithmetic_mean [1; 2; 6])%Q /\
    MeanOnline.count self = 3.
Proof.
  apply (proj1 mean_online_is_arithmetic_mean true (Some "mV"%string)
           [1; 2]%Q [[6]]%Q).
  simpl. discriminate.
Defined.

(** An empty first batch is the case that fails: both calls succeed, the
    first mean is [0. / 0], not a number, and it stays so when the batch
    [[1]] follows, while the mean of the values seen is 1. *)
Lemma mean_after_empty_first_batch :
  (exists self,
      feed_mean true MeanOnline.init None [[]; [1]]%Q = (Done tt, self) /\
      MeanOnline.get_mean self = mkTagged None (Some NaN) /\
      MeanOnline.count self = 1) /\
  (arithmetic_mean (flat_map (values true) [[]; [1]]%Q) == 1)%Q /\
  ~ mean_of_every_update_sequence.
Proof.
  split; [|split].
  - eexists. split; [reflexivity|]. split; reflexivity.
  - reflexivity.
  - intros H.
    destruct (H true None [[]; [1]]%Q ltac:(discriminate))
      as (self & m & Hrun & Hmean & _).
    injection Hrun as <-. discriminate Hmean.
Qed.

(** ** The variance accumulator *)

(** In the never-updated state [get_mean_std] returns the pair
    [(None, None)]: there is no standard deviation at all. *)
Lemma get_mean_std_never_updated :
  VarianceOnline.count VarianceOnline.init = 0 /\
  VarianceOnline.get_mean_std VarianceOnline.init false = (None, None) /\
  VarianceOnline.get_mean_std VarianceOnline.init true = (None, None) /\
  ~ std_zero_whenever_count_le_1.
Proof.
  repeat split.
  intros H. destruct (H VarianceOnline.init false) as [u Hu].
  - unfold VarianceOnline.count. simpl. lia.
  - discriminate.
Qed.

Lemma variance_update_once (x : num) (u : option string) :
  VarianceOnline.update false VarianceOnline.init (mkTagged u x)
  = Done (VarianceOnline.accumulate false (Fin 0) 0 u (Fin 0) x).
Proof. reflexivity. Qed.

(** C5 (amended).  Once the accumulator has been updated, a count of at
    most one gives a standard deviation of exactly zero, in both modes and
    with the units of the accumulator; this is the case after exactly one
    single-value update. *)
Theorem get_mean_std_zero_for_count_le_1 :
  (forall (self : VarianceOnline.t) (unbiased : bool),
      VarianceOnline.mean self <> None ->
      VarianceOnline.count self <= 1 ->
      exists m,
        VarianceOnline.get_mean_std self unbiased
        = (Some m, Some (mkTagged (VarianceOnline.units self) (RFin 0%R))))
  /\
  (forall (x : num) (u : option string) (unbiased : bool),
      exists self m,
        VarianceOnline.update false VarianceOnline.init (mkTagged u x)
        = Done self /\
        VarianceOnline.count self = 1 /\
        VarianceOnline.get_mean_std self unbiased
        = (Some m, Some (mkTagged u (RFin 0%R)))).
Proof.
  split.
  - intros self unbiased Hmean Hcount.
    unfold VarianceOnline.get_mean_std.
    destruct (VarianceOnline.mean self) as [m|]; [|congruence].
    destruct (Z.gtb_spec (VarianceOnline.count self) 1) as [Hgt|_]; [lia|].
    eexists. reflexivity.
  - intros x u unbiased. rewrite variance_update_once.
    eexists. eexists. split; [reflexivity|]. split; [reflexivity|].
    destruct unbiased; reflexivity.
Qed.

Lemma get_mean_std_zero_for_count_le_1_witness :
  exists m,
    VarianceOnline.get_mean_std
      (VarianceOnline.accumulate false (Fin 0) 0 None (Fin 0) (Fin 3)) true
    = (Some m, Some (mkTagged None (RFin 0%R))).
Proof.
  apply (proj1 get_mean_std_zero_for_count_le_1
           (VarianceOnline.accumulate false (Fin 0) 0 None (Fin 0) (Fin 3)) true).
  - unfold VarianceOnline.mean. simpl. discriminate.
  - unfold VarianceOnline.count. simpl. lia.
Defined.

Lemma sqrt_Q2R_4 (q : Q) : (q == 4)%Q -> sqrt (Q2R q) = 2%R.
Proof.
  intros H. rewrite (Qeq_eqR _ _ H).
  replace (Q2R 4) with (2 * 2)%R.
  - apply sqrt_square. Lra.lra.
  - unfold Q2R. simpl. Lra.lra.
Qed.

(** C6.  After the eight single-value updates 2, 4, 4, 4, 5, 5, 7, 9,
    [get_mean_std(unbiased=False)] returns the mean 5 and the standard
    deviation 2. *)
Theorem get_mean_std_known_sample :
  exists self m,
    feed_variance VarianceOnline.init [2; 4; 4; 4; 5; 5; 7; 9]%Q = Done self /\
    VarianceOnline.get_mean_std self false
    = (Some (mkTagged None m), Some (mkTagged None (RFin 2%R))) /\
    Num.eq m (Fin 5).
Proof.
  eexists. eexists. split; [vm_compute; reflexivity|].
  split.
  - unfold VarianceOnline.get_mean_std, VarianceOnline.mean,
      VarianceOnline.count, MeanOnline.as_units; simpl MeanOnline.mean;
      simpl MeanOnline.count; cbv iota beta.
    simpl (8 >? 1). cbv iota.
    unfold np_sqrt, Num.div, VarianceOnline.variance_sum.
    simpl (8 =? 0). cbv iota.
    match goal with
    | |- context [Qlt_le_dec ?q 0] => destruct (Qlt_le_dec q 0) as [Hneg|_]
    end.
    + exfalso. revert Hneg. vm_compute. discriminate.
    + rewrite sqrt_Q2R_4; [reflexivity|vm_compute; reflexivity].
  - vm_compute. reflexivity.
Qed.

(** ** The histogram of inter-spike intervals *)

Lemma linspace0_S (stop : Q) (div : nat) :
  div <> O ->
  Histogram.linspace0 stop (S div)
  = map (fun k => (inject_Z (Z.of_nat k) * (stop / inject_Z (Z.of_nat div)))%Q)
        (seq 0 (S div)).
Proof. destruct div; [congruence|reflexivity]. Qed.

Lemma zip_with_map {A B C D : Type} (f : B -> C -> D) (g : A -> B) (h : A -> C)
  (l : list A) :
  zip_with f (map g l) (map h l) = map (fun x => f (g x) (h x)) l.
Proof. induction l as [|x l IH]; simpl; [reflexivity|]. rewrite IH. reflexivity. Qed.

Lemma repeat_map_seq {A : Type} (x : A) (n s : nat) :
  repeat x n = map (fun _ => x) (seq s n).
Proof.
  revert s. induction n as [|n IH]; intros s; simpl; [reflexivity|].
  rewrite (IH (S s)). reflexivity.
Qed.

Lemma Qfloor_unique (x : Q) (s : Z) :
  (inject_Z s <= x)%Q -> (x < inject_Z (s + 1))%Q -> Qfloor x = s.
Proof.
  intros H1 H2.
  pose proof (Qfloor_le x) as Hlo. pose proof (Qlt_floor x) as Hhi.
  assert (Hs : s <= Qfloor x).
  { rewrite <- (Qfloor_Z s). apply Qfloor_resp_le. exact H1. }
  assert (Hs' : Qfloor x < s + 1).
  { rewrite Zlt_Qlt. apply Qle_lt_trans with x; assumption. }
  lia.
Qed.

Section Bins.

(** Edges [k * c] for a positive bin width [c]. *)
Variable c : Q.
Hypothesis c_pos : (0 < c)%Q.

Local Abbreviation edges s m :=
  (map (fun k => (inject_Z (Z.of_nat k) * c)%Q) (seq s m)).

Lemma increasing_edges : forall m s, Histogram.increasing (edges s m) = true.
Proof.
  induction m as [|m IH]; intros s; [reflexivity|].
  destruct m as [|m]; [reflexivity|].
  change (Qle_bool (inject_Z (Z.of_nat s) * c)
            (inject_Z (Z.of_nat (S s)) * c)
          && Histogram.increasing (edges (S s) (S m)) = true).
  rewrite IH, andb_true_r. apply Qle_bool_iff.
  apply Qmult_le_compat_r; [|apply Qlt_le_weak; exact c_pos].
  rewrite <- Zle_Qle. lia.
Qed.

Lemma counts_nil : forall m s,
  Histogram.counts [] (edges s (S m)) = map (fun _ => 0) (seq s m).
Proof.
  induction m as [|m IH]; intros s; [reflexivity|].
  change (0 :: Histogram.counts [] (edges (S s) (S m))
          = 0 :: map (fun _ => 0) (seq (S s) m)).
  rewrite IH. reflexivity.
Qed.

(** The bin that starts at edge [s] holds [v] when [floor (v / c) = s]. *)
Lemma floor_of_bin (v : Q) (s : nat) :
  (inject_Z (Z.of_nat s) * c <= v)%Q ->
  (v < inject_Z (Z.of_nat (S s)) * c)%Q ->
  Qfloor (v / c) = Z.of_nat s.
Proof.
  intros H1 H2. apply Qfloor_unique.
  - apply Qle_shift_div_l; assumption.
  - apply Qlt_shift_div_r; [exact c_pos|].
    replace (Z.of_nat s + 1) with (Z.of_nat (S s)) by lia. exact H2.
Qed.

Lemma bin_of_floor (v : Q) (s : nat) :
  Qfloor (v / c) = Z.of_nat s ->
  (inject_Z (Z.of_nat s) * c <= v)%Q /\
  (v < inject_Z (Z.of_nat (S s)) * c)%Q.
Proof.
  intros E. pose proof (Qfloor_le (v / c)) as Hlo.
  pose proof (Qlt_floor (v / c)) as Hhi. rewrite E in Hlo, Hhi.
  replace (Z.of_nat s + 1) with (Z.of_nat (S s)) in Hhi by lia.
  assert (Hv : (v / c * c == v)%Q)
    by (field; intros H; rewrite H in c_pos; exact (Qlt_irrefl 0 c_pos)).
  split.
  - rewrite <- Hv. apply Qmult_le_compat_r; [exact Hlo|].
    apply Qlt_le_weak; exact c_pos.
  - rewrite <- Hv at 1. apply Qmult_lt_compat_r; assumption.
Qed.

Lemma in_range_is_floor (v : Q) (s : nat) (is_last : bool) :
  (is_last = true -> (v < inject_Z (Z.of_nat (S s)) * c)%Q) ->
  Histogram.in_range (inject_Z (Z.of_nat s) * c)
    (inject_Z (Z.of_nat (S s)) * c) is_last v
  = (Z.of_nat s =? Qfloor (v / c)).
Proof.
  intros Hlast. unfold Histogram.in_range.
  destruct (Z.eqb_spec (Z.of_nat s) (Qfloor (v / c))) as [E|E].
  - destruct (bin_of_floor v s (eq_sym E)) as [H1 H2].
    apply Qle_bool_iff in H1. rewrite H1. cbn [andb].
    assert (H3 : Qle_bool (inject_Z (Z.of_nat (S s)) * c) v = false).
    { destruct (Qle_bool (inject_Z (Z.of_nat (S s)) * c) v) eqn:B;
        [|reflexivity].
      apply Qle_bool_iff in B. exfalso. exact (Qlt_not_le _ _ H2 B). }
    destruct is_last; [|rewrite H3; reflexivity].
    apply Qle_bool_iff. apply Qlt_le_weak. exact H2.
  - destruct (Qle_bool (inject_Z (Z.of_nat s) * c) v) eqn:B1; [|reflexivity].
    apply Qle_bool_iff in B1. cbn [andb].
    assert (H3 : ~ (v < inject_Z (Z.of_nat (S s)) * c)%Q).
    { intros H2. apply E. symmetry. apply floor_of_bin; assumption. }
    destruct is_last.
    + exfalso. apply H3. apply Hlast. reflexivity.
    + destruct (Qle_bool (inject_Z (Z.of_nat (S s)) * c) v) eqn:B2;
        [reflexivity|].
      exfalso. apply H3. apply Qnot_le_lt. intros H.
      apply Qle_bool_iff in H. congruence.
Qed.

(** One interval [v] below the last edge is counted once, in the bin
    number [floor (v / c)]. *)
Lemma counts_single (v : Q) : forall m s,
  (v < inject_Z (Z.of_nat (s + m)) * c)%Q ->
  Histogram.counts [v] (edges s (S m))
  = map (fun k => if Z.of_nat k =? Qfloor (v / c) then 1 else 0) (seq s m).
Proof.
  induction m as [|m IH]; intros s Hv; [reflexivity|].
  change (Z.of_nat (List.length
            (filter (Histogram.in_range (inject_Z (Z.of_nat s) * c)
                       (inject_Z (Z.of_nat (S s)) * c)
                       (match edges (S (S s)) m with [] => true | _ => false end))
               [v]))
          :: Histogram.counts [v] (edges (S s) (S m))
          = (if Z.of_nat s =? Qfloor (v / c) then 1 else 0)
            :: map (fun k => if Z.of_nat k =? Qfloor (v / c) then 1 else 0)
                 (seq (S s) m)).
  rewrite IH by (replace (S s + m)%nat with (s + S m)%nat by lia; exact Hv).
  f_equal. cbn [filter]. rewrite in_range_is_floor.
  - destruct (Z.of_nat s =? Qfloor (v / c)); reflexivity.
  - intros Hlast. destruct m as [|m]; [|discriminate].
    replace (S s) with (s + 1)%nat by lia. exact Hv.
Qed.

Lemma histogram_nil (n : nat) :
  Histogram.histogram [] (edges 0 (S n)) = Done (map (fun _ => 0) (seq 0 n)).
Proof.
  unfold Histogram.histogram. rewrite increasing_edges, counts_nil. reflexivity.
Qed.

Lemma histogram_single (n : nat) (v : Q) :
  (v < inject_Z (Z.of_nat n) * c)%Q ->
  Histogram.histogram [v] (edges 0 (S n))
  = Done (map (fun k => if Z.of_nat k =? Qfloor (v / c) then 1 else 0) (seq 0 n)).
Proof.
  intros Hv. unfold Histogram.histogram.
  rewrite increasing_edges, counts_single by exact Hv. reflexivity.
Qed.

End Bins.

(** The first [update] of a histogrammer in single-event mode. *)
Lemma isi_update_first m bs n e hist u0 u (x : Q) :
  InterSpikeIntervalOnline.update false
    (InterSpikeIntervalOnline.mk m None bs n e hist u0) (mkTagged u x)
  = match Histogram.histogram [] e with
    | Done isi_hist =>
        (Done tt,
         InterSpikeIntervalOnline.mk m (Some x) bs n e
           (zip_with Z.add hist isi_hist) u)
    | Raised err =>
        (Raised err, InterSpikeIntervalOnline.mk m (Some x) bs n e hist u)
    | Timeout =>
        (Timeout, InterSpikeIntervalOnline.mk m (Some x) bs n e hist u)
    end.
Proof. reflexivity. Qed.

(** A later [update] in single-event mode, with the units seen before. *)
Lemma isi_update_next m bs n e hist u (t0 x : Q) :
  InterSpikeIntervalOnline.update false
    (InterSpikeIntervalOnline.mk m (Some t0) bs n e hist u) (mkTagged u x)
  = match Histogram.histogram [(x - t0)%Q] e with
    | Done isi_hist =>
        (Done tt,
         InterSpikeIntervalOnline.mk m (Some x) bs n e
           (zip_with Z.add hist isi_hist) u)
    | Raised err =>
        (Raised err, InterSpikeIntervalOnline.mk m (Some x) bs n e hist u)
    | Timeout =>
        (Timeout, InterSpikeIntervalOnline.mk m (Some x) bs n e hist u)
    end.
Proof.
  unfold InterSpikeIntervalOnline.update.
  cbn [InterSpikeIntervalOnline.last_spike_time InterSpikeIntervalOnline.units
       units_of is_none negb andb].
  rewrite units_differ_same. reflexivity.
Qed.

Lemma int_of_nonneg (x : Q) : (0 <= x)%Q -> Histogram.int_of x = Qfloor x.
Proof.
  intros Hx. unfold Histogram.int_of.
  destruct (Qlt_le_dec x 0) as [Hneg|_]; [|reflexivity].
  exfalso. exact (Qlt_not_le _ _ Hneg Hx).
Qed.

(** C7.  An histogrammer with [bin_size = 1] and a [max_isi_value] of at
    least 4, fed the single events 0, 2 and 5 with one [update] call each.
    The first update only records [last_spike_time] and leaves every count
    at zero.  In the end there is one count in the bin that covers the
    interval 2, one count in the next bin, which covers the interval 3,
    and no count elsewhere; these are the bins 2 and 3 when
    [max_isi_value] is a whole number, and the bins 1 and 2 otherwise
    (the bins are then wider than 1). *)
Theorem isi_histogram_single_events (max_isi : Q) (u : option string)
  (Hmax : (4 <= max_isi)%Q) :
  exists h0 h1 h2 h3 (b : nat),
    InterSpikeIntervalOnline.init 1 max_isi = Done h0 /\
    InterSpikeIntervalOnline.update false h0 (mkTagged u 0%Q) = (Done tt, h1) /\
    InterSpikeIntervalOnline.update false h1 (mkTagged u 2%Q) = (Done tt, h2) /\
    InterSpikeIntervalOnline.update false h2 (mkTagged u 5%Q) = (Done tt, h3) /\
    InterSpikeIntervalOnline.last_spike_time h1 = Some 0%Q /\
    InterSpikeIntervalOnline.current_isi_histogram h1
    = repeat 0 (InterSpikeIntervalOnline.num_bins h0) /\
    (S b < InterSpikeIntervalOnline.num_bins h0)%nat /\
    (nth b (InterSpikeIntervalOnline.bin_edges h0) 0 <= 2)%Q /\
    (2 < nth (S b) (InterSpikeIntervalOnline.bin_edges h0) 0)%Q /\
    (nth (S b) (InterSpikeIntervalOnline.bin_edges h0) 0 <= 3)%Q /\
    (3 < nth (S (S b)) (InterSpikeIntervalOnline.bin_edges h0) 0)%Q /\
    b = (if Qeq_bool max_isi (inject_Z (Qfloor max_isi)) then 2 else 1)%nat /\
    InterSpikeIntervalOnline.get_isi h3
    = mkTagged u
        (map (fun k => if (k =? b)%nat || (k =? S b)%nat then 1 else 0)
             (seq 0 (InterSpikeIntervalOnline.num_bins h0))).
Proof.
  set (N := Qfloor max_isi).
  assert (HN : 4 <= N).
  { change 4 with (Qfloor (inject_Z 4)). rewrite Qfloor_Z.
    rewrite <- (Qfloor_Z 4). apply Qfloor_resp_le. exact Hmax. }
  set (n := Z.to_nat N).
  assert (Hn : (4 <= n)%nat) by (unfold n; lia).
  assert (HnN : inject_Z (Z.of_nat n) = inject_Z N)
    by (unfold n; rewrite Z2Nat.id by lia; reflexivity).
  pose proof (Qfloor_le max_isi) as Hlo. fold N in Hlo.
  pose proof (Qlt_floor max_isi) as Hhi. fold N in Hhi.
  rewrite inject_Z_plus in Hhi. change (inject_Z 1) with 1%Q in Hhi.
  assert (HN4 : (4 <= inject_Z N)%Q).
  { change 4%Q with (inject_Z 4). rewrite <- Zle_Qle. exact HN. }
  assert (HNpos : (0 < inject_Z N)%Q) by Lqa.lra.
  set (c := (max_isi / inject_Z (Z.of_nat n))%Q).
  assert (Hc1 : (1 <= c)%Q).
  { unfold c. rewrite HnN. apply Qle_shift_div_l; [exact HNpos|]. Lqa.lra. }
  assert (Hc2 : (c < 5 # 4)%Q).
  { unfold c. rewrite HnN. apply Qlt_shift_div_r; [exact HNpos|]. Lqa.lra. }
  assert (Hcpos : (0 < c)%Q) by Lqa.lra.
  assert (Hnc : (inject_Z (Z.of_nat n) * c == max_isi)%Q).
  { unfold c. rewrite HnN. field. intros H. rewrite H in HNpos.
    exact (Qlt_irrefl 0 HNpos). }
  set (edges := map (fun k => (inject_Z (Z.of_nat k) * c)%Q) (seq 0 (S n))).
  assert (Hinit : InterSpikeIntervalOnline.init 1 max_isi
                  = Done (InterSpikeIntervalOnline.mk max_isi None 1 n
                            edges (repeat 0 n) None)).
  { unfold InterSpikeIntervalOnline.init.
    change (Qeq_bool 1 0) with false. cbv iota.
    assert (E1 : (max_isi / 1 == max_isi)%Q) by field.
    rewrite int_of_nonneg by (rewrite E1; Lqa.lra).
    rewrite (Qfloor_comp _ _ E1). fold N.
    destruct (Z.ltb_spec N 0) as [|_]; [lia|].
    fold n. rewrite Nat.add_1_r, linspace0_S by lia. reflexivity. }
  (* the bins of the intervals 2 and 3 *)
  set (b := (if Qeq_bool max_isi (inject_Z N) then 2 else 1)%nat).
  assert (Hb : (inject_Z (Z.of_nat b) * c <= 2)%Q /\
               (2 < inject_Z (Z.of_nat (S b)) * c)%Q /\
               (inject_Z (Z.of_nat (S b)) * c <= 3)%Q /\
               (3 < inject_Z (Z.of_nat (S (S b))) * c)%Q /\
               (b < 3)%nat).
  { unfold b. destruct (Qeq_bool max_isi (inject_Z N)) eqn:E.
    - apply Qeq_bool_iff in E.
      assert (Hc : (c == 1)%Q).
      { unfold c. rewrite HnN, E. field. intros H. rewrite H in HNpos.
        exact (Qlt_irrefl 0 HNpos). }
      change (inject_Z (Z.of_nat 2)) with 2%Q.
      change (inject_Z (Z.of_nat 3)) with 3%Q.
      change (inject_Z (Z.of_nat 4)) with 4%Q.
      repeat split; try Lqa.lra; lia.
    - assert (Hc : (1 < c)%Q).
      { apply Qnot_le_lt. intros Hle.
        assert (Hc : (c == 1)%Q) by Lqa.lra.
        assert (Heq : (max_isi == inject_Z N)%Q)
          by (rewrite <- Hnc, Hc, HnN; ring).
        apply Qeq_bool_iff in Heq. congruence. }
      change (inject_Z (Z.of_nat 1)) with 1%Q.
      change (inject_Z (Z.of_nat 2)) with 2%Q.
      change (inject_Z (Z.of_nat 3)) with 3%Q.
      repeat split; try Lqa.lra; lia. }
  destruct Hb as (Hb1 & Hb2 & Hb3 & Hb4 & Hb5).
  assert (F2 : Qfloor (2 / c) = Z.of_nat b)
    by (apply floor_of_bin; assumption).
  assert (F3 : Qfloor (3 / c) = Z.of_nat (S b))
    by (apply floor_of_bin; assumption).
  assert (Hnth : forall k, (k <= n)%nat ->
            nth k edges 0%Q = (inject_Z (Z.of_nat k) * c)%Q).
  { intros k Hk. unfold edges.
    apply (nth_map_seq (fun i => (inject_Z (Z.of_nat i) * c)%Q) (S n) k 0%Q).
    lia. }
  eexists. eexists. eexists. eexists. exists b.
  split; [exact Hinit|].
  split.
  { rewrite isi_update_first. unfold edges.
    rewrite histogram_nil by exact Hcpos. reflexivity. }
  split.
  { rewrite isi_update_next. change [(2 - 0)%Q] with [2%Q].
    unfold edges. rewrite histogram_single by (exact Hcpos || Lqa.lra).
    reflexivity. }
  split.
  { rewrite isi_update_next. change [(5 - 2)%Q] with [3%Q].
    unfold edges. rewrite histogram_single by (exact Hcpos || Lqa.lra).
    reflexivity. }
  split; [reflexivity|].
  split.
  { cbn [InterSpikeIntervalOnline.current_isi_histogram
         InterSpikeIntervalOnline.num_bins].
    rewrite (repeat_map_seq 0 n 0), zip_with_map.
    apply map_ext. reflexivity. }
  cbn [InterSpikeIntervalOnline.num_bins InterSpikeIntervalOnline.bin_edges].
  split; [lia|].
  rewrite !Hnth by lia.
  split; [exact Hb1|]. split; [exact Hb2|]. split; [exact Hb3|].
  split; [exact Hb4|]. split; [reflexivity|].
  unfold InterSpikeIntervalOnline.get_isi.
  cbn [InterSpikeIntervalOnline.current_isi_histogram
       InterSpikeIntervalOnline.units].
  f_equal. rewrite (repeat_map_seq 0 n 0), !zip_with_map.
  apply map_ext. intros k. rewrite F2, F3.
  destruct (Nat.eqb_spec k b) as [->|H2].
  - rewrite Z.eqb_refl. destruct (Z.eqb_spec (Z.of_nat b) (Z.of_nat (S b)));
      [lia|reflexivity].
  - destruct (Z.eqb_spec (Z.of_nat k) (Z.of_nat b)); [lia|].
    destruct (Nat.eqb_spec k (S b)) as [->|H3].
    + rewrite Z.eqb_refl. reflexivity.
    + destruct (Z.eqb_spec (Z.of_nat k) (Z.of_nat (S b))); [lia|reflexivity].
Qed.

Lemma isi_histogram_single_events_witness :
  exists h0 h1 h2 h3 (b : nat),
    InterSpikeIntervalOnline.init 1 4 = Done h0 /\
    InterSpikeIntervalOnline.update false h0 (mkTagged (Some "ms"%string) 0%Q)
    = (Done tt, h1) /\
    InterSpikeIntervalOnline.update false h1 (mkTagged (Some "ms"%string) 2%Q)
    = (Done tt, h2) /\
    InterSpikeIntervalOnline.update false h2 (mkTagged (Some "ms"%string) 5%Q)
    = (Done tt, h3) /\
    InterSpikeIntervalOnline.last_spike_time h1 = Some 0%Q /\
    InterSpikeIntervalOnline.current_isi_histogram h1
    = repeat 0 (InterSpikeIntervalOnline.num_bins h0) /\
    (S b < InterSpikeIntervalOnline.num_bins h0)%nat /\
    (nth b (InterSpikeIntervalOnline.bin_edges h0) 0 <= 2)%Q /\
    (2 < nth (S b) (InterSpikeIntervalOnline.bin_edges h0) 0)%Q /\
    (nth (S b) (InterSpikeIntervalOnline.bin_edges h0) 0 <= 3)%Q /\
    (3 < nth (S (S b)) (InterSpikeIntervalOnline.bin_edges h0) 0)%Q /\
    b = (if Qeq_bool 4 (inject_Z (Qfloor 4)) then 2 else 1)%nat /\
    InterSpikeIntervalOnline.get_isi h3
    = mkTagged (Some "ms"%string)
        (map (fun k => if (k =? b)%nat || (k =? S b)%nat then 1 else 0)
             (seq 0 (InterSpikeIntervalOnline.num_bins h0))).
Proof.
  apply (isi_histogram_single_events 4 (Some "ms"%string)).
  apply Qle_refl.
Defined.

Example isi_histogram_max_4 :
  isi_after_0_2_5 4 = Done (plain [0; 0; 0; 0], plain [0; 0; 1; 1]).
Proof. vm_compute. reflexivity. Qed.

Example isi_histogram_max_4_5 :
  isi_after_0_2_5 (9 # 2) = Done (plain [0; 0; 0; 0], plain [0; 1; 1; 0]).
Proof. vm_compute. reflexivity. Qed.

(** ** The intervals are the groups of synchronous spikes *)

Lemma sum_app (a b : list Z) : Np.sum (a ++ b) = Np.sum a + Np.sum b.
Proof. induction a as [|x a IH]; simpl; [reflexivity|]. rewrite IH. lia. Qed.

Lemma slice_split (l : list Z) (a m b : nat) :
  (a <= m <= b)%nat ->
  Np.slice l a b = Np.slice l a m ++ Np.slice l m b.
Proof.
  intros H. unfold Np.slice.
  replace (b - a)%nat with ((m - a) + (b - m))%nat by lia.
  rewrite <- (firstn_skipn (m - a) (firstn (m - a + (b - m)) (skipn a l))).
  rewrite firstn_firstn, Nat.min_l by lia.
  rewrite skipn_firstn_comm, skipn_skipn.
  replace (m - a + (b - m) - (m - a))%nat with (b - m)%nat by lia.
  replace (m - a + a)%nat with m by lia. reflexivity.
Qed.

Lemma bins_sum_split (l : list Z) (a m b : nat) :
  (a <= m <= b)%nat -> bins_sum l a b = bins_sum l a m + bins_sum l m b.
Proof.
  intros H. unfold bins_sum. rewrite (slice_split l a m b H). apply sum_app.
Qed.

Lemma nth_slice (l : list Z) (a b j : nat) :
  nth j (Np.slice l a b) 0 = if (j <? b - a)%nat then nth (a + j) l 0 else 0.
Proof. unfold Np.slice. rewrite nth_firstn, nth_skipn. reflexivity. Qed.

Lemma bins_sum_one (l : list Z) (i : nat) :
  bins_sum l i (i + 1) = nth i l 0.
Proof.
  unfold bins_sum, Np.slice. replace (i + 1 - i)%nat with 1%nat by lia.
  rewrite <- (Nat.add_0_r i) at 2. rewrite <- nth_skipn.
  destruct (skipn i l) as [|x r]; simpl; lia.
Qed.

Lemma bins_sum_firstn (l : list Z) (i : nat) :
  bins_sum l 0 i = Np.sum (firstn i l).
Proof. unfold bins_sum, Np.slice. rewrite Nat.sub_0_r. reflexivity. Qed.

Lemma nonneg_firstn (l : list Z) : forall n, nonneg l -> nonneg (firstn n l).
Proof.
  induction l as [|x l IH]; intros [|n] H; simpl; try constructor.
  - inversion H; assumption.
  - apply IH. inversion H; assumption.
Qed.

Lemma nonneg_slice (l : list Z) (a b : nat) : nonneg l -> nonneg (Np.slice l a b).
Proof.
  intros H. unfold Np.slice. apply nonneg_firstn. apply nonneg_skipn. exact H.
Qed.

Lemma sum_zero_all (l : list Z) :
  nonneg l -> Np.sum l <= 0 -> forall k, nth k l 0 = 0.
Proof.
  induction 1 as [|x l Hx Hl IH]; intros Hs k; [destruct k; reflexivity|].
  simpl in Hs. pose proof (sum_nonneg l Hl).
  destruct k as [|k]; simpl; [lia|]. apply IH. lia.
Qed.

Lemma all_zero_sum (l : list Z) : (forall k, nth k l 0 = 0) -> Np.sum l = 0.
Proof.
  induction l as [|x l IH]; intros H; [reflexivity|]. simpl.
  rewrite IH; [pose proof (H O); simpl in *; lia|].
  intros k. exact (H (S k)).
Qed.

Lemma bins_sum_nonneg (l : list Z) (a b : nat) : nonneg l -> 0 <= bins_sum l a b.
Proof. intros H. apply sum_nonneg. apply nonneg_slice. exact H. Qed.

Lemma bins_sum_zero_inv (l : list Z) (a b : nat) :
  nonneg l -> bins_sum l a b <= 0 ->
  forall k, (a <= k < b)%nat -> nth k l 0 = 0.
Proof.
  intros Hnn Hs k Hk.
  pose proof (sum_zero_all _ (nonneg_slice l a b Hnn) Hs (k - a)) as H.
  rewrite nth_slice in H.
  destruct (Nat.ltb_spec (k - a) (b - a)) as [_|Hge]; [|lia].
  replace (a + (k - a))%nat with k in H by lia. exact H.
Qed.

Lemma bins_sum_zero (l : list Z) (a b : nat) :
  (forall k, (a <= k < b)%nat -> nth k l 0 = 0) -> bins_sum l a b = 0.
Proof.
  intros H. apply all_zero_sum. intros j. rewrite nth_slice.
  destruct (Nat.ltb_spec j (b - a)); [|reflexivity]. apply H. lia.
Qed.

Lemma nonzero_from_app (a b : list Z) : forall s,
  Np.nonzero_from s (a ++ b)
  = Np.nonzero_from s a ++ Np.nonzero_from (s + List.length a) b.
Proof.
  induction a as [|x a IH]; intros s; simpl.
  - rewrite Nat.add_0_r. reflexivity.
  - rewrite IH. replace (S s + List.length a)%nat with (s + S (List.length a))%nat
      by lia.
    destruct (x =? 0); reflexivity.
Qed.

Lemma last_item_snoc {A : Type} (l : list A) (x : A) :
  Np.last_item (l ++ [x]) = Done x.
Proof. unfold Np.last_item. rewrite rev_app_distr. reflexivity. Qed.

(** The last index that [np.nonzero] returns: the entry there is not
    zero, and every later entry is. *)
Lemma last_nonzero_spec (w : list Z) (k : nat) :
  Np.last_item (Np.nonzero w) = Done k ->
  (k < List.length w)%nat /\ nth k w 0 <> 0 /\
  forall j, (k < j)%nat -> nth j w 0 = 0.
Proof.
  unfold Np.nonzero. induction w as [|x w IH] using rev_ind; [discriminate|].
  rewrite nonzero_from_app. cbn [Np.nonzero_from Nat.add].
  rewrite length_app. cbn [List.length].
  destruct (Z.eqb_spec x 0) as [->|Hx].
  - rewrite app_nil_r. intros H. destruct (IH H) as (Hk & Hnz & Hafter).
    split; [lia|]. split.
    + rewrite app_nth1 by exact Hk. exact Hnz.
    + intros j Hj. destruct (Nat.lt_ge_cases j (List.length w)) as [Hlt|Hge].
      * rewrite app_nth1 by exact Hlt. apply Hafter. exact Hj.
      * rewrite app_nth2 by exact Hge.
        destruct (j - List.length w)%nat as [|[|n]]; reflexivity.
  - rewrite last_item_snoc. intros H. injection H as <-.
    split; [lia|]. split.
    + rewrite app_nth2, Nat.sub_diag by lia. exact Hx.
    + intros j Hj. apply nth_overflow. rewrite length_app. simpl. lia.
Qed.

Lemma nth_nonzero_in_range (l : list Z) (k : nat) :
  nth k l 0 <> 0 -> (k < List.length l)%nat.
Proof.
  intros H. destruct (Nat.lt_ge_cases k (List.length l)) as [Hlt|Hge];
    [exact Hlt|]. rewrite nth_overflow in H by exact Hge. congruence.
Qed.

Section Groups.

Variable bincount : list Z.
Variable spread : nat.

Hypothesis counts_nonneg : nonneg bincount.

(** The inner loop, started on the bins [i], ..., [i + lni] whose last
    bin is not empty: it stops on the last bin of the group of bin [i],
    with the number of spikes of the group. *)
Lemma grow_window_cluster (i : nat) :
  forall fuel lws lni j lni' wsum',
    j = (i + lni + spread + 1)%nat ->
    lws = bins_sum bincount i (i + lni + 1) ->
    nth (i + lni) bincount 0 <> 0 ->
    (forall k, (i <= k < i + lni)%nat ->
       exists k', (k < k' <= k + spread)%nat /\ (k' <= i + lni)%nat /\
                  nth k' bincount 0 <> 0) ->
    grow_window fuel bincount i spread lws lni (Np.slice bincount i j)
      (Np.sum (Np.slice bincount i j)) = Done (lni', wsum') ->
    wsum' = bins_sum bincount i (i + lni' + 1) /\
    nth (i + lni') bincount 0 <> 0 /\
    (forall k, (i <= k < i + lni')%nat ->
       exists k', (k < k' <= k + spread)%nat /\ (k' <= i + lni')%nat /\
                  nth k' bincount 0 <> 0) /\
    (forall k, (i + lni' < k <= i + lni' + spread)%nat -> nth k bincount 0 = 0).
Proof.
  induction fuel as [|fuel IH];
    intros lws lni j lni' wsum' Hj Hlws Hlast Hchain Hrun; [discriminate|].
  simpl in Hrun. fold (bins_sum bincount i j) in Hrun.
  pose proof (bins_sum_split bincount i (i + lni + 1) j ltac:(lia)) as Hsplit.
  pose proof (bins_sum_nonneg bincount (i + lni + 1) j counts_nonneg) as Hrest.
  destruct (Z.gtb_spec (bins_sum bincount i j) lws) as [Hgt|Hle].
  - destruct (Np.last_item (Np.nonzero (Np.slice bincount i j))) as [k| |] eqn:Ek;
      try discriminate.
    cbn [bind] in Hrun.
    destruct (last_nonzero_spec _ _ Ek) as (_ & Hk & Hafter).
    rewrite nth_slice in Hk.
    destruct (Nat.ltb_spec k (j - i)) as [Hkj|]; [|congruence].
    assert (Hzero : forall p, (i + k < p < j)%nat -> nth p bincount 0 = 0).
    { intros p Hp. specialize (Hafter (p - i)%nat ltac:(lia)).
      rewrite nth_slice in Hafter.
      destruct (Nat.ltb_spec (p - i) (j - i)); [|lia].
      replace (i + (p - i))%nat with p in Hafter by lia. exact Hafter. }
    assert (Hlk : (lni <= k)%nat).
    { destruct (Nat.le_gt_cases lni k) as [H|H]; [exact H|].
      exfalso. apply Hlast. apply Hzero. lia. }
    apply (IH (bins_sum bincount i j) k (i + k + spread + 1)%nat lni' wsum');
      try assumption; try reflexivity.
    + rewrite (bins_sum_split bincount i (i + k + 1) j) by lia.
      rewrite (bins_sum_zero bincount (i + k + 1) j); [lia|].
      intros p Hp. apply Hzero. lia.
    + intros p Hp. destruct (Nat.lt_ge_cases p (i + lni)) as [Hlt|Hge].
      * destruct (Hchain p ltac:(lia)) as (p' & H1 & H2 & H3).
        exists p'. repeat split; try assumption; lia.
      * exists (i + k)%nat. repeat split; try assumption; lia.
  - injection Hrun as <- <-.
    assert (H0 : bins_sum bincount (i + lni + 1) j <= 0) by lia.
    split; [lia|]. split; [exact Hlast|]. split; [exact Hchain|].
    intros k Hk. apply (bins_sum_zero_inv bincount (i + lni + 1) j counts_nonneg H0).
    lia.
Qed.

Variable bin_edges : list Q.

(** The scan over the bins returns the groups, from left to right. *)
Lemma scan_bins_clusters (gas : nat) :
  forall fuel i ivs out,
    (forall ab, In ab ivs ->
       cluster bincount spread (fst ab) (snd ab) /\ (snd ab <= i)%nat) ->
    (forall j1 j2 p q, (j1 < j2)%nat ->
       nth_error ivs j1 = Some p -> nth_error ivs j2 = Some q ->
       (snd p + spread <= fst q)%nat) ->
    (forall k, (k < i)%nat -> nth k bincount 0 <> 0 ->
       exists ab, In ab ivs /\ (fst ab <= k < snd ab)%nat) ->
    Np.sum (map (fun ab => bins_sum bincount (fst ab) (snd ab)) ivs)
    = bins_sum bincount 0 i ->
    scan_bins fuel gas bincount bin_edges spread i
      (map (fun ab => bins_sum bincount (fst ab) (snd ab)) ivs)
      (map (fun ab => nth (fst ab) bin_edges 0%Q) ivs)
      (map (fun ab => nth (snd ab) bin_edges 0%Q) ivs) = Done out ->
    exists ivs',
      out = intervals_of bincount bin_edges ivs' /\
      clusters bincount spread ivs' /\
      Np.sum (map (fun ab => bins_sum bincount (fst ab) (snd ab)) ivs')
      = Np.sum bincount.
Proof.
  induction fuel as [|fuel IH]; intros i ivs out H1 H2 H3 H4 Hrun;
    [discriminate|].
  simpl in Hrun. destruct (Nat.ltb_spec i (List.length bincount)) as [Hi|Hi].
  - rewrite (item_nth bincount i Hi) in Hrun. cbn [bind] in Hrun.
    destruct (Z.eqb_spec (nth i bincount 0) 0) as [Hz|Hnz].
    + apply (IH (i + 1)%nat ivs out); try assumption.
      * intros ab Hab. destruct (H1 ab Hab). split; [assumption|lia].
      * intros k Hk Hk'. destruct (Nat.eq_dec k i) as [->|Hne]; [contradiction|].
        apply H3; [lia|exact Hk'].
      * rewrite H4, (bins_sum_split bincount 0 i (i + 1)) by lia.
        rewrite bins_sum_one. lia.
    + destruct (grow_window gas bincount i spread (nth i bincount 0) 0
                  (Np.slice bincount i (i + spread + 1))
                  (Np.sum (Np.slice bincount i (i + spread + 1))))
        as [[lni wsum]| |] eqn:Eg; try discriminate.
      cbn [bind] in Hrun.
      destruct (grow_window_cluster i gas (nth i bincount 0) 0
                  (i + spread + 1) lni wsum) as (Hw & Hlast & Hchain & Hafter);
        try exact Eg; try lia.
      { replace (i + 0 + 1)%nat with (i + 1)%nat by lia.
        symmetry. apply bins_sum_one. }
      { rewrite Nat.add_0_r. exact Hnz. }
      pose proof (nth_nonzero_in_range _ _ Hlast) as Hin.
      destruct (Np.item bin_edges i) as [l| |] eqn:El; try discriminate.
      cbn [bind] in Hrun.
      destruct (Np.item bin_edges (i + lni + 1)) as [r| |] eqn:Er;
        try discriminate.
      cbn [bind] in Hrun.
      assert (Hl : l = nth i bin_edges 0%Q).
      { unfold Np.item in El. destruct (nth_error bin_edges i) eqn:E;
          [|discriminate]. injection El as <-.
        symmetry. apply nth_error_nth. exact E. }
      assert (Hr : r = nth (i + lni + 1) bin_edges 0%Q).
      { unfold Np.item in Er. destruct (nth_error bin_edges (i + lni + 1)) eqn:E;
          [|discriminate]. injection Er as <-.
        symmetry. apply nth_error_nth. exact E. }
      assert (Hcl : cluster bincount spread i (i + lni + 1)).
      { constructor.
        - lia.
        - exact Hnz.
        - replace (i + lni + 1 - 1)%nat with (i + lni)%nat by lia. exact Hlast.
        - intros k Hk1 Hk2. destruct (Hchain k ltac:(lia)) as (k' & Ha & Hb & Hc).
          exists k'. repeat split; try assumption; lia.
        - intros k Hk. apply Hafter. lia. }
      apply (IH (i + lni + 1)%nat (ivs ++ [(i, (i + lni + 1)%nat)]) out).
      * intros ab Hab. apply in_app_or in Hab. destruct Hab as [Hab|[<-|[]]].
        -- destruct (H1 ab Hab). split; [assumption|lia].
        -- split; [exact Hcl|simpl; lia].
      * intros j1 j2 p q Hj Hp Hq.
        destruct (Nat.lt_ge_cases j2 (List.length ivs)) as [Hlt|Hge].
        -- rewrite nth_error_app1 in Hp, Hq by lia. exact (H2 j1 j2 p q Hj Hp Hq).
        -- assert (Hj2 : j2 = List.length ivs).
           { assert (j2 < List.length (ivs ++ [(i, (i + lni + 1)%nat)]))%nat
               by (apply nth_error_Some; congruence).
             rewrite length_app in H. simpl in H. lia. }
           subst j2. rewrite nth_error_app2, Nat.sub_diag in Hq by lia.
           injection Hq as <-. rewrite nth_error_app1 in Hp by lia.
           apply nth_error_In in Hp. destruct (H1 p Hp) as [Hc Hle].
           cbn [fst].
           destruct (Nat.le_gt_cases (snd p + spread) i) as [H|H]; [exact H|].
           exfalso. apply Hnz. apply (cluster_after _ _ _ _ Hc). lia.
      * intros k Hk Hk'. destruct (Nat.lt_ge_cases k i) as [Hlt|Hge].
        -- destruct (H3 k Hlt Hk') as (ab & Hab & Hr').
           exists ab. split; [apply in_or_app; left; exact Hab|exact Hr'].
        -- exists (i, (i + lni + 1)%nat).
           split; [apply in_or_app; right; left; reflexivity|simpl; lia].
      * rewrite map_app, sum_app, H4. cbn [map fst snd Np.sum fold_right].
        rewrite (bins_sum_split bincount 0 i (i + lni + 1)) by lia. lia.
      * rewrite !map_app. cbn [map fst snd]. rewrite <- Hw, <- Hl, <- Hr.
        exact Hrun.
  - injection Hrun as <-. exists ivs. split; [reflexivity|]. split.
    + split; [intros ab Hab; apply H1; exact Hab|]. split; [exact H2|].
      intros k Hk. apply H3; [|exact Hk].
      pose proof (nth_nonzero_in_range _ _ Hk). lia.
    + rewrite H4, bins_sum_firstn. rewrite firstn_all2 by exact Hi. reflexivity.
Qed.

End Groups.

Lemma nonzero_from_sound (a : list Z) : forall s k,
  In k (Np.nonzero_from s a) -> nth (k - s) a 0 <> 0.
Proof.
  induction a as [|x a IH]; intros s k Hk; simpl in Hk; [contradiction|].
  destruct (Z.eqb_spec x 0) as [Hx|Hx].
  - pose proof (nonzero_from_bounds _ _ _ Hk).
    replace (k - s)%nat with (S (k - S s)) by lia. apply IH. exact Hk.
  - destruct Hk as [<-|Hk]; [rewrite Nat.sub_diag; exact Hx|].
    pose proof (nonzero_from_bounds _ _ _ Hk).
    replace (k - s)%nat with (S (k - S s)) by lia. apply IH. exact Hk.
Qed.

Lemma nonzero_from_increasing (a : list Z) : forall s j1 j2 p q,
  (j1 < j2)%nat ->
  nth_error (Np.nonzero_from s a) j1 = Some p ->
  nth_error (Np.nonzero_from s a) j2 = Some q -> (p < q)%nat.
Proof.
  induction a as [|x a IH]; intros s j1 j2 p q Hj Hp Hq; simpl in Hp, Hq;
    [destruct j1; discriminate|].
  destruct (x =? 0); [exact (IH _ _ _ _ _ Hj Hp Hq)|].
  destruct j2 as [|j2]; [lia|]. simpl in Hq.
  destruct j1 as [|j1]; simpl in Hp.
  - injection Hp as <-. apply nth_error_In in Hq.
    apply nonzero_from_bounds in Hq. lia.
  - apply (IH (S s) j1 j2); [lia|assumption|assumption].
Qed.

Lemma sum_nonzero_from (a : list Z) : forall s,
  Np.sum (map (fun k => nth (k - s) a 0) (Np.nonzero_from s a)) = Np.sum a.
Proof.
  induction a as [|x a IH]; intros s; [reflexivity|].
  assert (E : map (fun k => nth (k - s) (x :: a) 0) (Np.nonzero_from (S s) a)
              = map (fun k => nth (k - S s) a 0) (Np.nonzero_from (S s) a)).
  { apply map_ext_in. intros k Hk. apply nonzero_from_bounds in Hk.
    replace (k - s)%nat with (S (k - S s)) by lia. reflexivity. }
  cbn [Np.nonzero_from].
  destruct (Z.eqb_spec x 0) as [->|Hx].
  - rewrite E, IH. reflexivity.
  - cbn [map]. rewrite E, Nat.sub_diag.
    change (nth 0 (x :: a) 0 + Np.sum (map (fun k => nth (k - S s) a 0)
                                         (Np.nonzero_from (S s) a))
            = x + Np.sum a).
    rewrite IH. reflexivity.
Qed.

Lemma take_Done_nth {A : Type} (d : A) (a : list A) (idx : list nat) (xs : list A) :
  Np.take a idx = Done xs -> xs = map (fun i => nth i a d) idx.
Proof.
  revert xs. induction idx as [|i idx IH]; intros xs H; simpl in H.
  - injection H as <-. reflexivity.
  - unfold Np.item in H. destruct (nth_error a i) as [x|] eqn:E; [|discriminate].
    cbn [bind] in H. destruct (Np.take a idx) as [ys| |]; try discriminate.
    cbn [bind] in H. injection H as <-. cbn [map].
    rewrite (nth_error_nth _ _ d E), (IH ys eq_refl). reflexivity.
Qed.

(** With [spread = 0] every bin that is not empty is a group of its own. *)
Lemma nonzero_bins_clusters (a : list Z) :
  clusters a 0 (map (fun k => (k, (k + 1)%nat)) (Np.nonzero a)).
Proof.
  unfold Np.nonzero. split; [|split].
  - intros ab Hab. apply in_map_iff in Hab. destruct Hab as (k & <- & Hk).
    pose proof (nonzero_from_bounds _ _ _ Hk) as Hb.
    pose proof (nonzero_from_sound _ _ _ Hk) as Hs. rewrite Nat.sub_0_r in Hs.
    cbn [fst snd]. constructor; try lia.
    replace (k + 1 - 1)%nat with k by lia. exact Hs.
  - intros j1 j2 p q Hj Hp Hq. rewrite nth_error_map in Hp, Hq.
    destruct (nth_error (Np.nonzero_from 0 a) j1) as [k1|] eqn:E1; [|discriminate].
    destruct (nth_error (Np.nonzero_from 0 a) j2) as [k2|] eqn:E2; [|discriminate].
    injection Hp as <-. injection Hq as <-. cbn [fst snd].
    pose proof (nonzero_from_increasing a 0 j1 j2 k1 k2 Hj E1 E2). lia.
  - intros k Hk. pose proof (nth_nonzero_in_range _ _ Hk) as Hlt.
    exists (k, (k + 1)%nat). split; [|simpl; lia].
    apply (in_map (fun k => (k, (k + 1)%nat))).
    exact (nonzero_from_complete a 0 k Hlt Hk).
Qed.

(** What the search for the intervals returns, for both of its branches:
    the groups of the bin counts, from left to right, each with its number
    of spikes and the bin edges at its two ends; the numbers add up to the
    number of all binned spikes. *)
Lemma raw_intervals_clusters (a : list Z) (bin_edges : list Q)
  (spread fuel : nat) (out : list Z * list Q * list Q) :
  nonneg a ->
  raw_intervals fuel (Np.Arr1 a) bin_edges spread = Done out ->
  exists ivs,
    out = intervals_of a bin_edges ivs /\
    clusters a spread ivs /\
    Np.sum (map (fun ab => bins_sum a (fst ab) (snd ab)) ivs) = Np.sum a.
Proof.
  intros Hnn Hrun. unfold raw_intervals in Hrun.
  destruct (Nat.eqb_spec spread 0) as [->|Hs].
  - destruct (Np.take a (Np.nonzero a)) as [cs| |] eqn:Ec; try discriminate.
    cbn [bind] in Hrun.
    destruct (Np.take bin_edges (Np.nonzero a)) as [ls| |] eqn:El;
      try discriminate.
    cbn [bind] in Hrun.
    destruct (Np.take bin_edges (map (fun k => (k + 1)%nat) (Np.nonzero a)))
      as [rs| |] eqn:Er; try discriminate.
    cbn [bind] in Hrun. injection Hrun as <-.
    apply (take_Done_nth 0) in Ec. apply (take_Done_nth 0%Q) in El.
    apply (take_Done_nth 0%Q) in Er. subst cs ls rs.
    exists (map (fun k => (k, (k + 1)%nat)) (Np.nonzero a)).
    split; [|split].
    + unfold intervals_of. rewrite !map_map. cbn [fst snd].
      do 2 f_equal. apply map_ext. intros k. symmetry. apply bins_sum_one.
    + apply nonzero_bins_clusters.
    + rewrite map_map. cbn [fst snd].
      rewrite <- (sum_nonzero_from a 0). unfold Np.nonzero. f_equal.
      apply map_ext. intros k. rewrite Nat.sub_0_r. apply bins_sum_one.
  - apply (scan_bins_clusters a spread Hnn bin_edges fuel fuel 0 [] out);
      try exact Hrun.
    + intros ab [].
    + intros j1 j2 p q _ H. destruct j1; discriminate.
    + intros k Hk. lia.
    + reflexivity.
Qed.

(** ** The shape of the returned epoch *)

Lemma py_min_from_all_equal (l : list Q) (m : Q) :
  (forall x, In x l -> (x == m)%Q) -> py_min_from m l = m.
Proof.
  revert m. induction l as [|x l IH]; intros m H; simpl; [reflexivity|].
  destruct (Qlt_le_dec x m) as [Hlt|_].
  - exfalso. rewrite (H x (or_introl eq_refl)) in Hlt. exact (Qlt_irrefl _ Hlt).
  - apply IH. intros y Hy. apply H. right. exact Hy.
Qed.

Lemma all_t_start_Done (l : list pyobj) (starts : list Q) :
  all_t_start l = Done starts ->
  forall x, In x starts -> exists st, In (Neo st) l /\ x = t_start st.
Proof.
  revert starts. induction l as [|o l IH]; intros starts H x Hx; simpl in H.
  - injection H as <-. contradiction.
  - destruct o as [st|]; [|discriminate]. cbn [get_t_start bind] in H.
    destruct (all_t_start l) as [xs| |]; try discriminate.
    cbn [bind] in H. injection H as <-. destruct Hx as [<-|Hx].
    + exists st. split; [left; reflexivity|reflexivity].
    + destruct (IH xs eq_refl x Hx) as (st' & Hin & E).
      exists st'. split; [right; exact Hin|exact E].
Qed.

Lemma bin_edges_nth_default (bst : BinnedSpikeTrain.t) (k : nat) :
  (k <= BinnedSpikeTrain.num_bins bst)%nat ->
  nth k (BinnedSpikeTrain.bin_edges bst) 0%Q
  = (BinnedSpikeTrain.start bst
     + inject_Z (Z.of_nat k) * BinnedSpikeTrain.binsize bst)%Q.
Proof.
  intros Hk. unfold BinnedSpikeTrain.bin_edges.
  apply (nth_map_seq
           (fun k => (BinnedSpikeTrain.start bst
                      + inject_Z (Z.of_nat k) * BinnedSpikeTrain.binsize bst)%Q)).
  lia.
Qed.

(** The epoch in terms of the groups of the bin counts: one interval for
    each group, with the number of spikes of the group as its complexity;
    it runs from the left edge of the first bin of the group to the right
    edge of its last bin, both moved to the left by half a bin, and the
    first interval starts at the smaller of that and the common start
    time. *)
Lemma precise_complexity_intervals_clusters (fuel : nat)
  (spiketrains : list pyobj) (rate : Q) (spread : nat) (ep : Epoch) :
  precise_complexity_intervals fuel spiketrains rate spread = Done ep ->
  exists bst first rest ab0 ivs,
    spiketrains = Neo first :: rest /\
    BinnedSpikeTrain.init spiketrains (1 / rate) = Done bst /\
    clusters (BinnedSpikeTrain.column_sums bst) spread (ab0 :: ivs) /\
    Np.sum (ep_complexity ep) = Np.sum (BinnedSpikeTrain.column_sums bst) /\
    ep_complexity ep
    = map (fun ab => bins_sum (BinnedSpikeTrain.column_sums bst) (fst ab) (snd ab))
        (ab0 :: ivs) /\
    ep_times ep
    = Qmin (t_start first)
        (nth (fst ab0) (BinnedSpikeTrain.bin_edges bst) 0 - (1 # 2) / rate)%Q
      :: map (fun ab => (nth (fst ab) (BinnedSpikeTrain.bin_edges bst) 0
                         - (1 # 2) / rate)%Q) ivs /\
    ep_durations ep
    = zip_with Qminus
        (map (fun ab => (nth (snd ab) (BinnedSpikeTrain.bin_edges bst) 0
                         - (1 # 2) / rate)%Q) (ab0 :: ivs))
        (ep_times ep).
Proof.
  intros Hrun.
  destruct (precise_complexity_intervals_Done_inv _ _ _ _ _ Hrun)
    as (bst & cs & ls & rs & starts & times & Hcheck & Hinit & Hraw & Hstarts
        & Hset & ->).
  destruct (check_Done_inv _ Hcheck) as (first & rest & -> & Hall).
  destruct (raw_intervals_clusters _ _ _ _ _ (column_sums_nonneg _ _ _ Hinit) Hraw)
    as (ivs & Hout & Hcl & Hsum).
  pose proof (f_equal (fun o => fst (fst o)) Hout) as Hcs.
  pose proof (f_equal (fun o => snd (fst o)) Hout) as Hls.
  pose proof (f_equal (fun o => snd o) Hout) as Hrs.
  unfold intervals_of in Hcs, Hls, Hrs. cbn [fst snd] in Hcs, Hls, Hrs.
  subst cs ls rs. clear Hout.
  destruct ivs as [|ab0 ivs]; [discriminate|].
  rewrite map_map in Hset. cbn [map set_first] in Hset.
  assert (Htimes : times
            = Qmin match starts with [] => 0%Q | x :: r => py_min_from x r end
                (nth (fst ab0) (BinnedSpikeTrain.bin_edges bst) 0 - (1 # 2) / rate)%Q
              :: map (fun ab => (nth (fst ab) (BinnedSpikeTrain.bin_edges bst) 0
                                 - (1 # 2) / rate)%Q) ivs) by congruence.
  clear Hset. subst times.
  exists bst, first, rest, ab0, ivs.
  cbn [ep_complexity ep_times ep_durations].
  assert (Hmin : match starts with [] => 0%Q | x :: r => py_min_from x r end
                 = t_start first).
  { cbn [all_t_start get_t_start bind] in Hstarts.
    destruct (all_t_start rest) as [xs| |] eqn:Exs; try discriminate.
    cbn [bind] in Hstarts. injection Hstarts as <-.
    apply py_min_from_all_equal. intros x Hx.
    destruct (all_t_start_Done _ _ Exs x Hx) as (st & Hst & ->).
    destruct (Hall (Neo st) (or_intror Hst)) as (st' & E & H1 & _).
    injection E as <-. exact H1. }
  rewrite Hmin. rewrite (map_map _ (fun e => (e - (1 # 2) / rate)%Q)).
  split; [reflexivity|]. split; [exact Hinit|]. split; [exact Hcl|].
  split; [exact Hsum|]. split; [reflexivity|]. split; reflexivity.
Qed.

(** ** Every spike is counted once *)

Lemma sum_map_add {A : Type} (f g : A -> Z) (l : list A) :
  Np.sum (map (fun k => f k + g k) l) = Np.sum (map f l) + Np.sum (map g l).
Proof. induction l as [|x l IH]; simpl; [reflexivity|]. rewrite IH. lia. Qed.

Lemma sum_map_zero {A : Type} (l : list A) : Np.sum (map (fun _ => 0) l) = 0.
Proof. induction l as [|x l IH]; simpl; [reflexivity|]. rewrite IH. reflexivity. Qed.

Lemma map_nth_seq_id (r : list Z) :
  map (fun k => nth k r 0) (seq 0 (List.length r)) = r.
Proof.
  induction r as [|x r IH]; [reflexivity|].
  cbn [List.length seq map nth]. rewrite <- seq_shift, map_map.
  cbn [nth]. rewrite IH. reflexivity.
Qed.

(** The sum of the column sums of a matrix is the sum of its row sums. *)
Lemma column_sums_total (n : nat) (m : list (list Z)) :
  Forall (fun r => List.length r = n) m ->
  Np.sum (map (fun k => Np.sum (map (fun r => nth k r 0) m)) (seq 0 n))
  = Np.sum (map Np.sum m).
Proof.
  induction 1 as [|r m Hr _ IH]; cbn [map].
  - apply sum_map_zero.
  - change (Np.sum (map (fun k => nth k r 0 + Np.sum (map (fun r => nth k r 0) m))
                      (seq 0 n))
            = Np.sum r + Np.sum (map Np.sum m)).
    rewrite sum_map_add, IH. subst n. rewrite map_nth_seq_id. reflexivity.
Qed.

Lemma sum_indicator (z : Z) : forall n s,
  Np.sum (map (fun k => if z =? Z.of_nat k then 1 else 0) (seq s n))
  = if (Z.of_nat s <=? z) && (z <? Z.of_nat (s + n)) then 1 else 0.
Proof.
  induction n as [|n IH]; intros s.
  - cbn [seq map Np.sum fold_right].
    destruct (Z.leb_spec (Z.of_nat s) z), (Z.ltb_spec z (Z.of_nat (s + 0)));
      simpl; try reflexivity; lia.
  - cbn [seq map]. change (Np.sum (?x :: ?l)) with (x + Np.sum l).
    rewrite IH.
    destruct (Z.eqb_spec z (Z.of_nat s)), (Z.leb_spec (Z.of_nat (S s)) z),
      (Z.ltb_spec z (Z.of_nat (S s + n))), (Z.leb_spec (Z.of_nat s) z),
      (Z.ltb_spec z (Z.of_nat (s + S n))); simpl; try reflexivity; lia.
Qed.

Section Window.

Variables t0 t1 w : Q.
Hypothesis w_pos : (0 < w)%Q.

Local Abbreviation n := (Z.to_nat (Qfloor ((t1 - t0) / w))).

(** A spike of the window is counted in the bin [floor ((x - t0) / w)],
    and in no other. *)
Lemma in_bin_in_window (x : Q) (k : nat) :
  (t0 <= x)%Q -> (x < t0 + inject_Z (Z.of_nat n) * w)%Q -> (k < n)%nat ->
  BinnedSpikeTrain.in_bin t0 t1 w n k x
  = (BinnedSpikeTrain.bin_index t0 w x =? Z.of_nat k).
Proof.
  intros H0 H1 Hk. unfold BinnedSpikeTrain.in_bin.
  assert (Hn : (inject_Z (Z.of_nat n) * w <= t1 - t0)%Q)
    by (apply Qfloor_le_self_div; [exact w_pos|lia|lia]).
  assert (E0 : Qle_bool t0 x = true) by (apply Qle_bool_iff; exact H0).
  assert (E1 : Qle_bool x t1 = true) by (apply Qle_bool_iff; Lqa.lra).
  rewrite E0, E1. cbn [andb].
  destruct (Nat.ltb_spec k n); [|lia]. apply andb_true_r.
Qed.

Lemma bin_index_in_window (x : Q) :
  (t0 <= x)%Q -> (x < t0 + inject_Z (Z.of_nat n) * w)%Q ->
  0 <= BinnedSpikeTrain.bin_index t0 w x < Z.of_nat n.
Proof.
  intros H0 H1. unfold BinnedSpikeTrain.bin_index.
  assert (Hw : ~ (w == 0)%Q) by (apply Qlt_nonzero; exact w_pos).
  split.
  - change 0 with (Qfloor 0). apply Qfloor_resp_le.
    apply Qle_shift_div_l; [exact w_pos|]. Lqa.lra.
  - rewrite Zlt_Qlt. apply Qle_lt_trans with ((x - t0) / w)%Q; [apply Qfloor_le|].
    apply Qlt_shift_div_r; [exact w_pos|]. Lqa.lra.
Qed.

(** The row of a train whose spikes lie in the window adds up to the
    number of its spikes. *)
Lemma row_sum_in_window (ts : list Q) :
  (forall x, In x ts ->
     (t0 <= x)%Q /\ (x < t0 + inject_Z (Z.of_nat n) * w)%Q) ->
  Np.sum (BinnedSpikeTrain.row t0 t1 w n ts) = Z.of_nat (List.length ts).
Proof.
  unfold BinnedSpikeTrain.row. induction ts as [|x ts IH]; intros Hin.
  - apply sum_map_zero.
  - destruct (Hin x (or_introl eq_refl)) as [H0 H1].
    pose proof (bin_index_in_window x H0 H1) as Hidx.
    rewrite (map_ext_in _
               (fun k => (if BinnedSpikeTrain.bin_index t0 w x =? Z.of_nat k
                          then 1 else 0)
                         + Z.of_nat (List.length
                                       (filter (BinnedSpikeTrain.in_bin t0 t1 w n k) ts)))).
    + rewrite sum_map_add, IH by (intros y Hy; apply Hin; right; exact Hy).
      rewrite sum_indicator. cbn [Nat.add List.length].
      change (Z.of_nat 0) with 0.
      destruct (Z.leb_spec 0 (BinnedSpikeTrain.bin_index t0 w x)),
        (Z.ltb_spec (BinnedSpikeTrain.bin_index t0 w x) (Z.of_nat n));
        cbn [andb]; lia.
    + intros k Hk. apply in_seq in Hk. cbn [filter].
      rewrite (in_bin_in_window x k H0 H1) by lia.
      destruct (BinnedSpikeTrain.bin_index t0 w x =? Z.of_nat k);
        cbn [List.length]; lia.
Qed.

Lemma rows_sum_in_window (l : list pyobj) (m : list (list Z)) :
  BinnedSpikeTrain.rows t0 t1 w n l = Done m ->
  (forall st, In (Neo st) l -> forall x, In x (times st) ->
     (t0 <= x)%Q /\ (x < t0 + inject_Z (Z.of_nat n) * w)%Q) ->
  Np.sum (map Np.sum m) = Z.of_nat (total_spikes l).
Proof.
  revert m. induction l as [|o l IH]; intros m H Hin;
    cbn [BinnedSpikeTrain.rows] in H.
  - injection H as <-. reflexivity.
  - destruct o as [st|]; [|discriminate].
    destruct (BinnedSpikeTrain.rows t0 t1 w n l) as [rs| |]; try discriminate.
    cbn [bind] in H. injection H as <-.
    cbn [map total_spikes fold_right spike_count].
    change (Np.sum (?x :: ?r)) with (x + Np.sum r).
    rewrite row_sum_in_window by (apply (Hin st); left; reflexivity).
    rewrite (IH rs eq_refl) by (intros st' H'; apply Hin; right; exact H').
    fold (total_spikes l). lia.
Qed.

End Window.

Lemma row_length t0 t1 w n ts :
  List.length (BinnedSpikeTrain.row t0 t1 w n ts) = n.
Proof. unfold BinnedSpikeTrain.row. rewrite length_map, length_seq. reflexivity. Qed.

(** The bin counts add up to the number of spikes in the window. *)
Lemma column_sums_count_spikes (spiketrains : list pyobj) (rate : Q)
  (bst : BinnedSpikeTrain.t) :
  BinnedSpikeTrain.init spiketrains (1 / rate) = Done bst ->
  (0 < rate)%Q ->
  spikes_in_window spiketrains rate ->
  Np.sum (BinnedSpikeTrain.column_sums bst) = Z.of_nat (total_spikes spiketrains).
Proof.
  intros Hinit Hrate Hwin.
  assert (Hw : (0 < 1 / rate)%Q).
  { apply Qlt_shift_div_l; [exact Hrate|]. rewrite Qmult_0_l. reflexivity. }
  destruct (init_Done_inv _ _ _ Hinit) as (first & rest & m & -> & _ & Hrows & ->).
  unfold BinnedSpikeTrain.column_sums.
  cbn [BinnedSpikeTrain.matrix BinnedSpikeTrain.num_bins].
  rewrite column_sums_total.
  - apply (rows_sum_in_window _ _ _ Hw _ _ Hrows).
    intros st Hst x Hx. exact (Hwin st Hst x Hx).
  - eapply Forall_impl; [|exact (rows_Done _ _ _ _ _ _ Hrows)].
    cbv beta. intros r [ts ->]. apply row_length.
Qed.

Lemma spikes_on_grid_in_window (spiketrains : list pyobj) (rate : Q) :
  (0 < rate)%Q ->
  spikes_on_grid spiketrains rate -> spikes_in_window spiketrains rate.
Proof.
  intros Hrate Hgrid st Hst x Hx.
  assert (Hw : (0 < 1 / rate)%Q).
  { apply Qlt_shift_div_l; [exact Hrate|]. rewrite Qmult_0_l. reflexivity. }
  destruct (Hgrid st Hst x Hx) as (k & Hk & E).
  pose proof (scaled_le 0 k (1 / rate) Hw ltac:(lia)) as H0.
  pose proof (scaled_le (S k) (axis_bins spiketrains rate) (1 / rate) Hw
                ltac:(lia)) as H1.
  rewrite scaled_succ in H1. change (inject_Z (Z.of_nat 0)) with 0%Q in H0.
  rewrite E. split; Lqa.lra.
Qed.

(** The intervals of the epoch, one for each group.  Interval [j] ends at
    the right edge of the last bin of group [j] less half a bin, and
    starts at the left edge of its first bin less half a bin, the first
    interval at the smaller of that and the start of the axis. *)
Lemma epoch_interval_at (fuel : nat) (spiketrains : list pyobj) (rate : Q)
  (spread : nat) (ep : Epoch) :
  precise_complexity_intervals fuel spiketrains rate spread = Done ep ->
  exists bst ivs,
    BinnedSpikeTrain.init spiketrains (1 / rate) = Done bst /\
    BinnedSpikeTrain.start bst = axis_start spiketrains /\
    BinnedSpikeTrain.num_bins bst = axis_bins spiketrains rate /\
    clusters (BinnedSpikeTrain.column_sums bst) spread ivs /\
    List.length (ep_times ep) = List.length ivs /\
    ivs <> [] /\
    Np.sum (ep_complexity ep) = Np.sum (BinnedSpikeTrain.column_sums bst) /\
    forall j a b, nth_error ivs j = Some (a, b) ->
      exists l d,
        nth_error (ep_times ep) j = Some l /\
        nth_error (ep_durations ep) j = Some d /\
        nth_error (ep_complexity ep) j
        = Some (bins_sum (BinnedSpikeTrain.column_sums bst) a b) /\
        d = ((axis_start spiketrains + inject_Z (Z.of_nat b) * (1 / rate)
              - (1 # 2) / rate) - l)%Q /\
        l = (if (j =? 0)%nat
             then Qmin (axis_start spiketrains)
                    (axis_start spiketrains + inject_Z (Z.of_nat a) * (1 / rate)
                     - (1 # 2) / rate)
             else axis_start spiketrains + inject_Z (Z.of_nat a) * (1 / rate)
                  - (1 # 2) / rate)%Q.
Proof.
  intros Hrun.
  destruct (precise_complexity_intervals_clusters _ _ _ _ _ Hrun)
    as (bst & first & rest & ab0 & ivs & -> & Hinit & Hcl & Hsum & Hc & Ht & Hd).
  destruct (init_Done_inv _ _ _ Hinit)
    as (first' & rest' & m & E & _ & _ & Hbst).
  injection E as <- <-.
  assert (Hstart : BinnedSpikeTrain.start bst = t_start first)
    by (subst bst; reflexivity).
  assert (Hsize : BinnedSpikeTrain.binsize bst = (1 / rate)%Q)
    by (subst bst; reflexivity).
  assert (Hbins : BinnedSpikeTrain.num_bins bst
                  = Z.to_nat (Qfloor ((t_stop first - t_start first) / (1 / rate))))
    by (subst bst; reflexivity).
  exists bst, (ab0 :: ivs). cbn [axis_start axis_bins].
  split; [exact Hinit|]. split; [exact Hstart|]. split; [exact Hbins|].
  split; [exact Hcl|].
  split; [rewrite Ht; cbn [List.length]; rewrite length_map; reflexivity|].
  split; [discriminate|]. split; [exact Hsum|].
  intros j a b Hj.
  assert (Hab : cluster (BinnedSpikeTrain.column_sums bst) spread a b).
  { apply (proj1 Hcl (a, b)). apply nth_error_In with j. exact Hj. }
  pose proof (cluster_range _ _ _ _ Hab) as Hrange.
  rewrite column_sums_length in Hrange.
  assert (Ea : nth a (BinnedSpikeTrain.bin_edges bst) 0%Q
               = (t_start first + inject_Z (Z.of_nat a) * (1 / rate))%Q).
  { rewrite bin_edges_nth_default by lia. rewrite Hstart, Hsize. reflexivity. }
  assert (Eb : nth b (BinnedSpikeTrain.bin_edges bst) 0%Q
               = (t_start first + inject_Z (Z.of_nat b) * (1 / rate))%Q).
  { rewrite bin_edges_nth_default by lia. rewrite Hstart, Hsize. reflexivity. }
  assert (Hl : exists l, nth_error (ep_times ep) j = Some l /\
            l = (if (j =? 0)%nat
                 then Qmin (t_start first)
                        (t_start first + inject_Z (Z.of_nat a) * (1 / rate)
                         - (1 # 2) / rate)
                 else t_start first + inject_Z (Z.of_nat a) * (1 / rate)
                      - (1 # 2) / rate)%Q).
  { rewrite Ht. destruct j as [|j]; cbn [nth_error Nat.eqb].
    - injection Hj as ->. cbn [fst]. rewrite Ea. eexists. split; reflexivity.
    - cbn [nth_error] in Hj. rewrite nth_error_map, Hj. cbn [option_map fst].
      rewrite Ea. eexists. split; reflexivity. }
  destruct Hl as (l & Hl & El).
  exists l, ((t_start first + inject_Z (Z.of_nat b) * (1 / rate)
              - (1 # 2) / rate) - l)%Q.
  split; [exact Hl|]. split.
  { rewrite Hd. apply zip_with_nth_error; [|exact Hl].
    rewrite nth_error_map, Hj. cbn [option_map snd]. rewrite Eb. reflexivity. }
  split; [rewrite Hc, nth_error_map, Hj; reflexivity|].
  split; [reflexivity|exact El].
Qed.

(** X1.  Whenever [precise_complexity_intervals] returns an epoch for
    spike trains whose spikes all lie in the binned part of the window
    (from the common start time up to, but not including, the last bin
    edge), with a positive sampling rate, the complexities of the epoch add
    up to the total number of spikes of the trains: every spike is counted
    in exactly one interval, for every spread. *)
Theorem complexities_add_up_to_spike_count (fuel : nat)
  (spiketrains : list pyobj) (rate : Q) (spread : nat) (ep : Epoch)
  (Hrate : (0 < rate)%Q)
  (Hwindow : spikes_in_window spiketrains rate)
  (Hrun : precise_complexity_intervals fuel spiketrains rate spread = Done ep) :
  Np.sum (ep_complexity ep) = Z.of_nat (total_spikes spiketrains).
Proof.
  destruct (epoch_interval_at _ _ _ _ _ Hrun)
    as (bst & ivs & Hinit & _ & _ & _ & _ & _ & Hsum & _).
  rewrite Hsum. exact (column_sums_count_spikes _ _ _ Hinit Hrate Hwindow).
Qed.

Lemma complexities_add_up_to_spike_count_witness :
  exists ep,
    precise_complexity_intervals 20 [Neo st1; Neo st2] 1 2 = Done ep /\
    Np.sum (ep_complexity ep) = 6.
Proof.
  eexists. split; [vm_compute; reflexivity|].
  apply (complexities_add_up_to_spike_count 20 [Neo st1; Neo st2] 1 2).
  - reflexivity.
  - apply spikes_on_grid_in_window; [reflexivity|].
    apply spikes_on_grid_b_true. vm_compute. reflexivity.
  - vm_compute. reflexivity.
Defined.

Lemma Forall_nth_error {A : Type} (P : A -> Prop) (l : list A) :
  (forall j x, nth_error l j = Some x -> P x) -> Forall P l.
Proof.
  intros H. apply Forall_forall. intros x Hx.
  destruct (In_nth_error _ _ Hx) as [j Hj]. exact (H j x Hj).
Qed.

Lemma cluster_sum_positive (bincount : list Z) (spread a b : nat) :
  nonneg bincount -> cluster bincount spread a b -> 1 <= bins_sum bincount a b.
Proof.
  intros Hnn Hc. pose proof (cluster_range _ _ _ _ Hc) as Hr.
  pose proof (cluster_first _ _ _ _ Hc) as Hf.
  rewrite (bins_sum_split bincount a (a + 1) b) by lia.
  rewrite bins_sum_one.
  pose proof (bins_sum_nonneg bincount (a + 1) b Hnn).
  assert (0 <= nth a bincount 0).
  { apply (proj1 (Forall_forall _ _) Hnn). apply nth_In. lia. }
  lia.
Qed.

Lemma bin_width_positive (rate : Q) : (0 < rate)%Q -> (0 < 1 / rate)%Q.
Proof.
  intros Hrate. apply Qlt_shift_div_l; [exact Hrate|].
  rewrite Qmult_0_l. reflexivity.
Qed.

(** X2.  Whenever [precise_complexity_intervals] returns an epoch, for a
    positive sampling rate: the epoch has at least one interval, its
    times, durations and complexities have the same length, every
    complexity is at least 1 and every duration is at least one bin width
    [1 / sampling_rate]. *)
Theorem intervals_hold_a_spike_and_last_a_bin (fuel : nat)
  (spiketrains : list pyobj) (rate : Q) (spread : nat) (ep : Epoch)
  (Hrate : (0 < rate)%Q)
  (Hrun : precise_complexity_intervals fuel spiketrains rate spread = Done ep) :
  ep_times ep <> [] /\
  List.length (ep_durations ep) = List.length (ep_times ep) /\
  List.length (ep_complexity ep) = List.length (ep_times ep) /\
  Forall (fun c => 1 <= c) (ep_complexity ep) /\
  Forall (fun d => (1 / rate <= d)%Q) (ep_durations ep).
Proof.
  destruct (precise_complexity_intervals_lengths _ _ _ _ _ Hrun) as [Hld Hlc].
  destruct (epoch_interval_at _ _ _ _ _ Hrun)
    as (bst & ivs & Hinit & _ & _ & Hcl & Hlen & Hne & _ & Hat).
  pose proof (column_sums_nonneg _ _ _ Hinit) as Hnn.
  pose proof (bin_width_positive rate Hrate) as Hw.
  assert (Hiv : forall j, (j < List.length (ep_times ep))%nat ->
            exists a b, nth_error ivs j = Some (a, b) /\
              cluster (BinnedSpikeTrain.column_sums bst) spread a b).
  { intros j Hj. rewrite Hlen in Hj.
    destruct (nth_error ivs j) as [[a b]|] eqn:E;
      [|apply nth_error_None in E; lia].
    exists a, b. split; [reflexivity|].
    apply (proj1 Hcl (a, b)). apply nth_error_In with j. exact E. }
  split.
  { intros E. apply Hne. apply length_zero_iff_nil. rewrite <- Hlen, E.
    reflexivity. }
  split; [exact Hld|]. split; [exact Hlc|]. split.
  - apply Forall_nth_error. intros j c Hc.
    destruct (Hiv j) as (a & b & Hj & Hab).
    { rewrite <- Hlc. apply nth_error_Some. congruence. }
    destruct (Hat j a b Hj) as (l & d & _ & _ & Hc' & _).
    rewrite Hc in Hc'. injection Hc' as ->.
    exact (cluster_sum_positive _ _ _ _ Hnn Hab).
  - apply Forall_nth_error. intros j d Hd.
    destruct (Hiv j) as (a & b & Hj & Hab).
    { rewrite <- Hld. apply nth_error_Some. congruence. }
    destruct (Hat j a b Hj) as (l & d' & _ & Hd' & _ & -> & Hl).
    rewrite Hd in Hd'. injection Hd' as ->.
    pose proof (cluster_range _ _ _ _ Hab) as Hr.
    pose proof (scaled_le (S a) b (1 / rate) Hw ltac:(lia)) as Hab'.
    rewrite scaled_succ in Hab'.
    assert (Hle : (l <= axis_start spiketrains
                        + inject_Z (Z.of_nat a) * (1 / rate) - (1 # 2) / rate)%Q).
    { rewrite Hl. destruct (j =? 0)%nat; [apply Q.le_min_r|apply Qle_refl]. }
    Lqa.lra.
Qed.

Lemma intervals_hold_a_spike_and_last_a_bin_witness :
  exists ep,
    precise_complexity_intervals 20 [Neo st1; Neo st2] 1 1 = Done ep /\
    ep_times ep <> [] /\
    List.length (ep_durations ep) = List.length (ep_times ep) /\
    List.length (ep_complexity ep) = List.length (ep_times ep) /\
    Forall (fun c => 1 <= c) (ep_complexity ep) /\
    Forall (fun d => (1 / 1 <= d)%Q) (ep_durations ep).
Proof.
  eexists. split; [vm_compute; reflexivity|].
  apply (intervals_hold_a_spike_and_last_a_bin 20 [Neo st1; Neo st2] 1 1).
  - reflexivity.
  - vm_compute. reflexivity.
Defined.

(** The end of an interval, moved right by [spread] bins, is at or
    before the start of every later interval. *)
Lemma intervals_separated_aux (fuel : nat)
  (spiketrains : list pyobj) (rate : Q) (spread : nat) (ep : Epoch) :
  (0 < rate)%Q ->
  precise_complexity_intervals fuel spiketrains rate spread = Done ep ->
  forall j1 j2 l1 d1 l2, (j1 < j2)%nat ->
    nth_error (ep_times ep) j1 = Some l1 ->
    nth_error (ep_durations ep) j1 = Some d1 ->
    nth_error (ep_times ep) j2 = Some l2 ->
    (l1 + d1 + inject_Z (Z.of_nat spread) * (1 / rate) <= l2)%Q.
Proof.
  intros Hrate Hrun.
  intros j1 j2 l1 d1 l2 Hj Hl1 Hd1 Hl2.
  destruct (epoch_interval_at _ _ _ _ _ Hrun)
    as (bst & ivs & Hinit & _ & _ & Hcl & Hlen & _ & _ & Hat).
  pose proof (bin_width_positive rate Hrate) as Hw.
  assert (Hiv : forall j l, nth_error (ep_times ep) j = Some l ->
            exists a b, nth_error ivs j = Some (a, b)).
  { intros j l Hl.
    assert (j < List.length ivs)%nat
      by (rewrite <- Hlen; apply nth_error_Some; congruence).
    destruct (nth_error ivs j) as [[a b]|] eqn:E;
      [|apply nth_error_None in E; lia].
    exists a, b. reflexivity. }
  destruct (Hiv j1 l1 Hl1) as (a1 & b1 & E1).
  destruct (Hiv j2 l2 Hl2) as (a2 & b2 & E2).
  destruct (Hat j1 a1 b1 E1) as (l & d & Hl & Hd & _ & -> & _).
  rewrite Hl1 in Hl. injection Hl as <-. rewrite Hd1 in Hd. injection Hd as ->.
  destruct (Hat j2 a2 b2 E2) as (l & d & Hl & _ & _ & _ & El).
  rewrite Hl2 in Hl. injection Hl as <-.
  destruct (Nat.eqb_spec j2 0) as [|_]; [lia|]. subst l2.
  pose proof (proj1 (proj2 Hcl) j1 j2 (a1, b1) (a2, b2) Hj E1 E2) as Hord.
  cbn [fst snd] in Hord.
  pose proof (scaled_le (b1 + spread) a2 (1 / rate) Hw Hord) as H.
  rewrite Nat2Z.inj_add, inject_Z_plus in H. Lqa.lra.
Qed.


(** X3.  Whenever [precise_complexity_intervals] returns an epoch, for a
    positive sampling rate, its intervals are listed from left to right
    and are at least [spread] bin widths apart: the end of an interval
    (its time plus its duration) plus [spread / sampling_rate] is at or
    before the start of every later interval.  In particular no two
    intervals overlap. *)
Theorem intervals_are_separated (fuel : nat)
  (spiketrains : list pyobj) (rate : Q) (spread : nat) (ep : Epoch)
  (Hrate : (0 < rate)%Q)
  (Hrun : precise_complexity_intervals fuel spiketrains rate spread = Done ep) :
  forall j1 j2 l1 d1 l2, (j1 < j2)%nat ->
    nth_error (ep_times ep) j1 = Some l1 ->
    nth_error (ep_durations ep) j1 = Some d1 ->
    nth_error (ep_times ep) j2 = Some l2 ->
    (l1 + d1 + inject_Z (Z.of_nat spread) * (1 / rate) <= l2)%Q.
Proof.
  exact (intervals_separated_aux fuel spiketrains rate spread ep Hrate Hrun).
Qed.

Lemma intervals_are_separated_witness :
  exists ep,
    precise_complexity_intervals 20 [Neo st1; Neo st2] 1 2 = Done ep /\
    forall j1 j2 l1 d1 l2, (j1 < j2)%nat ->
      nth_error (ep_times ep) j1 = Some l1 ->
      nth_error (ep_durations ep) j1 = Some d1 ->
      nth_error (ep_times ep) j2 = Some l2 ->
      (l1 + d1 + inject_Z (Z.of_nat 2) * (1 / 1) <= l2)%Q.
Proof.
  eexists. split; [vm_compute; reflexivity|].
  apply (intervals_are_separated 20 [Neo st1; Neo st2] 1 2).
  - reflexivity.
  - vm_compute. reflexivity.
Defined.

(** ** The bins and the spikes in them *)

Lemma rows_Done_In t0 t1 w n (l : list pyobj) (m : list (list Z)) (r : list Z) :
  BinnedSpikeTrain.rows t0 t1 w n l = Done m -> In r m ->
  exists st, In (Neo st) l /\ r = BinnedSpikeTrain.row t0 t1 w n (times st).
Proof.
  revert m. induction l as [|o l IH]; intros m H Hr;
    cbn [BinnedSpikeTrain.rows] in H.
  - injection H as <-. contradiction.
  - destruct o as [st|]; [|discriminate].
    destruct (BinnedSpikeTrain.rows t0 t1 w n l) as [rs| |]; try discriminate.
    cbn [bind] in H. injection H as <-. destruct Hr as [<-|Hr].
    + exists st. split; [left; reflexivity|reflexivity].
    + destruct (IH rs eq_refl Hr) as (st' & Hin & E).
      exists st'. split; [right; exact Hin|exact E].
Qed.

Lemma sum_nonzero_exists {A : Type} (f : A -> Z) (l : list A) :
  Np.sum (map f l) <> 0 -> exists x, In x l /\ f x <> 0.
Proof.
  induction l as [|x l IH]; simpl; intros H; [congruence|].
  destruct (Z.eq_dec (f x) 0) as [E|E].
  - destruct IH as (y & Hy & Hf); [lia|]. exists y. split; [right|]; assumption.
  - exists x. split; [left; reflexivity|exact E].
Qed.

(** A bin that is not empty holds a spike of one of the trains. *)
Lemma bincount_nonzero_has_spike (spiketrains : list pyobj) (w : Q)
  (bst : BinnedSpikeTrain.t) (k : nat) :
  BinnedSpikeTrain.init spiketrains w = Done bst ->
  nth k (BinnedSpikeTrain.column_sums bst) 0 <> 0 ->
  exists first st x,
    nth_error spiketrains 0 = Some (Neo first) /\
    In (Neo st) spiketrains /\ In x (times st) /\
    BinnedSpikeTrain.in_bin (t_start first) (t_stop first) w
      (BinnedSpikeTrain.num_bins bst) k x = true.
Proof.
  intros Hinit Hk.
  pose proof (nth_nonzero_in_range _ _ Hk) as Hlt.
  rewrite column_sums_length in Hlt.
  destruct (init_Done_inv _ _ _ Hinit) as (first & rest & m & -> & _ & Hrows & ->).
  cbn [BinnedSpikeTrain.num_bins] in *.
  unfold BinnedSpikeTrain.column_sums in Hk.
  cbn [BinnedSpikeTrain.matrix BinnedSpikeTrain.num_bins] in Hk.
  rewrite (nth_map_seq (fun k => Np.sum (map (fun r => nth k r 0) m))) in Hk
    by exact Hlt.
  destruct (sum_nonzero_exists _ _ Hk) as (r & Hr & Hnz).
  destruct (rows_Done_In _ _ _ _ _ _ _ Hrows Hr) as (st & Hst & ->).
  unfold BinnedSpikeTrain.row in Hnz.
  rewrite (nth_map_seq
             (fun k => Z.of_nat (List.length
                (filter (BinnedSpikeTrain.in_bin (t_start first) (t_stop first) w
                           (Z.to_nat (Qfloor ((t_stop first - t_start first) / w))) k)
                   (times st))))) in Hnz by exact Hlt.
  destruct (filter _ (times st)) as [|x xs] eqn:E; [simpl in Hnz; congruence|].
  assert (Hx : In x (filter
                       (BinnedSpikeTrain.in_bin (t_start first) (t_stop first) w
                          (Z.to_nat (Qfloor ((t_stop first - t_start first) / w))) k)
                       (times st))) by (rewrite E; left; reflexivity).
  apply filter_In in Hx. destruct Hx as [Hx Hb].
  exists first, st, x. split; [reflexivity|]. split; [exact Hst|].
  split; [exact Hx|exact Hb].
Qed.

(** The bin of a spike that the binned spike train counts is not empty. *)
Lemma bincount_positive_in_bin (spiketrains : list pyobj) (w : Q)
  (bst : BinnedSpikeTrain.t) (first st : SpikeTrain) (x : Q) (k : nat) :
  BinnedSpikeTrain.init spiketrains w = Done bst ->
  nth_error spiketrains 0 = Some (Neo first) ->
  In (Neo st) spiketrains -> In x (times st) ->
  BinnedSpikeTrain.in_bin (t_start first) (t_stop first) w
    (BinnedSpikeTrain.num_bins bst) k x = true ->
  0 < nth k (BinnedSpikeTrain.column_sums bst) 0.
Proof.
  intros Hinit Hfirst Hst Hx Hbin.
  destruct (init_Done_inv _ _ _ Hinit)
    as (first' & rest & m & -> & _ & Hrows & ->).
  injection Hfirst as ->.
  cbn [BinnedSpikeTrain.num_bins] in Hbin.
  assert (Hk : (k < Z.to_nat (Qfloor ((t_stop first - t_start first) / w)))%nat).
  { unfold BinnedSpikeTrain.in_bin in Hbin.
    apply andb_prop in Hbin. destruct Hbin as [_ Hbin].
    apply Nat.ltb_lt. exact Hbin. }
  unfold BinnedSpikeTrain.column_sums.
  cbn [BinnedSpikeTrain.matrix BinnedSpikeTrain.num_bins].
  rewrite (nth_map_seq (fun k => Np.sum (map (fun r => nth k r 0) m)))
    by exact Hk.
  pose proof (rows_Done_each _ _ _ _ _ _ Hrows st Hst) as Hrow.
  apply Z.lt_le_trans with
    (nth k (BinnedSpikeTrain.row (t_start first) (t_stop first) w
              (Z.to_nat (Qfloor ((t_stop first - t_start first) / w)))
              (times st)) 0).
  - apply row_entry_positive with (x := x); assumption.
  - apply sum_ge_member.
    + apply Forall_map.
      eapply Forall_impl; [|exact (rows_Done _ _ _ _ _ _ Hrows)].
      cbv beta. intros r [ts ->]. apply row_entry_nonneg.
    + apply in_map_iff. eexists. split; [reflexivity|exact Hrow].
Qed.

(** The spikes that the binned spike train counts in bin [k] are the ones
    from the left edge of the bin up to, but not including, its right
    edge. *)
Lemma in_bin_iff (t0 t1 w x : Q) (k : nat) :
  (0 < w)%Q ->
  (k < Z.to_nat (Qfloor ((t1 - t0) / w)))%nat ->
  BinnedSpikeTrain.in_bin t0 t1 w (Z.to_nat (Qfloor ((t1 - t0) / w))) k x = true
  <-> (t0 + inject_Z (Z.of_nat k) * w <= x)%Q /\
      (x < t0 + inject_Z (Z.of_nat (S k)) * w)%Q.
Proof.
  intros Hw Hk. set (n := Z.to_nat (Qfloor ((t1 - t0) / w))) in *.
  pose proof (scaled_le 0 k w Hw ltac:(lia)) as H0.
  change (inject_Z (Z.of_nat 0)) with 0%Q in H0.
  pose proof (scaled_le (S k) n w Hw ltac:(lia)) as H1.
  pose proof (Qfloor_le_self_div (t1 - t0) w n Hw ltac:(unfold n; lia) ltac:(lia))
    as H2.
  unfold BinnedSpikeTrain.in_bin, BinnedSpikeTrain.bin_index. split.
  - intros H. apply andb_prop in H. destruct H as [H _].
    apply andb_prop in H. destruct H as [_ H]. apply Z.eqb_eq in H.
    destruct (bin_of_floor w Hw (x - t0) k H) as [Ha Hb]. split; Lqa.lra.
  - intros [Ha Hb].
    assert (E0 : Qle_bool t0 x = true) by (apply Qle_bool_iff; Lqa.lra).
    assert (E1 : Qle_bool x t1 = true) by (apply Qle_bool_iff; Lqa.lra).
    assert (E2 : Qfloor ((x - t0) / w) = Z.of_nat k)
      by (apply (floor_of_bin w Hw); Lqa.lra).
    rewrite E0, E1, E2, Z.eqb_refl. cbn [andb]. apply Nat.ltb_lt. exact Hk.
Qed.

(** ** The start of the first interval *)

(** X4.  Whenever [precise_complexity_intervals] returns an epoch, for a
    positive sampling rate: every train starts at the start of the axis;
    the first interval starts there when no spike lies in the first bin,
    and half a bin before it, at [t_start - 0.5 / sampling_rate], when a
    spike lies in the first bin.  So the statement
    [left_edges[0] = min(min_t_start, left_edges[0])] never moves the start
    of the first interval to the right. *)
Theorem first_interval_start (fuel : nat)
  (spiketrains : list pyobj) (rate : Q) (spread : nat) (ep : Epoch)
  (Hrate : (0 < rate)%Q)
  (Hrun : precise_complexity_intervals fuel spiketrains rate spread = Done ep) :
  (forall st, In (Neo st) spiketrains ->
     (t_start st == axis_start spiketrains)%Q) /\
  exists l0,
    nth_error (ep_times ep) 0 = Some l0 /\
    (spike_in_first_bin spiketrains rate ->
       (l0 == axis_start spiketrains - (1 # 2) / rate)%Q) /\
    (~ spike_in_first_bin spiketrains rate ->
       (l0 == axis_start spiketrains)%Q).
Proof.
  pose proof (bin_width_positive rate Hrate) as Hw.
  assert (Hhalf : ((1 # 2) / rate + (1 # 2) / rate == 1 / rate)%Q)
    by (field; apply Qlt_nonzero; exact Hrate).
  split.
  { destruct (precise_complexity_intervals_Done_inv _ _ _ _ _ Hrun)
      as (_ & _ & _ & _ & _ & _ & Hcheck & _).
    destruct (check_Done_inv _ Hcheck) as (first & rest & -> & Hall).
    intros st Hst. destruct (Hall _ Hst) as (st' & E & H1 & _).
    injection E as <-. exact H1. }
  destruct (epoch_interval_at _ _ _ _ _ Hrun)
    as (bst & ivs & Hinit & Hstart & Hbins & Hcl & Hlen & Hne & _ & Hat).
  destruct ivs as [|[a0 b0] ivs]; [congruence|].
  destruct (Hat 0%nat a0 b0 eq_refl) as (l0 & d0 & Hl0 & _ & _ & _ & El0).
  cbn [Nat.eqb] in El0.
  assert (Hc0 : cluster (BinnedSpikeTrain.column_sums bst) spread a0 b0)
    by (apply (proj1 Hcl (a0, b0)); left; reflexivity).
  pose proof (cluster_range _ _ _ _ Hc0) as Hr0.
  rewrite column_sums_length in Hr0.
  destruct (init_Done_inv _ _ _ Hinit) as (first & rest & m & Hsts & _ & _ & Hbst).
  assert (Hfirst : nth_error spiketrains 0 = Some (Neo first))
    by (rewrite Hsts; reflexivity).
  assert (Hax : axis_start spiketrains = t_start first)
    by (rewrite Hsts; reflexivity).
  assert (Hn : BinnedSpikeTrain.num_bins bst
               = Z.to_nat (Qfloor ((t_stop first - t_start first) / (1 / rate))))
    by (rewrite Hbst; reflexivity).
  exists l0. split; [exact Hl0|]. split.
  - intros (st & x & Hst & Hx & Hlo & Hhi).
    assert (Hbin : BinnedSpikeTrain.in_bin (t_start first) (t_stop first) (1 / rate)
                     (BinnedSpikeTrain.num_bins bst) 0 x = true).
    { rewrite Hn. apply in_bin_iff; [exact Hw|lia|].
      rewrite <- Hax. change (inject_Z (Z.of_nat 0)) with 0%Q.
      change (inject_Z (Z.of_nat 1)) with 1%Q. split; Lqa.lra. }
    pose proof (bincount_positive_in_bin _ _ _ _ _ _ _ Hinit Hfirst Hst Hx Hbin)
      as Hpos.
    destruct (proj2 (proj2 Hcl) 0%nat ltac:(lia)) as (ab & Hab & Hk).
    destruct (In_nth_error _ _ Hab) as [j Hj].
    assert (Ha0 : a0 = 0%nat).
    { destruct j as [|j].
      - cbn [nth_error] in Hj. injection Hj as <-. cbn [fst] in Hk. lia.
      - pose proof (proj1 (proj2 Hcl) 0%nat (S j) (a0, b0) ab ltac:(lia)
                      eq_refl Hj) as Hord.
        cbn [fst snd] in Hord. lia. }
    subst a0. rewrite El0. change (inject_Z (Z.of_nat 0)) with 0%Q.
    rewrite Q.min_r; Lqa.lra.
  - intros Hnone.
    assert (Ha0 : a0 <> 0%nat).
    { intros ->. apply Hnone.
      destruct (bincount_nonzero_has_spike _ _ _ _ Hinit
                  (cluster_first _ _ _ _ Hc0))
        as (first' & st & x & Hf' & Hst & Hx & Hbin).
      rewrite Hfirst in Hf'. injection Hf' as <-.
      rewrite Hn in Hbin. apply in_bin_iff in Hbin; [|exact Hw|lia].
      change (inject_Z (Z.of_nat 0)) with 0%Q in Hbin.
      change (inject_Z (Z.of_nat 1)) with 1%Q in Hbin.
      exists st, x. rewrite Hax.
      split; [exact Hst|]. split; [exact Hx|]. split; Lqa.lra. }
    pose proof (scaled_le 1 a0 (1 / rate) Hw ltac:(lia)) as H1.
    change (inject_Z (Z.of_nat 1)) with 1%Q in H1.
    rewrite El0. rewrite Q.min_l; [reflexivity|Lqa.lra].
Qed.

Lemma first_interval_start_witness :
  exists ep,
    precise_complexity_intervals 20 [Neo st1; Neo st2] 1 1 = Done ep /\
    (forall st, In (Neo st) [Neo st1; Neo st2] ->
       (t_start st == axis_start [Neo st1; Neo st2])%Q) /\
    exists l0,
      nth_error (ep_times ep) 0 = Some l0 /\
      (spike_in_first_bin [Neo st1; Neo st2] 1 ->
         (l0 == axis_start [Neo st1; Neo st2] - (1 # 2) / 1)%Q) /\
      (~ spike_in_first_bin [Neo st1; Neo st2] 1 ->
         (l0 == axis_start [Neo st1; Neo st2])%Q).
Proof.
  eexists. split; [vm_compute; reflexivity|].
  apply (first_interval_start 20 [Neo st1; Neo st2] 1 1).
  - reflexivity.
  - vm_compute. reflexivity.
Defined.

(** ** Synchronous spikes *)

Lemma scaled_lt_inv (a b : nat) (w : Q) :
  (0 < w)%Q ->
  (inject_Z (Z.of_nat a) * w < inject_Z (Z.of_nat b) * w)%Q -> (a < b)%nat.
Proof.
  intros Hw H. destruct (Nat.lt_ge_cases a b) as [Hlt|Hge]; [exact Hlt|].
  exfalso. pose proof (scaled_le b a w Hw Hge). Lqa.lra.
Qed.

Lemma scaled_le_inv (a b : nat) (w : Q) :
  (0 < w)%Q ->
  (inject_Z (Z.of_nat a) * w <= inject_Z (Z.of_nat b) * w)%Q -> (a <= b)%nat.
Proof.
  intros Hw H. destruct (Nat.le_gt_cases a b) as [Hle|Hgt]; [exact Hle|].
  exfalso. pose proof (scaled_le (S b) a w Hw Hgt) as H'.
  rewrite scaled_succ in H'. Lqa.lra.
Qed.

(** The intervals of the epoch and the spikes on the bin grid: a spike
    at the left edge of a bin of group [j] lies in interval [j], and in
    no other interval. *)
Lemma epoch_grid_intervals (fuel : nat) (spiketrains : list pyobj) (rate : Q)
  (spread : nat) (ep : Epoch) :
  precise_complexity_intervals fuel spiketrains rate spread = Done ep ->
  (0 < rate)%Q ->
  exists bst ivs,
    BinnedSpikeTrain.init spiketrains (1 / rate) = Done bst /\
    BinnedSpikeTrain.start bst = axis_start spiketrains /\
    BinnedSpikeTrain.num_bins bst = axis_bins spiketrains rate /\
    clusters (BinnedSpikeTrain.column_sums bst) spread ivs /\
    (forall j a b k x,
        nth_error ivs j = Some (a, b) -> (a <= k < b)%nat ->
        (x == axis_start spiketrains + inject_Z (Z.of_nat k) * (1 / rate))%Q ->
        in_interval ep j x) /\
    (forall j j' x, in_interval ep j x -> in_interval ep j' x -> j = j') /\
    List.length (ep_complexity ep) = List.length ivs /\
    (forall j a b, nth_error ivs j = Some (a, b) ->
       nth_error (ep_complexity ep) j
       = Some (bins_sum (BinnedSpikeTrain.column_sums bst) a b)) /\
    (forall j a b k x l,
        nth_error ivs j = Some (a, b) -> (a <= k)%nat ->
        (x == axis_start spiketrains + inject_Z (Z.of_nat k) * (1 / rate))%Q ->
        nth_error (ep_times ep) j = Some l -> (l < x)%Q).
Proof.
  intros Hrun Hrate.
  pose proof (bin_width_positive rate Hrate) as Hw.
  assert (Hhalf : ((1 # 2) / rate + (1 # 2) / rate == 1 / rate)%Q)
    by (field; apply Qlt_nonzero; exact Hrate).
  destruct (epoch_interval_at _ _ _ _ _ Hrun)
    as (bst & ivs & Hinit & Hstart & Hbins & Hcl & Hlen & Hne & _ & Hat).
  exists bst, ivs. split; [exact Hinit|]. split; [exact Hstart|].
  split; [exact Hbins|]. split; [exact Hcl|]. split.
  - intros j a b k x Hj Hk Hx.
    destruct (Hat j a b Hj) as (l & d & Hl & Hd & Hc & -> & El).
    exists l, ((axis_start spiketrains + inject_Z (Z.of_nat b) * (1 / rate)
                - (1 # 2) / rate) - l)%Q,
      (bins_sum (BinnedSpikeTrain.column_sums bst) a b).
    split; [exact Hl|]. split; [exact Hd|]. split; [exact Hc|].
    pose proof (scaled_le a k (1 / rate) Hw ltac:(lia)) as H1.
    pose proof (scaled_le (S k) b (1 / rate) Hw ltac:(lia)) as H2.
    rewrite scaled_succ in H2.
    assert (Hle : (l <= axis_start spiketrains
                        + inject_Z (Z.of_nat a) * (1 / rate) - (1 # 2) / rate)%Q).
    { rewrite El. destruct (j =? 0)%nat; [apply Q.le_min_r|apply Qle_refl]. }
    split; Lqa.lra.
  - assert (Hlt : forall j j' x, (j < j')%nat ->
              in_interval ep j x -> in_interval ep j' x -> False).
    { intros j j' x Hjj (l & d & c & Hl & Hd & _ & _ & Hhi)
        (l' & d' & c' & Hl' & _ & _ & Hlo & _).
      pose proof (intervals_separated_aux fuel spiketrains rate spread ep Hrate Hrun
                    j j' l d l' Hjj Hl Hd Hl') as Hsep.
      pose proof (scaled_le 0 spread (1 / rate) Hw ltac:(lia)) as H0.
      change (inject_Z (Z.of_nat 0)) with 0%Q in H0. Lqa.lra. }
    split; [|split; [|split]].
    + intros j j' x Hj Hj'.
      destruct (Nat.lt_trichotomy j j') as [H|[H|H]]; [|exact H|].
      * exfalso. exact (Hlt j j' x H Hj Hj').
      * exfalso. exact (Hlt j' j x H Hj' Hj).
    + rewrite <- Hlen.
      exact (proj2 (precise_complexity_intervals_lengths _ _ _ _ _ Hrun)).
    + intros j a b Hj. destruct (Hat j a b Hj) as (l & d & _ & _ & Hc & _).
      exact Hc.
    + intros j a b k x l Hj Hk Hx Hl.
      destruct (Hat j a b Hj) as (l' & d & Hl' & _ & _ & _ & El).
      rewrite Hl in Hl'. injection Hl' as <-.
      pose proof (scaled_le a k (1 / rate) Hw Hk) as H1.
      assert (Hle : (l <= axis_start spiketrains
                          + inject_Z (Z.of_nat a) * (1 / rate) - (1 # 2) / rate)%Q).
      { rewrite El. destruct (j =? 0)%nat; [apply Q.le_min_r|apply Qle_refl]. }
      Lqa.lra.
Qed.

(** X5.  Whenever [precise_complexity_intervals] returns an epoch, for a
    positive sampling rate: two spikes on the bin grid, of the same train
    or of two trains, that are at most [spread] bin widths apart lie in
    one and the same interval of the epoch.  (With [spread = 0] these are
    the spikes of one bin.) *)
Theorem close_spikes_share_an_interval (fuel : nat)
  (spiketrains : list pyobj) (rate : Q) (spread : nat) (ep : Epoch)
  (sx sy : SpikeTrain) (x y : Q)
  (Hrate : (0 < rate)%Q)
  (Hrun : precise_complexity_intervals fuel spiketrains rate spread = Done ep)
  (Hsx : In (Neo sx) spiketrains) (Hx : In x (times sx))
  (Hsy : In (Neo sy) spiketrains) (Hy : In y (times sy))
  (Hgx : on_bin_grid (axis_start spiketrains) (1 / rate)
           (axis_bins spiketrains rate) x)
  (Hgy : on_bin_grid (axis_start spiketrains) (1 / rate)
           (axis_bins spiketrains rate) y)
  (Hxy : (x <= y)%Q)
  (Hclose : (y <= x + inject_Z (Z.of_nat spread) * (1 / rate))%Q) :
  exists j, in_interval ep j x /\ in_interval ep j y.
Proof.
  pose proof (bin_width_positive rate Hrate) as Hw.
  destruct (epoch_grid_intervals _ _ _ _ _ Hrun Hrate)
    as (bst & ivs & Hinit & Hstart & Hbins & Hcl & Hin & _).
  destruct Hgx as [kx Hkx]. destruct Hgy as [ky Hky].
  assert (Hpx : 0 < nth kx (BinnedSpikeTrain.column_sums bst) 0).
  { apply (bincount_positive_at_spike spiketrains (1 / rate) bst sx x kx);
      try assumption. rewrite Hstart, Hbins. exact Hkx. }
  assert (Hpy : 0 < nth ky (BinnedSpikeTrain.column_sums bst) 0).
  { apply (bincount_positive_at_spike spiketrains (1 / rate) bst sy y ky);
      try assumption. rewrite Hstart, Hbins. exact Hky. }
  destruct Hkx as [_ Ex]. destruct Hky as [_ Ey].
  assert (Hle : (kx <= ky)%nat).
  { apply (scaled_le_inv kx ky (1 / rate) Hw). Lqa.lra. }
  assert (Hle' : (ky <= kx + spread)%nat).
  { apply (scaled_le_inv ky (kx + spread) (1 / rate) Hw).
    rewrite Nat2Z.inj_add, inject_Z_plus. Lqa.lra. }
  destruct (proj2 (proj2 Hcl) kx ltac:(lia)) as ([ax bx] & Habx & Hrx).
  destruct (proj2 (proj2 Hcl) ky ltac:(lia)) as ([ay by'] & Haby & Hry).
  cbn [fst snd] in Hrx, Hry.
  destruct (In_nth_error _ _ Habx) as [jx Hjx].
  destruct (In_nth_error _ _ Haby) as [jy Hjy].
  assert (Hj : jx = jy).
  { destruct (Nat.lt_trichotomy jx jy) as [H|[H|H]]; [|exact H|].
    - pose proof (proj1 (proj2 Hcl) jx jy _ _ H Hjx Hjy) as Ho.
      cbn [fst snd] in Ho. lia.
    - pose proof (proj1 (proj2 Hcl) jy jx _ _ H Hjy Hjx) as Ho.
      cbn [fst snd] in Ho. lia. }
  subst jy. rewrite Hjx in Hjy. injection Hjy as <- <-.
  exists jx. split.
  - exact (Hin jx ax bx kx x Hjx Hrx Ex).
  - exact (Hin jx ax bx ky y Hjx Hry Ey).
Qed.

Lemma close_spikes_share_an_interval_witness :
  exists ep,
    precise_complexity_intervals 20 [Neo st1; Neo st2] 1 2 = Done ep /\
    exists j, in_interval ep j 6 /\ in_interval ep j 8.
Proof.
  eexists. split; [vm_compute; reflexivity|].
  apply (close_spikes_share_an_interval 20 [Neo st1; Neo st2] 1 2 _ st1 st2 6 8).
  - reflexivity.
  - vm_compute. reflexivity.
  - left. reflexivity.
  - right. right. left. reflexivity.
  - right. left. reflexivity.
  - right. right. left. reflexivity.
  - exists 6%nat. split; [vm_compute; lia|vm_compute; reflexivity].
  - exists 8%nat. split; [vm_compute; lia|vm_compute; reflexivity].
  - vm_compute. discriminate.
  - vm_compute. discriminate.
Defined.

(** X6.  Whenever [precise_complexity_intervals] returns an epoch for
    trains whose spikes all lie on the bin grid, for a positive sampling
    rate: a spike of an interval that is followed by a later spike of the
    same interval is followed, within [spread] bin widths, by a spike of
    that interval.  So an interval holds no gap of more than [spread - 1]
    empty bins, and with [spread = 0] all spikes of an interval have the
    same time. *)
Theorem interval_spikes_are_chained (fuel : nat)
  (spiketrains : list pyobj) (rate : Q) (spread : nat) (ep : Epoch)
  (sx sy : SpikeTrain) (x y : Q) (j : nat)
  (Hrate : (0 < rate)%Q)
  (Hgrid : spikes_on_grid spiketrains rate)
  (Hrun : precise_complexity_intervals fuel spiketrains rate spread = Done ep)
  (Hsx : In (Neo sx) spiketrains) (Hx : In x (times sx))
  (Hsy : In (Neo sy) spiketrains) (Hy : In y (times sy))
  (Hjx : in_interval ep j x) (Hjy : in_interval ep j y)
  (Hxy : (x < y)%Q) :
  exists sz z,
    In (Neo sz) spiketrains /\ In z (times sz) /\
    (x < z)%Q /\ (z <= x + inject_Z (Z.of_nat spread) * (1 / rate))%Q /\
    in_interval ep j z.
Proof.
  pose proof (bin_width_positive rate Hrate) as Hw.
  destruct (epoch_grid_intervals _ _ _ _ _ Hrun Hrate)
    as (bst & ivs & Hinit & Hstart & Hbins & Hcl & Hin & Hone & _).
  (* the group of a spike on the grid is the one of its interval *)
  assert (Hgroup : forall st u, In (Neo st) spiketrains -> In u (times st) ->
            in_interval ep j u ->
            exists k a b,
              (u == axis_start spiketrains + inject_Z (Z.of_nat k) * (1 / rate))%Q /\
              nth_error ivs j = Some (a, b) /\ (a <= k < b)%nat).
  { intros st u Hst Hu Hju. destruct (Hgrid st Hst u Hu) as [k Hk].
    assert (Hp : 0 < nth k (BinnedSpikeTrain.column_sums bst) 0).
    { apply (bincount_positive_at_spike spiketrains (1 / rate) bst st u k);
        try assumption. rewrite Hstart, Hbins. exact Hk. }
    destruct Hk as [_ Eu].
    destruct (proj2 (proj2 Hcl) k ltac:(lia)) as ([a b] & Hab & Hr).
    cbn [fst snd] in Hr. destruct (In_nth_error _ _ Hab) as [j' Hj'].
    pose proof (Hone j j' u Hju (Hin j' a b k u Hj' Hr Eu)) as <-.
    exists k, a, b. split; [exact Eu|]. split; [exact Hj'|exact Hr]. }
  destruct (Hgroup sx x Hsx Hx Hjx) as (kx & a & b & Ex & Hj & Hrx).
  destruct (Hgroup sy y Hsy Hy Hjy) as (ky & a' & b' & Ey & Hj' & Hry).
  rewrite Hj in Hj'. injection Hj' as <- <-.
  assert (Hlt : (kx < ky)%nat).
  { apply (scaled_lt_inv kx ky (1 / rate) Hw). Lqa.lra. }
  assert (Hc : cluster (BinnedSpikeTrain.column_sums bst) spread a b).
  { apply (proj1 Hcl (a, b)). apply nth_error_In with j. exact Hj. }
  destruct (cluster_chain _ _ _ _ Hc kx ltac:(lia) ltac:(lia))
    as (k' & Hk' & Hk'b & Hnz).
  destruct (bincount_nonzero_has_spike _ _ _ _ Hinit Hnz)
    as (first & sz & z & Hfirst & Hsz & Hz & Hbin).
  assert (Hsts : exists rest, spiketrains = Neo first :: rest).
  { destruct spiketrains as [|o rest]; [discriminate|].
    injection Hfirst as ->. exists rest. reflexivity. }
  destruct Hsts as [rest Hsts].
  pose proof (cluster_range _ _ _ _ Hc) as Hrange.
  rewrite column_sums_length, Hbins in Hrange.
  assert (Hn : axis_bins spiketrains rate
               = Z.to_nat (Qfloor ((t_stop first - t_start first) / (1 / rate))))
    by (rewrite Hsts; reflexivity).
  assert (Hax : axis_start spiketrains = t_start first)
    by (rewrite Hsts; reflexivity).
  rewrite Hbins, Hn in Hbin. apply in_bin_iff in Hbin; [|exact Hw|lia].
  rewrite <- Hax in Hbin. rewrite scaled_succ in Hbin.
  destruct (Hgrid sz Hsz z Hz) as (kz & _ & Ez).
  assert (Hkz : kz = k').
  { assert (k' <= kz)%nat
      by (apply (scaled_le_inv k' kz (1 / rate) Hw); Lqa.lra).
    assert (kz < S k')%nat.
    { apply (scaled_lt_inv kz (S k') (1 / rate) Hw). rewrite scaled_succ.
      Lqa.lra. }
    lia. }
  subst kz.
  pose proof (scaled_le (S kx) k' (1 / rate) Hw ltac:(lia)) as H1.
  rewrite scaled_succ in H1.
  pose proof (scaled_le k' (kx + spread) (1 / rate) Hw ltac:(lia)) as H2.
  rewrite Nat2Z.inj_add, inject_Z_plus in H2.
  exists sz, z. split; [exact Hsz|]. split; [exact Hz|].
  split; [Lqa.lra|]. split; [Lqa.lra|].
  apply (Hin j a b k' z Hj); [lia|exact Ez].
Qed.

Lemma interval_spikes_are_chained_witness :
  exists ep,
    precise_complexity_intervals 20 [Neo st1; Neo st2] 1 2 = Done ep /\
    exists sz z,
      In (Neo sz) [Neo st1; Neo st2] /\ In z (times sz) /\
      (4 < z)%Q /\ (z <= 4 + inject_Z (Z.of_nat 2) * (1 / 1))%Q /\
      in_interval ep 1 z.
Proof.
  eexists. split; [vm_compute; reflexivity|].
  apply (interval_spikes_are_chained 20 [Neo st1; Neo st2] 1 2 _ st1 st2 4 8 1).
  - reflexivity.
  - apply spikes_on_grid_b_true. vm_compute. reflexivity.
  - vm_compute. reflexivity.
  - left. reflexivity.
  - right. left. reflexivity.
  - right. left. reflexivity.
  - right. right. left. reflexivity.
  - eexists. eexists. eexists. split; [reflexivity|]. split; [reflexivity|].
    split; [reflexivity|]. split; vm_compute; [discriminate|reflexivity].
  - eexists. eexists. eexists. split; [reflexivity|]. split; [reflexivity|].
    split; [reflexivity|]. split; vm_compute; [discriminate|reflexivity].
  - vm_compute. reflexivity.
Defined.

(** ** The complexity is the number of spikes of the interval *)

Lemma sum_exchange (L : list nat) (m : list (list Z)) :
  Np.sum (map (fun k => Np.sum (map (fun r => nth k r 0) m)) L)
  = Np.sum (map (fun r => Np.sum (map (fun k => nth k r 0) L)) m).
Proof.
  induction m as [|r m IH]; cbn [map].
  - apply sum_map_zero.
  - change (Np.sum (map (fun k => nth k r 0 + Np.sum (map (fun r => nth k r 0) m)) L)
            = Np.sum (map (fun k => nth k r 0) L)
              + Np.sum (map (fun r => Np.sum (map (fun k => nth k r 0) L)) m)).
    rewrite sum_map_add, IH. reflexivity.
Qed.

Lemma slice_as_map (l : list Z) (a b : nat) :
  (b <= List.length l)%nat ->
  Np.slice l a b = map (fun k => nth k l 0) (seq a (b - a)).
Proof.
  intros Hb. apply (nth_ext _ _ 0 0).
  - unfold Np.slice. rewrite length_firstn, length_skipn, length_map, length_seq.
    lia.
  - intros i Hi. rewrite nth_slice.
    assert (Hi' : (i < b - a)%nat).
    { unfold Np.slice in Hi. rewrite length_firstn, length_skipn in Hi. lia. }
    destruct (Nat.ltb_spec i (b - a)); [|lia].
    rewrite (nth_indep (map _ _) 0 (nth 0 l 0))
      by (rewrite length_map, length_seq; lia).
    rewrite (map_nth (fun k => nth k l 0)), seq_nth by lia. reflexivity.
Qed.

Lemma rows_as_map t0 t1 w n (l : list pyobj) (m : list (list Z)) :
  BinnedSpikeTrain.rows t0 t1 w n l = Done m ->
  m = map (fun o => match o with
                    | Neo st => BinnedSpikeTrain.row t0 t1 w n (times st)
                    | Foreign => []
                    end) l.
Proof.
  revert m. induction l as [|o l IH]; intros m H;
    cbn [BinnedSpikeTrain.rows] in H.
  - injection H as <-. reflexivity.
  - destruct o as [st|]; [|discriminate].
    destruct (BinnedSpikeTrain.rows t0 t1 w n l) as [rs| |]; try discriminate.
    cbn [bind] in H. injection H as <-. cbn [map]. rewrite <- (IH rs eq_refl).
    reflexivity.
Qed.

Section Range.

Variables t0 t1 w : Q.
Hypothesis w_pos : (0 < w)%Q.

Local Abbreviation n := (Z.to_nat (Qfloor ((t1 - t0) / w))).

(** The entries of the row of a train over the bins [a], ..., [b - 1] add
    up to the number of its spikes whose bin is one of these. *)
Lemma row_range_sum (a b : nat) (ts : list Q) :
  (b <= n)%nat ->
  (forall x, In x ts ->
     (t0 <= x)%Q /\ (x < t0 + inject_Z (Z.of_nat n) * w)%Q) ->
  Np.sum (map (fun k => nth k (BinnedSpikeTrain.row t0 t1 w n ts) 0)
            (seq a (b - a)))
  = Z.of_nat (List.length
                (filter (fun x => (Z.of_nat a <=? BinnedSpikeTrain.bin_index t0 w x)
                                  && (BinnedSpikeTrain.bin_index t0 w x
                                      <? Z.of_nat (a + (b - a)))) ts)).
Proof.
  intros Hb. induction ts as [|x ts IH]; intros Hin.
  - cbn [filter List.length Z.of_nat].
    rewrite (map_ext_in _ (fun _ => 0)); [apply sum_map_zero|].
    intros k Hk. apply in_seq in Hk. unfold BinnedSpikeTrain.row.
    rewrite (nth_map_seq (fun k => Z.of_nat (List.length (filter _ [])))) by lia.
    reflexivity.
  - destruct (Hin x (or_introl eq_refl)) as [H0 H1].
    rewrite (map_ext_in _
               (fun k => (if BinnedSpikeTrain.bin_index t0 w x =? Z.of_nat k
                          then 1 else 0)
                         + nth k (BinnedSpikeTrain.row t0 t1 w n ts) 0)).
    + rewrite sum_map_add, IH by (intros y Hy; apply Hin; right; exact Hy).
      rewrite sum_indicator. cbn [filter].
      destruct ((Z.of_nat a <=? BinnedSpikeTrain.bin_index t0 w x)
                && (BinnedSpikeTrain.bin_index t0 w x <? Z.of_nat (a + (b - a))));
        cbn [List.length]; lia.
    + intros k Hk. apply in_seq in Hk. unfold BinnedSpikeTrain.row.
      rewrite !(nth_map_seq
                  (fun k => Z.of_nat (List.length
                     (filter (BinnedSpikeTrain.in_bin t0 t1 w n k) _)))) by lia.
      cbn [filter]. rewrite (in_bin_in_window t0 t1 w w_pos x k H0 H1) by lia.
      destruct (BinnedSpikeTrain.bin_index t0 w x =? Z.of_nat k);
        cbn [List.length]; lia.
Qed.

End Range.

Lemma count_spikes_ext (p q : Q -> bool) (l : list pyobj) :
  (forall st, In (Neo st) l -> forall x, In x (times st) -> p x = q x) ->
  count_spikes p l = count_spikes q l.
Proof.
  induction l as [|o l IH]; intros H; [reflexivity|].
  cbn [count_spikes fold_right]. fold (count_spikes p l) (count_spikes q l).
  rewrite IH by (intros st Hst; apply H; right; exact Hst).
  destruct o as [st|]; [|reflexivity].
  rewrite (filter_ext_in p q) by (apply (H st); left; reflexivity).
  reflexivity.
Qed.

(** The bin counts of the bins [a], ..., [b - 1] add up to the number of
    spikes whose bin is one of these. *)
Lemma bins_sum_counts_spikes (spiketrains : list pyobj) (rate : Q)
  (bst : BinnedSpikeTrain.t) (a b : nat) :
  BinnedSpikeTrain.init spiketrains (1 / rate) = Done bst ->
  (0 < rate)%Q ->
  spikes_in_window spiketrains rate ->
  (a <= b <= BinnedSpikeTrain.num_bins bst)%nat ->
  bins_sum (BinnedSpikeTrain.column_sums bst) a b
  = Z.of_nat
      (count_spikes
         (fun x =>
            (Z.of_nat a
             <=? BinnedSpikeTrain.bin_index (axis_start spiketrains) (1 / rate) x)
            && (BinnedSpikeTrain.bin_index (axis_start spiketrains) (1 / rate) x
                <? Z.of_nat b))
         spiketrains).
Proof.
  intros Hinit Hrate Hwin Hab.
  pose proof (bin_width_positive rate Hrate) as Hw.
  pose proof (column_sums_length bst) as Hlen.
  destruct (init_Done_inv _ _ _ Hinit) as (first & rest & m & E & _ & Hrows & ->).
  cbn [BinnedSpikeTrain.num_bins] in Hab, Hlen.
  unfold bins_sum. rewrite slice_as_map by lia.
  rewrite (map_ext_in _ (fun k => Np.sum (map (fun r => nth k r 0) m))).
  2:{ intros k Hk. apply in_seq in Hk. unfold BinnedSpikeTrain.column_sums.
      cbn [BinnedSpikeTrain.matrix BinnedSpikeTrain.num_bins].
      apply (nth_map_seq (fun k => Np.sum (map (fun r => nth k r 0) m))). lia. }
  rewrite sum_exchange.
  assert (Hax : axis_start spiketrains = t_start first) by (rewrite E; reflexivity).
  assert (Hn : axis_bins spiketrains rate
               = Z.to_nat (Qfloor ((t_stop first - t_start first) / (1 / rate))))
    by (rewrite E; reflexivity).
  rewrite Hax. unfold spikes_in_window in Hwin. rewrite Hax, Hn in Hwin.
  clear E Hinit Hax Hn Hlen. revert m Hrows Hwin.
  generalize spiketrains. intros l.
  set (n := Z.to_nat (Qfloor ((t_stop first - t_start first) / (1 / rate)))) in *.
  induction l as [|o l IH]; intros m Hrows Hwin;
    cbn [BinnedSpikeTrain.rows] in Hrows.
  - injection Hrows as <-. reflexivity.
  - destruct o as [st|]; [|discriminate].
    destruct (BinnedSpikeTrain.rows _ _ _ _ l) as [rs| |]; try discriminate.
    cbn [bind] in Hrows. injection Hrows as <-.
    cbn [map count_spikes fold_right].
    change (Np.sum (?x :: ?r)) with (x + Np.sum r).
    rewrite (IH rs eq_refl) by (intros st' H'; apply Hwin; right; exact H').
    unfold n. rewrite (row_range_sum _ _ _ Hw a b) by
      (try (fold n; lia); apply (Hwin st); left; reflexivity).
    replace (a + (b - a))%nat with b by lia.
    unfold count_spikes. lia.
Qed.

Lemma in_interval_b_true (ep : Epoch) (j : nat) (x : Q) :
  List.length (ep_complexity ep) = List.length (ep_times ep) ->
  in_interval_b ep j x = true <-> in_interval ep j x.
Proof.
  intros Hlen. unfold in_interval_b, in_interval. split.
  - destruct (nth_error (ep_times ep) j) as [l|] eqn:El; [|discriminate].
    destruct (nth_error (ep_durations ep) j) as [d|]; [|discriminate].
    intros H. apply andb_prop in H. destruct H as [H1 H2].
    apply Qle_bool_iff in H1. apply negb_true_iff in H2.
    destruct (nth_error (ep_complexity ep) j) as [c|] eqn:Ec.
    + exists l, d, c. repeat split; try reflexivity; [exact H1|].
      apply Qnot_le_lt. intros H. apply Qle_bool_iff in H. congruence.
    + apply nth_error_None in Ec.
      assert (nth_error (ep_times ep) j <> None) by congruence.
      apply nth_error_Some in H. lia.
  - intros (l & d & c & -> & -> & _ & H1 & H2).
    apply andb_true_intro. split; [apply Qle_bool_iff; exact H1|].
    apply negb_true_iff. apply not_true_is_false. intros H.
    apply Qle_bool_iff in H. Lqa.lra.
Qed.

(** The count of an interval is the number of spikes that lie in it. *)
Lemma interval_complexity_counts (fuel : nat)
  (spiketrains : list pyobj) (rate : Q) (spread : nat) (ep : Epoch)
  (j : nat) (c : Z)
  (Hrate : (0 < rate)%Q)
  (Hgrid : spikes_on_grid spiketrains rate)
  (Hrun : precise_complexity_intervals fuel spiketrains rate spread = Done ep)
  (Hc : nth_error (ep_complexity ep) j = Some c) :
  c = Z.of_nat (spikes_within ep j spiketrains).
Proof.
  pose proof (bin_width_positive rate Hrate) as Hw.
  destruct (epoch_grid_intervals _ _ _ _ _ Hrun Hrate)
    as (bst & ivs & Hinit & Hstart & Hbins & Hcl & Hin & Hone & Hlen & Hcomp & _).
  pose proof (proj2 (precise_complexity_intervals_lengths _ _ _ _ _ Hrun)) as Hlc.
  assert (Hj : (j < List.length ivs)%nat).
  { rewrite <- Hlen. apply nth_error_Some. congruence. }
  destruct (nth_error ivs j) as [[a b]|] eqn:Eab;
    [|apply nth_error_None in Eab; lia].
  rewrite (Hcomp j a b Eab) in Hc. injection Hc as <-.
  pose proof (proj1 Hcl (a, b) (nth_error_In _ _ Eab)) as Hcluster.
  pose proof (cluster_range _ _ _ _ Hcluster) as Hr. cbn [fst snd] in Hr.
  rewrite column_sums_length in Hr.
  rewrite (bins_sum_counts_spikes spiketrains rate bst a b Hinit Hrate
             (spikes_on_grid_in_window _ _ Hrate Hgrid)) by lia.
  f_equal. unfold spikes_within. apply count_spikes_ext.
  intros st Hst x Hx. destruct (Hgrid st Hst x Hx) as [k [Hk Ex]].
  assert (Ek : BinnedSpikeTrain.bin_index (axis_start spiketrains) (1 / rate) x
               = Z.of_nat k).
  { unfold BinnedSpikeTrain.bin_index. apply (floor_of_bin (1 / rate) Hw).
    - Lqa.lra.
    - rewrite scaled_succ. Lqa.lra. }
  rewrite Ek.
  destruct (in_interval_b ep j x) eqn:Eb.
  - apply (in_interval_b_true ep j x Hlc) in Eb.
    assert (Hpos : 0 < nth k (BinnedSpikeTrain.column_sums bst) 0).
    { apply (bincount_positive_at_spike spiketrains (1 / rate) bst st x k);
        try assumption. rewrite Hstart, Hbins. split; [exact Hk|exact Ex]. }
    destruct (proj2 (proj2 Hcl) k ltac:(lia)) as ([a' b'] & Hab' & Hk').
    cbn [fst snd] in Hk'. destruct (In_nth_error _ _ Hab') as [j' Ej'].
    pose proof (Hone j j' x Eb (Hin j' a' b' k x Ej' Hk' Ex)) as <-.
    rewrite Eab in Ej'. injection Ej' as <- <-.
    apply andb_true_intro. split; [apply Z.leb_le|apply Z.ltb_lt]; lia.
  - destruct (Z.leb_spec (Z.of_nat a) (Z.of_nat k)),
      (Z.ltb_spec (Z.of_nat k) (Z.of_nat b)); try reflexivity.
    exfalso. pose proof (Hin j a b k x Eab ltac:(lia) Ex) as H'.
    apply (in_interval_b_true ep j x Hlc) in H'. congruence.
Qed.

(** X19.  Whenever [precise_complexity_intervals] returns an epoch for
    trains whose spikes all lie on the bin grid, for a positive sampling
    rate: the complexity of every interval of the epoch is the number of
    spikes, of all trains together, whose time lies in that interval, from
    its start up to, but not including, its end. *)
Theorem complexity_is_the_spike_count_of_the_interval (fuel : nat)
  (spiketrains : list pyobj) (rate : Q) (spread : nat) (ep : Epoch)
  (j : nat) (c : Z)
  (Hrate : (0 < rate)%Q)
  (Hgrid : spikes_on_grid spiketrains rate)
  (Hrun : precise_complexity_intervals fuel spiketrains rate spread = Done ep)
  (Hc : nth_error (ep_complexity ep) j = Some c) :
  c = Z.of_nat (spikes_within ep j spiketrains).
Proof.
  exact (interval_complexity_counts fuel spiketrains rate spread ep j c
           Hrate Hgrid Hrun Hc).
Qed.

Lemma complexity_is_the_spike_count_of_the_interval_witness :
  exists ep,
    precise_complexity_intervals 20 [Neo st1; Neo st2] 1 2 = Done ep /\
    4 = Z.of_nat (spikes_within ep 1 [Neo st1; Neo st2]).
Proof.
  eexists. split; [vm_compute; reflexivity|].
  apply (complexity_is_the_spike_count_of_the_interval 20 [Neo st1; Neo st2] 1 2).
  - reflexivity.
  - apply spikes_on_grid_b_true. vm_compute. reflexivity.
  - vm_compute. reflexivity.
  - vm_compute. reflexivity.
Defined.

(** ** The annotation of a spike *)

(** The right-edge search returns the first position whose edge is not
    below the value. *)
Lemma searchsorted_at (a : list Q) (v : Q) :
  forall j e, nth_error a j = Some e -> (v <= e)%Q ->
    (forall i ei, (i < j)%nat -> nth_error a i = Some ei -> (ei < v)%Q) ->
    Np.searchsorted a v = j.
Proof.
  induction a as [|x a IH]; intros [|j] e Hj Hv Hbelow;
    cbn [nth_error] in Hj; try discriminate; cbn [Np.searchsorted].
  - injection Hj as ->. apply Qle_bool_iff in Hv. rewrite Hv. reflexivity.
  - assert (Hx : Qle_bool v x = false).
    { apply not_true_is_false. intros H. apply Qle_bool_iff in H.
      pose proof (Hbelow 0%nat x ltac:(lia) eq_refl). Lqa.lra. }
    rewrite Hx. f_equal. apply (IH j e Hj Hv).
    intros i ei Hi Hei. apply (Hbelow (S i) ei); [lia|exact Hei].
Qed.

(** The right-edge search finds the interval that holds a spike of the
    bin grid. *)
Lemma searchsorted_finds_interval (fuel : nat) (spiketrains : list pyobj)
  (rate : Q) (spread : nat) (ep : Epoch) (st : SpikeTrain) (x : Q) (j : nat) :
  (0 < rate)%Q ->
  precise_complexity_intervals fuel spiketrains rate spread = Done ep ->
  In (Neo st) spiketrains -> In x (times st) ->
  on_bin_grid (axis_start spiketrains) (1 / rate) (axis_bins spiketrains rate) x ->
  in_interval ep j x ->
  Np.searchsorted (right_edges_of ep) x = j.
Proof.
  intros Hrate Hrun Hst Hx [k [Hk Ex]] Hj.
  pose proof (bin_width_positive rate Hrate) as Hw.
  destruct (epoch_grid_intervals _ _ _ _ _ Hrun Hrate)
    as (bst & ivs & Hinit & Hstart & Hbins & Hcl & Hin & Hone & _ & _ & Hstrict).
  assert (Hpos : 0 < nth k (BinnedSpikeTrain.column_sums bst) 0).
  { apply (bincount_positive_at_spike spiketrains (1 / rate) bst st x k);
      try assumption. rewrite Hstart, Hbins. split; [exact Hk|exact Ex]. }
  destruct (proj2 (proj2 Hcl) k ltac:(lia)) as ([a b] & Hab & Hkab).
  cbn [fst snd] in Hkab. destruct (In_nth_error _ _ Hab) as [j' Ej'].
  pose proof (Hone j j' x Hj (Hin j' a b k x Ej' Hkab Ex)) as <-.
  destruct Hj as (l & d & c & Hl & Hd & _ & _ & Hhi).
  pose proof (Hstrict j a b k x l Ej' ltac:(lia) Ex Hl) as Hlo.
  apply (searchsorted_at (right_edges_of ep) x j (l + d)%Q).
  - exact (zip_with_nth_error Qplus _ _ _ _ _ Hl Hd).
  - apply Qlt_le_weak. exact Hhi.
  - intros i ei Hi Hei.
    assert (Hi' : (i < List.length (ep_times ep))%nat).
    { assert (Hlt : (i < List.length (right_edges_of ep))%nat)
        by (apply nth_error_Some; congruence).
      unfold right_edges_of in Hlt. rewrite zip_with_length in Hlt;
        [exact Hlt|].
      symmetry.
      exact (proj1 (precise_complexity_intervals_lengths _ _ _ _ _ Hrun)). }
    destruct (nth_error (ep_times ep) i) as [li|] eqn:Eli;
      [|apply nth_error_None in Eli; lia].
    destruct (nth_error (ep_durations ep) i) as [di|] eqn:Edi.
    2:{ apply nth_error_None in Edi.
        pose proof (proj1 (precise_complexity_intervals_lengths _ _ _ _ _ Hrun)).
        lia. }
    unfold right_edges_of in Hei.
    rewrite (zip_with_nth_error Qplus _ _ _ _ _ Eli Edi) in Hei.
    injection Hei as <-.
    pose proof (intervals_separated_aux fuel spiketrains rate spread ep Hrate Hrun
                  i j li di l Hi Eli Edi Hl) as Hsep.
    pose proof (scaled_le 0 spread (1 / rate) Hw ltac:(lia)) as H0.
    change (inject_Z (Z.of_nat 0)) with 0%Q in H0. Lqa.lra.
Qed.

(** X20.  Whenever [precise_complexity_intervals] returns an epoch for
    trains whose spikes all lie on the bin grid, for a positive sampling
    rate: the lookup [complexity[np.searchsorted(right_edges, st.times)]]
    of [detect_synchrofacts] returns, for every train of the list, and its
    entry for a spike is the number of spikes, of all trains together,
    that lie in the interval of the epoch holding this spike; the
    right-edge search finds just this interval. *)
Theorem spike_annotation_counts_the_spikes_of_its_interval (fuel : nat)
  (spiketrains : list pyobj) (rate : Q) (spread : nat) (ep : Epoch)
  (st : SpikeTrain)
  (Hrate : (0 < rate)%Q)
  (Hgrid : spikes_on_grid spiketrains rate)
  (Hrun : precise_complexity_intervals fuel spiketrains rate spread = Done ep)
  (Hst : In (Neo st) spiketrains) :
  exists complexity_per_spike,
    Np.take (ep_complexity ep)
      (map (Np.searchsorted (right_edges_of ep)) (times st))
    = Done complexity_per_spike /\
    forall i x, nth_error (times st) i = Some x ->
      exists j,
        in_interval ep j x /\
        Np.searchsorted (right_edges_of ep) x = j /\
        nth_error complexity_per_spike i
        = Some (Z.of_nat (spikes_within ep j spiketrains)).
Proof.
  assert (Hin : forall x, In x (times st) -> exists j, in_interval ep j x).
  { intros x Hx.
    exact (spike_in_interval fuel spiketrains rate spread ep st x Hrun Hrate
             Hst Hx (Hgrid st Hst x Hx)). }
  exists (event_complexities ep st). split; [exact (complexity_lookup ep st Hin)|].
  intros i x Hi. pose proof (nth_error_In _ _ Hi) as Hx.
  destruct (Hin x Hx) as [j Hj]. exists j. split; [exact Hj|].
  pose proof (searchsorted_finds_interval fuel spiketrains rate spread ep st x j
                Hrate Hrun Hst Hx (Hgrid st Hst x Hx) Hj) as Hs.
  split; [exact Hs|].
  unfold event_complexities. rewrite nth_error_map, Hi. cbn [option_map].
  rewrite Hs. f_equal.
  destruct Hj as (l & d & c & _ & _ & Hc & _).
  rewrite (nth_error_nth _ _ 0 Hc).
  exact (interval_complexity_counts fuel spiketrains rate spread ep j c
           Hrate Hgrid Hrun Hc).
Qed.

Lemma spike_annotation_counts_the_spikes_of_its_interval_witness :
  exists ep,
    precise_complexity_intervals 20 [Neo st1; Neo st2] 1 2 = Done ep /\
    exists complexity_per_spike,
      Np.take (ep_complexity ep)
        (map (Np.searchsorted (right_edges_of ep)) (times st2))
      = Done complexity_per_spike /\
      forall i x, nth_error (times st2) i = Some x ->
        exists j,
          in_interval ep j x /\
          Np.searchsorted (right_edges_of ep) x = j /\
          nth_error complexity_per_spike i
          = Some (Z.of_nat (spikes_within ep j [Neo st1; Neo st2])).
Proof.
  eexists. split; [vm_compute; reflexivity|].
  apply (spike_annotation_counts_the_spikes_of_its_interval 20
           [Neo st1; Neo st2] 1 2).
  - reflexivity.
  - apply spikes_on_grid_b_true. vm_compute. reflexivity.
  - vm_compute. reflexivity.
  - right. left. reflexivity.
Defined.



(** ** Edge cases of the interval builder *)

Lemma nonzero_from_zeros (n : nat) : forall s, Np.nonzero_from s (repeat 0 n) = [].
Proof. induction n as [|n IH]; intros s; simpl; [reflexivity|]. apply IH. Qed.

Lemma item_zeros (n i : nat) : (i < n)%nat -> Np.item (repeat 0 n) i = Done 0.
Proof.
  intros H. rewrite item_nth by (rewrite repeat_length; exact H).
  rewrite nth_repeat. reflexivity.
Qed.

(** The scan over bins that are all empty adds no interval. *)
Lemma scan_bins_zeros (n gas spread : nat) (bin_edges : list Q) :
  forall fuel i cs ls rs,
    (n - i < fuel)%nat ->
    scan_bins fuel gas (repeat 0 n) bin_edges spread i cs ls rs
    = Done (cs, ls, rs).
Proof.
  induction fuel as [|fuel IH]; intros i cs ls rs Hfuel; [lia|].
  cbn [scan_bins]. rewrite repeat_length.
  destruct (Nat.ltb_spec i n) as [Hi|Hi]; [|reflexivity].
  rewrite (item_zeros n i Hi). cbn [bind Z.eqb]. apply IH. lia.
Qed.

Lemma rows_no_spikes t0 t1 w n (l : list pyobj) (m : list (list Z)) :
  BinnedSpikeTrain.rows t0 t1 w n l = Done m ->
  no_spikes l ->
  Forall (fun r => forall k, nth k r 0 = 0) m.
Proof.
  revert m. induction l as [|o l IH]; intros m H Hno;
    cbn [BinnedSpikeTrain.rows] in H.
  - injection H as <-. constructor.
  - destruct o as [st|]; [|discriminate].
    destruct (BinnedSpikeTrain.rows t0 t1 w n l) as [rs| |]; try discriminate.
    cbn [bind] in H. injection H as <-. constructor.
    + intros k. rewrite (Hno st (or_introl eq_refl)).
      unfold BinnedSpikeTrain.row. cbn [filter List.length Z.of_nat].
      destruct (nth_in_or_default k (map (fun _ : nat => 0) (seq 0 n)) 0)
        as [Hin|E]; [|exact E].
      apply in_map_iff in Hin. destruct Hin as (j & E & _). congruence.
    + apply (IH rs eq_refl). intros st' H'. apply Hno. right. exact H'.
Qed.

Lemma column_sums_no_spikes (spiketrains : list pyobj) (w : Q)
  (bst : BinnedSpikeTrain.t) :
  BinnedSpikeTrain.init spiketrains w = Done bst ->
  no_spikes spiketrains ->
  BinnedSpikeTrain.column_sums bst = repeat 0 (BinnedSpikeTrain.num_bins bst).
Proof.
  intros Hinit Hno.
  destruct (init_Done_inv _ _ _ Hinit) as (first & rest & m & -> & _ & Hrows & ->).
  unfold BinnedSpikeTrain.column_sums.
  cbn [BinnedSpikeTrain.matrix BinnedSpikeTrain.num_bins].
  rewrite (repeat_map_seq 0 _ 0). apply map_ext. intros k.
  apply all_zero_sum. intros j.
  pose proof (rows_no_spikes _ _ _ _ _ _ Hrows Hno) as Hz.
  destruct (nth_in_or_default j (map (fun r : list Z => nth k r 0) m) 0)
    as [Hin|E]; [|exact E].
  apply in_map_iff in Hin. destruct Hin as (r & <- & Hr).
  exact (proj1 (Forall_forall _ _) Hz r Hr k).
Qed.

(** The binned spike train of consistent trains whose window does not end
    before it starts. *)
Lemma init_returns (spiketrains : list pyobj) (w : Q) :
  _check_consistency_of_spiketrainlist spiketrains None None = Done tt ->
  (forall st, nth_error spiketrains 0 = Some (Neo st) ->
     (t_start st <= t_stop st)%Q) ->
  returns (BinnedSpikeTrain.init spiketrains w).
Proof.
  intros Hcheck Hle.
  pose proof (check_Done_all_spike_trains _ Hcheck) as Hall.
  destruct (check_Done_inv _ Hcheck) as (first & rest & -> & _).
  specialize (Hle first eq_refl).
  unfold BinnedSpikeTrain.init. cbn [get_t_start get_t_stop bind].
  destruct (Qlt_le_dec (t_stop first) (t_start first)) as [Hlt|_].
  - exfalso. exact (Qlt_not_le _ _ Hlt Hle).
  - destruct (rows_returns (t_start first) (t_stop first) w
                (Z.to_nat (Qfloor ((t_stop first - t_start first) / w)))
                (Neo first :: rest) Hall) as [m ->].
    cbn [bind]. eexists. reflexivity.
Qed.

(** X7.  Consistent spike trains without any spike, in a window that does
    not end before it starts and has a number of bins other than one: the
    interval builder finds no interval, and [left_edges[0]] raises the
    [IndexError] of an empty array, for every spread once the fuel exceeds
    the number of bins; [detect_synchrofacts] raises it too and leaves
    the list and the memory as they were. *)
Theorem no_spike_raises_index_error (spiketrains : list nat) (m : memory)
  (rate : Q) (spread : nat) (deletion_threshold : option Z)
  (invert_delete : bool)
  (Hcheck : _check_consistency_of_spiketrainlist (map (deref m) spiketrains)
              None None = Done tt)
  (Hrate : (0 < rate)%Q)
  (Hwindow : forall st, nth_error (map (deref m) spiketrains) 0 = Some (Neo st) ->
               (t_start st <= t_stop st)%Q)
  (Hbins : axis_bins (map (deref m) spiketrains) rate <> 1%nat)
  (Hnone : no_spikes (map (deref m) spiketrains))
  (Hthreshold : threshold_rejected deletion_threshold = false) :
  forall fuel : nat,
    (axis_bins (map (deref m) spiketrains) rate < fuel)%nat ->
    precise_complexity_intervals fuel (map (deref m) spiketrains) rate spread
    = Raised empty_index_error /\
    detect_synchrofacts fuel spiketrains m rate spread deletion_threshold
      invert_delete
    = (Raised empty_index_error, (spiketrains, m)).
Proof.
  intros fuel Hfuel.
  assert (Hrun : precise_complexity_intervals fuel (map (deref m) spiketrains)
                   rate spread = Raised empty_index_error).
  { set (l := map (deref m) spiketrains) in *.
    destruct (init_returns l (1 / rate) Hcheck Hwindow) as [bst Hinit].
    pose proof (column_sums_no_spikes _ _ _ Hinit Hnone) as Hcs.
    assert (Hn : BinnedSpikeTrain.num_bins bst = axis_bins l rate).
    { destruct (init_Done_inv _ _ _ Hinit) as (first & rest & mm & -> & _ & _ & ->).
      reflexivity. }
    destruct (all_t_start_returns l (check_Done_all_spike_trains _ Hcheck))
      as (starts & Hstarts & Hslen).
    unfold precise_complexity_intervals.
    rewrite Hcheck. cbn [bind]. rewrite Hinit. cbn [bind].
    rewrite squeeze_not_singleton by (rewrite column_sums_length, Hn; exact Hbins).
    assert (Hraw : raw_intervals fuel (Np.Arr1 (BinnedSpikeTrain.column_sums bst))
                     (BinnedSpikeTrain.bin_edges bst) spread = Done ([], [], [])).
    { unfold raw_intervals. rewrite Hcs. destruct (spread =? 0)%nat.
      - unfold Np.nonzero. rewrite nonzero_from_zeros. reflexivity.
      - apply scan_bins_zeros. rewrite Hn. lia. }
    rewrite Hraw. cbn [bind]. rewrite Hstarts. cbn [bind].
    destruct starts as [|s0 starts].
    { destruct l; [discriminate|simpl in Hslen; lia]. }
    reflexivity. }
  split; [exact Hrun|].
  unfold detect_synchrofacts. rewrite Hthreshold, Hrun. reflexivity.
Qed.

Lemma no_spike_raises_index_error_witness :
  precise_complexity_intervals 11
    (map (deref (mkMemory [Neo (mkSpikeTrain [] 0 10 None None None)] [] []))
       [0%nat]) 1 2
  = Raised empty_index_error /\
  detect_synchrofacts 11 [0%nat]
    (mkMemory [Neo (mkSpikeTrain [] 0 10 None None None)] [] []) 1 2 (Some 2) false
  = (Raised empty_index_error,
     ([0%nat], mkMemory [Neo (mkSpikeTrain [] 0 10 None None None)] [] [])).
Proof.
  apply (no_spike_raises_index_error [0%nat]
           (mkMemory [Neo (mkSpikeTrain [] 0 10 None None None)] [] [])
           1 2 (Some 2) false).
  - reflexivity.
  - reflexivity.
  - intros st H. injection H as <-. vm_compute. discriminate.
  - vm_compute. discriminate.
  - intros st [H|[]]. injection H as <-. reflexivity.
  - reflexivity.
  - vm_compute. lia.
Defined.

(** X8.  Consistent spike trains whose window is exactly one bin long
    (one bin fits between the start and the stop time, two do not): the
    row of bin counts has a single entry, [squeeze] turns it into a
    zero-dimensional array, and [precise_complexity_intervals] raises for
    every spread and every fuel, whatever the spikes; with a spread other
    than zero the error is the [TypeError] of [len(bincount)]. *)
Theorem single_bin_window_raises (fuel : nat) (spiketrains : list pyobj)
  (rate : Q) (spread : nat)
  (Hcheck : _check_consistency_of_spiketrainlist spiketrains None None = Done tt)
  (Hrate : (0 < rate)%Q)
  (Hbins : axis_bins spiketrains rate = 1%nat) :
  raises (precise_complexity_intervals fuel spiketrains rate spread) /\
  (spread <> 0%nat ->
   precise_complexity_intervals fuel spiketrains rate spread
   = Raised (TypeError "len() of unsized object")).
Proof.
  pose proof (bin_width_positive rate Hrate) as Hw.
  assert (Hinit : returns (BinnedSpikeTrain.init spiketrains (1 / rate))).
  { apply init_returns; [exact Hcheck|]. intros st Hst.
    destruct spiketrains as [|o rest]; [discriminate|]. injection Hst as ->.
    cbn [axis_bins] in Hbins.
    pose proof (Qfloor_le_self_div (t_stop st - t_start st) (1 / rate) 1 Hw
                  ltac:(lia) ltac:(lia)) as H.
    change (inject_Z (Z.of_nat 1)) with 1%Q in H. Lqa.lra. }
  destruct Hinit as [bst Hinit].
  assert (Hn : BinnedSpikeTrain.num_bins bst = 1%nat).
  { destruct (init_Done_inv _ _ _ Hinit) as (first & rest & mm & -> & _ & _ & ->).
    exact Hbins. }
  assert (Hsq : exists v, Np.squeeze (BinnedSpikeTrain.column_sums bst) = Np.Arr0 v).
  { pose proof (column_sums_length bst) as Hlen. rewrite Hn in Hlen.
    destruct (BinnedSpikeTrain.column_sums bst) as [|v [|v' r]];
      try discriminate. exists v. reflexivity. }
  destruct Hsq as [v Hsq].
  unfold precise_complexity_intervals.
  rewrite Hcheck. cbn [bind]. rewrite Hinit. cbn [bind]. rewrite Hsq.
  unfold raw_intervals. split.
  - destruct (spread =? 0)%nat; cbn [bind]; eexists; reflexivity.
  - intros Hs. destruct (Nat.eqb_spec spread 0) as [|_]; [contradiction|].
    reflexivity.
Qed.

Lemma single_bin_window_raises_witness :
  raises (precise_complexity_intervals 20
            [Neo (mkSpikeTrain [1 # 2] 0 (3 # 2) None None None)] 1 1) /\
  (1%nat <> 0%nat ->
   precise_complexity_intervals 20
     [Neo (mkSpikeTrain [1 # 2] 0 (3 # 2) None None None)] 1 1
   = Raised (TypeError "len() of unsized object")).
Proof.
  apply (single_bin_window_raises 20
           [Neo (mkSpikeTrain [1 # 2] 0 (3 # 2) None None None)] 1 1).
  - reflexivity.
  - reflexivity.
  - vm_compute. reflexivity.
Defined.

(** ** The consistency check and the search by identity *)

Lemma check_each_spec (first : SpikeTrain) (l : list pyobj)
  (arg_t_start arg_t_stop : option Q) :
  forall rest,
    check_each (Neo first :: l) rest arg_t_start arg_t_stop = Done tt <->
    forall o, In o rest ->
      exists st, o = Neo st /\
        (arg_t_start = None -> (t_start st == t_start first)%Q) /\
        (arg_t_stop = None -> (t_stop st == t_stop first)%Q).
Proof.
  induction rest as [|o rest IH]; cbn [check_each].
  - split; [intros _ o []|reflexivity].
  - destruct o as [st|].
    + unfold differs_from_first. cbn [Np.item nth_error bind get_t_start get_t_stop].
      assert (Hs : (if is_none arg_t_start
                    then Done (negb (Qeq_bool (t_start st) (t_start first)))
                    else Done false) = Done false
                   <-> (arg_t_start = None -> (t_start st == t_start first)%Q)).
      { destruct arg_t_start as [q|]; cbn [is_none].
        - split; [intros _ H; discriminate|reflexivity].
        - destruct (Qeq_bool (t_start st) (t_start first)) eqn:E; cbn [negb].
          + split; [intros _ _; apply Qeq_bool_iff; exact E|reflexivity].
          + split; [discriminate|]. intros H. specialize (H eq_refl).
            apply Qeq_bool_iff in H. congruence. }
      assert (Hp : (if is_none arg_t_stop
                    then Done (negb (Qeq_bool (t_stop st) (t_stop first)))
                    else Done false) = Done false
                   <-> (arg_t_stop = None -> (t_stop st == t_stop first)%Q)).
      { destruct arg_t_stop as [q|]; cbn [is_none].
        - split; [intros _ H; discriminate|reflexivity].
        - destruct (Qeq_bool (t_stop st) (t_stop first)) eqn:E; cbn [negb].
          + split; [intros _ _; apply Qeq_bool_iff; exact E|reflexivity].
          + split; [discriminate|]. intros H. specialize (H eq_refl).
            apply Qeq_bool_iff in H. congruence. }
      split.
      * intros H.
        destruct (if is_none arg_t_start
                  then Done (negb (Qeq_bool (t_start st) (t_start first)))
                  else Done false) as [[|]| |] eqn:E1; cbn [bind] in H;
          try discriminate.
        destruct (if is_none arg_t_stop
                  then Done (negb (Qeq_bool (t_stop st) (t_stop first)))
                  else Done false) as [[|]| |] eqn:E2; cbn [bind] in H;
          try discriminate.
        intros o [<-|Ho].
        -- exists st. split; [reflexivity|].
           split; [apply Hs; reflexivity|apply Hp; reflexivity].
        -- apply (proj1 IH H). exact Ho.
      * intros H. destruct (H (Neo st) (or_introl eq_refl)) as (st' & E & H1 & H2).
        injection E as <-.
        rewrite (proj2 Hs H1). cbn [bind]. rewrite (proj2 Hp H2). cbn [bind].
        apply IH. intros o Ho. apply H. right. exact Ho.
    + split; [discriminate|]. intros H.
      destruct (H Foreign (or_introl eq_refl)) as (st & E & _). discriminate.
Qed.

(** X9.  [_check_consistency_of_spiketrainlist] passes exactly when the
    list is not empty, each of its elements is a [neo.SpikeTrain], all
    start times are equal unless [t_start] is given, and all stop times
    are equal unless [t_stop] is given.  A given [t_start] or [t_stop]
    only switches the comparison off: its value is never looked at. *)
Theorem check_consistency_passes_iff (spiketrains : list pyobj)
  (arg_t_start arg_t_stop : option Q) :
  _check_consistency_of_spiketrainlist spiketrains arg_t_start arg_t_stop
  = Done tt
  <->
  spiketrains <> [] /\
  all_spike_trains spiketrains /\
  (arg_t_start = None ->
   forall a b, In (Neo a) spiketrains -> In (Neo b) spiketrains ->
     (t_start a == t_start b)%Q) /\
  (arg_t_stop = None ->
   forall a b, In (Neo a) spiketrains -> In (Neo b) spiketrains ->
     (t_stop a == t_stop b)%Q).
Proof.
  unfold _check_consistency_of_spiketrainlist.
  destruct spiketrains as [|o rest].
  { cbn [List.length Nat.eqb]. split; [discriminate|]. intros [H _]. congruence. }
  cbn [List.length Nat.eqb]. destruct o as [first|].
  - rewrite check_each_spec. split.
    + intros H. split; [discriminate|]. split; [|split].
      * intros o Ho. destruct (H o Ho) as (st & E & _). exists st. exact E.
      * intros Hs a b Ha Hb.
        destruct (H _ Ha) as (sa & Ea & Ha1 & _). injection Ea as <-.
        destruct (H _ Hb) as (sb & Eb & Hb1 & _). injection Eb as <-.
        rewrite (Ha1 Hs), (Hb1 Hs). reflexivity.
      * intros Hs a b Ha Hb.
        destruct (H _ Ha) as (sa & Ea & _ & Ha2). injection Ea as <-.
        destruct (H _ Hb) as (sb & Eb & _ & Hb2). injection Eb as <-.
        rewrite (Ha2 Hs), (Hb2 Hs). reflexivity.
    + intros (_ & Hall & Hstart & Hstop) o Ho.
      destruct (Hall o Ho) as [st ->]. exists st. split; [reflexivity|].
      split; intros Hs.
      * apply (Hstart Hs); [exact Ho|left; reflexivity].
      * apply (Hstop Hs); [exact Ho|left; reflexivity].
  - cbn [check_each]. split; [discriminate|]. intros (_ & Hall & _).
    destruct (Hall Foreign (or_introl eq_refl)) as [st E]. discriminate.
Qed.

Lemma _get_index_from_spec (lst : list nat) (obj : nat) : forall index,
  match _get_index_from index lst obj with
  | Some i =>
      (index <= i)%nat /\ nth_error lst (i - index) = Some obj /\
      forall j, (j < i - index)%nat -> nth_error lst j <> Some obj
  | None => ~ In obj lst
  end.
Proof.
  induction lst as [|item rest IH]; intros index; cbn [_get_index_from].
  - intros [].
  - destruct (Nat.eqb_spec item obj) as [->|Hne].
    + rewrite Nat.sub_diag. split; [lia|]. split; [reflexivity|]. intros j Hj. lia.
    + specialize (IH (S index)).
      destruct (_get_index_from (S index) rest obj) as [i|].
      * destruct IH as (Hle & Hnth & Hbefore).
        split; [lia|]. replace (i - index)%nat with (S (i - S index)) by lia.
        split; [exact Hnth|]. intros [|j] Hj; cbn [nth_error].
        -- congruence.
        -- apply Hbefore. lia.
      * intros [E|Hin]; [congruence|exact (IH Hin)].
Qed.

Lemma get_index_absent (lst : list nat) (obj : nat) :
  ~ In obj lst -> _get_index lst obj = None.
Proof.
  intros Hn. unfold _get_index. pose proof (_get_index_from_spec lst obj 0) as H.
  destruct (_get_index_from 0 lst obj) as [i|]; [|reflexivity].
  destruct H as (_ & Hnth & _). exfalso. apply Hn.
  apply nth_error_In with (i - 0)%nat. exact Hnth.
Qed.

(** X10.  [_get_index(lst, obj)] returns the position of the first
    element of [lst] that is the object [obj]: that position holds [obj],
    no earlier position does, and the result is [None] exactly when [obj]
    is not an element of [lst]. *)
Theorem get_index_first_occurrence (lst : list nat) (obj : nat) :
  (forall i, _get_index lst obj = Some i <->
     nth_error lst i = Some obj /\
     forall j, (j < i)%nat -> nth_error lst j <> Some obj) /\
  (_get_index lst obj = None <-> ~ In obj lst).
Proof.
  unfold _get_index. pose proof (_get_index_from_spec lst obj 0) as H.
  destruct (_get_index_from 0 lst obj) as [i0|].
  - destruct H as (_ & Hnth & Hbefore). rewrite Nat.sub_0_r in Hnth, Hbefore.
    split.
    + intros i. split.
      * intros E. injection E as <-. split; assumption.
      * intros [Hi Hb]. f_equal.
        destruct (Nat.lt_trichotomy i0 i) as [Hlt|[E|Hgt]]; [|exact E|].
        -- exfalso. exact (Hb i0 Hlt Hnth).
        -- exfalso. exact (Hbefore i Hgt Hi).
    + split; [discriminate|]. intros Hn. exfalso. apply Hn.
      apply nth_error_In with i0. exact Hnth.
  - split.
    + intros i. split; [discriminate|]. intros [Hi _]. exfalso. apply H.
      apply nth_error_In with i. exact Hi.
    + split; [intros _; exact H|reflexivity].
Qed.

(** ** A call without a threshold only annotates *)

Lemma same_but_annotation_refl (o : pyobj) : same_but_annotation o o.
Proof. destruct o; simpl; auto. Qed.

Lemma same_but_annotation_trans (a b c : pyobj) :
  same_but_annotation a b -> same_but_annotation b c -> same_but_annotation a c.
Proof.
  destruct a as [sa|], b as [sb|], c as [sc|]; simpl; try tauto.
  intros (H1 & H2 & H3 & H4 & H5) (G1 & G2 & G3 & G4 & G5).
  repeat split; congruence.
Qed.

Lemma only_annotated_refl (m : memory) : only_annotated m m.
Proof.
  repeat split. intros ref. apply same_but_annotation_refl.
Qed.

Lemma only_annotated_trans (a b c : memory) :
  only_annotated a b -> only_annotated b c -> only_annotated a c.
Proof.
  intros (H1 & H2 & H3 & H4) (G1 & G2 & G3 & G4).
  split; [congruence|]. split; [congruence|]. split; [congruence|].
  intros ref. exact (same_but_annotation_trans _ _ _ (H4 ref) (G4 ref)).
Qed.

Lemma only_annotated_store (m : memory) (ref : nat) (st : SpikeTrain)
  (c : list Z) :
  deref m ref = Neo st ->
  only_annotated m (store m ref (Neo (array_annotate st c))).
Proof.
  intros Hst. split; [reflexivity|]. split; [reflexivity|].
  split; [apply set_item_length|]. intros x.
  destruct (Nat.eq_dec x ref) as [->|Hne].
  - rewrite deref_store_same by exact (deref_Neo_in_heap _ _ _ Hst).
    rewrite Hst. simpl. auto.
  - rewrite deref_store_other by exact Hne. apply same_but_annotation_refl.
Qed.

Lemma visit_without_threshold (complexity : list Z) (right_edges : list Q)
  (invert_delete : bool) (idx : nat) (spiketrains : list nat) (m : memory) :
  fst (snd (visit complexity right_edges None invert_delete idx spiketrains m))
  = spiketrains /\
  only_annotated m
    (snd (snd (visit complexity right_edges None invert_delete idx spiketrains m))).
Proof.
  unfold visit.
  destruct (nth_error spiketrains idx) as [ref|];
    [|split; [reflexivity|apply only_annotated_refl]].
  destruct (deref m ref) as [st|] eqn:Hst;
    [|split; [reflexivity|apply only_annotated_refl]].
  destruct (Np.take complexity (map (Np.searchsorted right_edges) (times st)))
    as [c| |]; cbn [fst snd];
    try (split; [reflexivity|apply only_annotated_refl]).
  split; [reflexivity|]. apply only_annotated_store. exact Hst.
Qed.

Lemma annotate_loop_without_threshold (complexity : list Z)
  (right_edges : list Q) (invert_delete : bool) :
  forall (todo idx : nat) (spiketrains : list nat) (m : memory),
    fst (snd (annotate_loop complexity right_edges None invert_delete todo idx
                spiketrains m))
    = spiketrains /\
    only_annotated m
      (snd (snd (annotate_loop complexity right_edges None invert_delete todo
                   idx spiketrains m))).
Proof.
  induction todo as [|todo IH]; intros idx spiketrains m; cbn [annotate_loop].
  - split; [reflexivity|apply only_annotated_refl].
  - pose proof (visit_without_threshold complexity right_edges invert_delete
                  idx spiketrains m) as [Hl Hm].
    destruct (visit complexity right_edges None invert_delete idx spiketrains m)
      as [[[]| |] [l' m']]; cbn [fst snd] in Hl, Hm |- *;
      try (split; assumption).
    subst l'. destruct (IH (S idx) spiketrains m') as [Hl' Hm'].
    split; [exact Hl'|]. exact (only_annotated_trans _ _ _ Hm Hm').
Qed.

(** X11.  A call of [detect_synchrofacts] without a deletion threshold
    never removes a spike, whatever its arguments and whether it returns
    or raises: afterwards the caller's list holds the same references,
    the units and the segments list the same trains, no object has been
    created, and every object has the spike times, the window and the
    unit and segment it had; only annotations may have changed.  The
    flag [invert_delete] is not looked at. *)
Theorem detect_synchrofacts_without_threshold_only_annotates (fuel : nat)
  (spiketrains : list nat) (m : memory) (rate : Q) (spread : nat)
  (invert_delete : bool) :
  fst (snd (detect_synchrofacts fuel spiketrains m rate spread None
              invert_delete)) = spiketrains /\
  only_annotated m
    (snd (snd (detect_synchrofacts fuel spiketrains m rate spread None
                 invert_delete))) /\
  detect_synchrofacts fuel spiketrains m rate spread None invert_delete
  = detect_synchrofacts fuel spiketrains m rate spread None false.
Proof.
  unfold detect_synchrofacts. cbn [threshold_rejected].
  destruct (precise_complexity_intervals fuel (map (deref m) spiketrains) rate
              spread) as [ep| |];
    try (split; [reflexivity|split; [apply only_annotated_refl|reflexivity]]).
  set (cs := ep_complexity ep).
  set (rs := zip_with Qplus (ep_times ep) (ep_durations ep)).
  pose proof (annotate_loop_without_threshold cs rs invert_delete
                (List.length spiketrains) 0 spiketrains m) as [Hl Hm].
  assert (Hflag : forall todo idx l mm,
            annotate_loop cs rs None invert_delete todo idx l mm
            = annotate_loop cs rs None false todo idx l mm).
  { induction todo as [|todo IH]; intros idx l mm; cbn [annotate_loop];
      [reflexivity|].
    assert (Hv : visit cs rs None invert_delete idx l mm
                 = visit cs rs None false idx l mm) by reflexivity.
    rewrite Hv. destruct (visit cs rs None false idx l mm) as [[[]| |] [l' m']];
      try reflexivity. apply IH. }
  rewrite Hflag in Hl, Hm |- *.
  destruct (annotate_loop cs rs None false (List.length spiketrains) 0
              spiketrains m) as [r [l' m']].
  cbn [fst snd] in *. split; [exact Hl|]. split; [exact Hm|reflexivity].
Qed.

(** ** Deletion and its inverse *)

Lemma in_combine_exists {A B : Type} (x : A) : forall (a : list A) (b : list B),
  List.length b = List.length a -> In x a -> exists y, In (x, y) (combine a b).
Proof.
  induction a as [|x' a IH]; intros [|y b] Hlen Hin; simpl in *;
    try contradiction; try discriminate.
  destruct Hin as [->|Hin].
  - exists y. left. reflexivity.
  - destruct (IH b ltac:(lia) Hin) as [z Hz]. exists z. right. exact Hz.
Qed.

Lemma kept_inverted (t c : Z) : kept true t c = negb (kept false t c).
Proof. reflexivity. Qed.

(** The spikes that survive a deletion and the ones that survive the
    inverted deletion are, together, the spikes of the train. *)
Lemma surviving_split (t : Z) (ts : list Q) (cs : list Z) :
  List.length cs = List.length ts ->
  (forall x, In x ts <->
     In x (surviving false t ts cs) \/ In x (surviving true t ts cs)) /\
  (List.length (surviving false t ts cs) + List.length (surviving true t ts cs)
   = List.length ts)%nat.
Proof.
  intros Hlen. split.
  - intros x. unfold surviving. split.
    + intros Hx. destruct (in_combine_exists x ts cs Hlen Hx) as [c Hc].
      destruct (kept false t c) eqn:E.
      * left. apply in_map_iff. exists (x, c). split; [reflexivity|].
        apply filter_In. split; [exact Hc|exact E].
      * right. apply in_map_iff. exists (x, c). split; [reflexivity|].
        apply filter_In. split; [exact Hc|].
        cbn [snd]. rewrite kept_inverted, E. reflexivity.
    + intros [H|H]; apply in_map_iff in H; destruct H as ([y c] & <- & H);
        apply filter_In in H; destruct H as [H _];
        exact (in_combine_l _ _ _ _ H).
  - rewrite !surviving_length by exact Hlen.
    rewrite (filter_ext (kept true t) (fun c => negb (kept false t c)))
      by (intros c; apply kept_inverted).
    rewrite filter_complement_length. exact Hlen.
Qed.



(** X13.  The call is not atomic.  When the first train of the list names
    a unit whose list of trains does not hold it, a call with a threshold
    [t >= 2], on top of a returned epoch and with the spikes of that
    train on the bin grid, raises the [TypeError] of an assignment at the
    index [None] that [_get_index] returns; by then the train has been
    annotated, the new train has been created and the first place of the
    caller's list already refers to it, while the units and the segments
    are as they were. *)
Theorem unlisted_train_raises_after_list_update (fuel : nat)
  (ref : nat) (rest : list nat) (m : memory) (rate : Q) (spread : nat) (t : Z)
  (invert_delete : bool) (ep : Epoch) (st : SpikeTrain) (key : nat)
  (Hrun : precise_complexity_intervals fuel (map (deref m) (ref :: rest)) rate
            spread = Done ep)
  (Hrate : (0 < rate)%Q)
  (Hst : deref m ref = Neo st)
  (Hgrid : forall x, In x (times st) ->
             on_bin_grid (axis_start (map (deref m) (ref :: rest))) (1 / rate)
               (axis_bins (map (deref m) (ref :: rest)) rate) x)
  (Hunit : st_unit st = Some key)
  (Hunlisted : ~ In ref (nth key (units m) []))
  (Ht : 2 <= t) :
  detect_synchrofacts fuel (ref :: rest) m rate spread (Some t) invert_delete
  = (Raised none_index_error,
     (List.length (heap m) :: rest,
      mkMemory
        (set_item (heap m) ref (Neo (annotated_st ep st))
         ++ [Neo (filtered_st ep invert_delete t st)])
        (units m) (segments m))).
Proof.
  assert (Hin : forall x, In x (times st) -> exists j, in_interval ep j x).
  { intros x Hx.
    apply (spike_in_interval fuel (map (deref m) (ref :: rest)) rate spread ep
             st x); try assumption.
    - rewrite <- Hst. left. reflexivity.
    - apply Hgrid. exact Hx. }
  assert (Hnone : _get_index (nth key (units m) []) ref = None)
    by (apply get_index_absent; exact Hunlisted).
  unfold detect_synchrofacts.
  assert (Hthr : threshold_rejected (Some t) = false).
  { simpl. destruct (Z.leb_spec t 1); [lia|reflexivity]. }
  rewrite Hthr, Hrun. fold (right_edges_of ep).
  cbn [List.length annotate_loop]. unfold visit. cbn [nth_error].
  rewrite Hst, (complexity_lookup ep st Hin).
  cbv beta iota zeta. rewrite getitem_mask_filtered.
  unfold allocate, store. cbn [heap units segments array_annotate st_unit].
  rewrite set_item_length, Hunit.
  unfold replace_in_container. rewrite Hnone. reflexivity.
Qed.

Lemma unlisted_train_raises_after_list_update_witness :
  exists ep,
    precise_complexity_intervals 20 (map (deref unlisted_memory) [0%nat]) 1 1
    = Done ep /\
    detect_synchrofacts 20 [0%nat] unlisted_memory 1 1 (Some 2) false
    = (Raised none_index_error,
       ([List.length (heap unlisted_memory)],
        mkMemory
          (set_item (heap unlisted_memory) 0 (Neo (annotated_st ep unlisted_train))
           ++ [Neo (filtered_st ep false 2 unlisted_train)])
          (units unlisted_memory) (segments unlisted_memory))).
Proof.
  eexists. split; [vm_compute; reflexivity|].
  apply (unlisted_train_raises_after_list_update 20 0 [] unlisted_memory 1 1 2
           false _ unlisted_train 0).
  - vm_compute. reflexivity.
  - reflexivity.
  - reflexivity.
  - intros x Hx.
    assert (H : spikes_on_grid (map (deref unlisted_memory) [0%nat]) 1)
      by (apply spikes_on_grid_b_true; vm_compute; reflexivity).
    apply (H unlisted_train); [left; reflexivity|exact Hx].
  - reflexivity.
  - simpl. intros [].
  - lia.
Defined.

(** The same call, evaluated: the list refers to the new train (the
    spike at 5 ms, of complexity 1), the old train is annotated, and the
    unit is still empty. *)
Example unlisted_train_call :
  detect_synchrofacts 20 [0%nat] unlisted_memory 1 1 (Some 2) false
  = (Raised none_index_error,
     ([1%nat],
      mkMemory
        [Neo (mkSpikeTrain [1; 2; 5]%Q 0 10 (Some [2; 2; 1]) (Some 0%nat) None);
         Neo (mkSpikeTrain [5]%Q 0 10 (Some [1]) (Some 0%nat) None)]
        [[]] [])).
Proof. vm_compute. reflexivity. Qed.

(** ** The variance accumulator computes the variance *)

Lemma Qsum_products (a b : Q) (l : list Q) :
  (Qsum (map (fun x => (x - a) * (x - b)) l)
   == Qsum (map (fun x => x * x) l) - (a + b) * Qsum l
      + inject_Z (Z.of_nat (List.length l)) * (a * b))%Q.
Proof.
  induction l as [|x l IH].
  - simpl. ring.
  - cbn [map Qsum fold_right List.length]. fold (Qsum l).
    fold (Qsum (map (fun x => (x - a) * (x - b))%Q l)).
    fold (Qsum (map (fun x => x * x)%Q l)).
    rewrite IH, Nat2Z.inj_succ. unfold Z.succ. rewrite inject_Z_plus.
    change (inject_Z 1) with 1%Q. ring.
Qed.

Lemma Num_sum_products (m m' : Q) (xs : list Q) :
  Num.sum
    (zip_with Num.mul (map (fun x => Num.sub x (Fin m)) (map Fin xs))
       (map (fun x => Num.sub x (Fin m')) (map Fin xs)))
  = Fin (Qsum (map (fun x => (x - m) * (x - m'))%Q xs)).
Proof.
  rewrite !map_map, zip_with_map. cbn [Num.sub Num.mul Num.lift2].
  rewrite <- Num_sum_Fin, map_map. reflexivity.
Qed.

(** The incremental formulas in exact arithmetic: from the mean [m] of
    [seen] and their squared deviations [v] to those of [seen ++ xs]. *)
Lemma welford_step (seen xs : list Q) (m v m' v' : Q) :
  (inject_Z (Z.of_nat (List.length seen)) * m == Qsum seen)%Q ->
  (v == squared_deviations seen m)%Q ->
  seen ++ xs <> [] ->
  (m' == m + (Qsum xs - m * inject_Z (Z.of_nat (List.length xs)))
             / inject_Z (Z.of_nat (List.length seen)
                         + Z.of_nat (List.length xs)))%Q ->
  (v' == v + Qsum (map (fun y => (y - m) * (y - m')) xs))%Q ->
  (inject_Z (Z.of_nat (List.length (seen ++ xs))) * m' == Qsum (seen ++ xs))%Q /\
  (v' == squared_deviations (seen ++ xs) m')%Q.
Proof.
  intros Hm Hv Hne Em Ev.
  set (n := Z.of_nat (List.length seen)) in *.
  set (k := Z.of_nat (List.length xs)) in *.
  assert (Hnk : n + k <> 0).
  { unfold n, k. destruct seen, xs; simpl in *; try lia. congruence. }
  assert (Hnk' : ~ (inject_Z n + inject_Z k == 0)%Q).
  { rewrite <- inject_Z_plus. apply inject_Z_nonzero. exact Hnk. }
  assert (Hlen : Z.of_nat (List.length (seen ++ xs)) = n + k).
  { rewrite length_app, Nat2Z.inj_add. reflexivity. }
  rewrite Hlen.
  assert (Hm' : (inject_Z (n + k) * m' == Qsum (seen ++ xs))%Q).
  { rewrite Em, Qsum_app, <- Hm, inject_Z_plus. field. exact Hnk'. }
  split; [exact Hm'|].
  rewrite Ev. unfold squared_deviations. rewrite map_app, Qsum_app.
  rewrite !Qsum_products, Hv. unfold squared_deviations.
  rewrite Qsum_products. fold n k.
  assert (E1 : (Qsum seen == inject_Z n * m)%Q) by (symmetry; exact Hm).
  assert (E2 : (Qsum xs == inject_Z (n + k) * m' - inject_Z n * m)%Q).
  { rewrite Hm', Qsum_app, <- Hm. ring. }
  rewrite E1, E2, inject_Z_plus. ring.
Qed.

(** One [update] on a state that holds the mean of [seen] and their
    squared deviations from it ([seen] may be empty: then both are 0). *)
Lemma variance_accumulate_step (batch_mode : bool) (u : option string)
  (seen : list Q) (m v : Q) (x : reading batch_mode) :
  (inject_Z (Z.of_nat (List.length seen)) * m == Qsum seen)%Q ->
  (v == squared_deviations seen m)%Q ->
  seen ++ values batch_mode x <> [] ->
  exists m' v',
    VarianceOnline.accumulate batch_mode (Fin m)
      (Z.of_nat (List.length seen)) u (Fin v) (to_sample batch_mode x)
    = VarianceOnline.mk
        (MeanOnline.mk (Some (Fin m'))
           (Z.of_nat (List.length (seen ++ values batch_mode x))) u)
        (Fin v') /\
    (inject_Z (Z.of_nat (List.length (seen ++ values batch_mode x))) * m'
     == Qsum (seen ++ values batch_mode x))%Q /\
    (v' == squared_deviations (seen ++ values batch_mode x) m')%Q.
Proof.
  intros Hm Hv Hne.
  assert (Hnk : Z.of_nat (List.length seen)
                + Z.of_nat (List.length (values batch_mode x)) <> 0).
  { destruct seen, (values batch_mode x); simpl in *; try lia. congruence. }
  assert (Hlen : Z.of_nat (List.length (seen ++ values batch_mode x))
                 = Z.of_nat (List.length seen)
                   + Z.of_nat (List.length (values batch_mode x))).
  { rewrite length_app, Nat2Z.inj_add. reflexivity. }
  destruct batch_mode; cbn [to_sample values] in *.
  - cbn [VarianceOnline.accumulate]. rewrite length_map, Num_sum_Fin.
    cbn [Num.scale Num.mul Num.sub Num.lift2 Num.div].
    destruct (Z.eqb_spec (Z.of_nat (List.length seen) + Z.of_nat (List.length x)) 0)
      as [|_]; [contradiction|].
    cbn [Num.add Num.lift2]. rewrite Num_sum_products. cbn [Num.add Num.lift2].
    eexists. eexists. split; [rewrite Hlen; reflexivity|].
    apply (welford_step seen x m v); try assumption; reflexivity.
  - cbn [VarianceOnline.accumulate Num.sub Num.lift2 Num.div].
    change (Z.of_nat (List.length [x])) with 1 in Hnk, Hlen.
    destruct (Z.eqb_spec (Z.of_nat (List.length seen) + 1) 0) as [|_];
      [contradiction|].
    cbn [Num.add Num.mul Num.lift2].
    eexists. eexists. split; [rewrite Hlen; reflexivity|].
    apply (welford_step seen [x] m v); try assumption.
    + cbn [Qsum fold_right List.length].
      change (Z.of_nat 1) with 1. change (inject_Z 1) with 1%Q.
      assert (~ (inject_Z (Z.of_nat (List.length seen) + 1) == 0)%Q)
        by (apply inject_Z_nonzero; exact Hnk).
      field. assumption.
    + cbn [map Qsum fold_right]. ring.
Qed.

Lemma Qsquare_nonneg (y : Q) : (0 <= y * y)%Q.
Proof.
  destruct (Qlt_le_dec y 0) as [Hneg|Hpos].
  - setoid_replace (y * y)%Q with ((- y) * (- y))%Q by ring.
    apply Qmult_le_0_compat; Lqa.lra.
  - apply Qmult_le_0_compat; exact Hpos.
Qed.

Lemma squared_deviations_nonneg (l : list Q) (m : Q) :
  (0 <= squared_deviations l m)%Q.
Proof.
  unfold squared_deviations. induction l as [|x l IH].
  - apply Qle_refl.
  - cbn [map Qsum fold_right]. fold (Qsum (map (fun x => (x - m) * (x - m))%Q l)).
    pose proof (Qsquare_nonneg (x - m)). Lqa.lra.
Qed.

Lemma squared_deviations_comp (l : list Q) (m m' : Q) :
  (m == m')%Q -> (squared_deviations l m == squared_deviations l m')%Q.
Proof.
  intros E. unfold squared_deviations. rewrite !Qsum_products, E. reflexivity.
Qed.

(** The state after a sequence of updates that starts from a state
    holding the mean of [seen] and their squared deviations from it. *)
Lemma feed_variance_invariant (batch_mode : bool) (u : option string) :
  forall (updates : list (reading batch_mode)) (seen : list Q) (m v : Q),
    seen <> [] ->
    (inject_Z (Z.of_nat (List.length seen)) * m == Qsum seen)%Q ->
    (v == squared_deviations seen m)%Q ->
    exists m' v',
      feed_variance_batches batch_mode
        (VarianceOnline.mk
           (MeanOnline.mk (Some (Fin m)) (Z.of_nat (List.length seen)) u)
           (Fin v))
        u updates
      = Done (VarianceOnline.mk
                (MeanOnline.mk (Some (Fin m'))
                   (Z.of_nat (List.length
                      (seen ++ flat_map (values batch_mode) updates))) u)
                (Fin v')) /\
      (inject_Z (Z.of_nat (List.length
                   (seen ++ flat_map (values batch_mode) updates))) * m'
       == Qsum (seen ++ flat_map (values batch_mode) updates))%Q /\
      (v' == squared_deviations
               (seen ++ flat_map (values batch_mode) updates) m')%Q.
Proof.
  induction updates as [|x updates IH]; intros seen m v Hne Hm Hv.
  - cbn [feed_variance_batches flat_map]. rewrite app_nil_r.
    exists m, v. split; [reflexivity|]. split; assumption.
  - cbn [feed_variance_batches flat_map].
    unfold VarianceOnline.update.
    cbn [VarianceOnline.mean VarianceOnline.base MeanOnline.mean units_of
         magnitude VarianceOnline.units MeanOnline.units VarianceOnline.count
         MeanOnline.count VarianceOnline.variance_sum].
    rewrite units_differ_same.
    destruct (variance_accumulate_step batch_mode u seen m v x Hm Hv)
      as (m1 & v1 & -> & Hm1 & Hv1).
    { destruct seen; [congruence|discriminate]. }
    cbn [bind].
    destruct (IH (seen ++ values batch_mode x) m1 v1) as (m' & v' & Hrun & Hm' & Hv');
      try assumption.
    { destruct seen; [congruence|discriminate]. }
    rewrite <- app_assoc in Hrun, Hm', Hv'.
    exists m', v'. split; [exact Hrun|]. split; assumption.
Qed.

Lemma mean_of_total (l : list Q) (m : Q) :
  l <> [] ->
  (inject_Z (Z.of_nat (List.length l)) * m == Qsum l)%Q ->
  (m == arithmetic_mean l)%Q.
Proof.
  intros Hne H. unfold arithmetic_mean. rewrite <- H. field.
  apply inject_Z_nonzero. destruct l; [congruence|simpl; lia].
Qed.

(** The standard deviation that [get_mean_std] returns for a state that
    holds more than one value. *)
Lemma get_mean_std_of_state (u : option string) (seen : list Q) (m v : Q)
  (unbiased : bool) :
  (1 < List.length seen)%nat ->
  (m == arithmetic_mean seen)%Q ->
  (v == squared_deviations seen m)%Q ->
  VarianceOnline.get_mean_std
    (VarianceOnline.mk
       (MeanOnline.mk (Some (Fin m)) (Z.of_nat (List.length seen)) u) (Fin v))
    unbiased
  = (Some (mkTagged u (Fin m)),
     Some (mkTagged u
             (RFin (sqrt (Q2R (variance_of seen (if unbiased then 1 else 0))))))).
Proof.
  intros Hlen Hm Hv.
  unfold VarianceOnline.get_mean_std, VarianceOnline.mean, VarianceOnline.count,
    MeanOnline.as_units.
  cbn [VarianceOnline.base MeanOnline.mean MeanOnline.count MeanOnline.units
       VarianceOnline.variance_sum].
  set (n := Z.of_nat (List.length seen)).
  assert (Hn : 1 < n) by (unfold n; lia).
  destruct (Z.gtb_spec n 1) as [_|]; [|lia].
  set (c := if unbiased then n - 1 else n).
  assert (Hc : 0 < c) by (unfold c; destruct unbiased; lia).
  assert (Ec : c = n - (if unbiased then 1 else 0))
    by (unfold c; destruct unbiased; lia).
  unfold Num.div. destruct (Z.eqb_spec c 0) as [|_]; [lia|].
  unfold np_sqrt.
  assert (Hc' : (0 < inject_Z c)%Q).
  { change 0%Q with (inject_Z 0). rewrite <- Zlt_Qlt. exact Hc. }
  assert (Hq : (v / inject_Z c == variance_of seen (if unbiased then 1 else 0))%Q).
  { unfold variance_of. fold n. rewrite <- Ec, Hv.
    rewrite (squared_deviations_comp seen m (arithmetic_mean seen) Hm).
    reflexivity. }
  destruct (Qlt_le_dec (v / inject_Z c) 0) as [Hneg|_].
  - exfalso. pose proof (squared_deviations_nonneg seen m) as H0.
    rewrite <- Hv in H0.
    assert (0 <= v / inject_Z c)%Q.
    { apply Qle_shift_div_l; [exact Hc'|]. rewrite Qmult_0_l. exact H0. }
    Lqa.lra.
  - rewrite (Qeq_eqR _ _ Hq). reflexivity.
Qed.

(** X14.  Whatever the sequence of updates of a variance accumulator,
    scalar updates or batches of any sizes, all with the same units and
    the first one with at least one value: every call succeeds, the mean
    is the arithmetic mean of all the individual values, the count is
    their number, [variance_sum] is the sum of their squared deviations
    from that mean, and, once there is more than one value,
    [get_mean_std] returns the mean together with the square root of the
    biased variance ([unbiased=False], the sum over the count) or of the
    unbiased one ([unbiased=True], the sum over the count less one). *)
Theorem variance_online_is_the_variance (batch_mode : bool)
  (u : option string) (first : reading batch_mode)
  (later : list (reading batch_mode))
  (Hfirst : values batch_mode first <> []) :
  exists self m v,
    feed_variance_batches batch_mode VarianceOnline.init u (first :: later)
    = Done self /\
    VarianceOnline.mean self = Some (Fin m) /\
    VarianceOnline.variance_sum self = Fin v /\
    VarianceOnline.units self = u /\
    VarianceOnline.count self
    = Z.of_nat (List.length (flat_map (values batch_mode) (first :: later))) /\
    (m == arithmetic_mean (flat_map (values batch_mode) (first :: later)))%Q /\
    (v == squared_deviations (flat_map (values batch_mode) (first :: later))
            (arithmetic_mean (flat_map (values batch_mode) (first :: later))))%Q /\
    ((1 < List.length (flat_map (values batch_mode) (first :: later)))%nat ->
     forall unbiased : bool,
       VarianceOnline.get_mean_std self unbiased
       = (Some (mkTagged u (Fin m)),
          Some (mkTagged u
                  (RFin (sqrt (Q2R (variance_of
                                      (flat_map (values batch_mode) (first :: later))
                                      (if unbiased then 1 else 0)))))))).
Proof.
  cbn [flat_map feed_variance_batches].
  set (seen := values batch_mode first ++ flat_map (values batch_mode) later).
  assert (Hseen : seen <> []).
  { unfold seen. destruct (values batch_mode first); [congruence|discriminate]. }
  unfold VarianceOnline.update.
  cbn [VarianceOnline.mean VarianceOnline.base VarianceOnline.init
       MeanOnline.init MeanOnline.mean units_of magnitude VarianceOnline.count
       MeanOnline.count].
  destruct (variance_accumulate_step batch_mode u [] 0 0 first)
    as (m1 & v1 & E1 & Hm1 & Hv1).
  { simpl. ring. }
  { reflexivity. }
  { exact Hfirst. }
  cbn [List.length Z.of_nat app] in E1, Hm1, Hv1. rewrite E1. cbn [bind].
  destruct (feed_variance_invariant batch_mode u later (values batch_mode first)
              m1 v1 Hfirst Hm1 Hv1) as (m & v & Hrun & Hm & Hv).
  fold seen in Hrun, Hm, Hv.
  pose proof (mean_of_total seen m Hseen Hm) as Hmean.
  eexists. exists m, v. split; [exact Hrun|].
  split; [reflexivity|]. split; [reflexivity|]. split; [reflexivity|].
  split; [reflexivity|]. split; [exact Hmean|]. split.
  - rewrite Hv. apply squared_deviations_comp. exact Hmean.
  - intros Hlen unbiased. apply get_mean_std_of_state; assumption.
Qed.

Lemma variance_online_is_the_variance_witness :
  exists self m v,
    feed_variance_batches true VarianceOnline.init (Some "mV"%string)
      [[2; 4; 4]; [4; 5; 5; 7; 9]]%Q
    = Done self /\
    VarianceOnline.mean self = Some (Fin m) /\
    VarianceOnline.variance_sum self = Fin v /\
    VarianceOnline.units self = Some "mV"%string /\
    VarianceOnline.count self
    = Z.of_nat (List.length
                  (flat_map (values true) [[2; 4; 4]; [4; 5; 5; 7; 9]]%Q)) /\
    (m == arithmetic_mean (flat_map (values true) [[2; 4; 4]; [4; 5; 5; 7; 9]]%Q))%Q /\
    (v == squared_deviations
            (flat_map (values true) [[2; 4; 4]; [4; 5; 5; 7; 9]]%Q)
            (arithmetic_mean
               (flat_map (values true) [[2; 4; 4]; [4; 5; 5; 7; 9]]%Q)))%Q /\
    ((1 < List.length (flat_map (values true) [[2; 4; 4]; [4; 5; 5; 7; 9]]%Q))%nat ->
     forall unbiased : bool,
       VarianceOnline.get_mean_std self unbiased
       = (Some (mkTagged (Some "mV"%string) (Fin m)),
          Some (mkTagged (Some "mV"%string)
                  (RFin (sqrt (Q2R (variance_of
                                      (flat_map (values true)
                                         [[2; 4; 4]; [4; 5; 5; 7; 9]]%Q)
                                      (if unbiased then 1 else 0)))))))).
Proof.
  apply (variance_online_is_the_variance true (Some "mV"%string)
           [2; 4; 4]%Q [[4; 5; 5; 7; 9]]%Q).
  simpl. discriminate.
Defined.

(** ** A rejected update of the mean accumulator *)

(** X15.  An [update] of a mean accumulator whose units differ from the
    units of the accumulator raises the [ValueError], but it is not
    undone: the mean and the units stay, while the count has already been
    increased by the number [k] of rejected values.  The next accepted
    update then yields the mean that [k] further copies of the old mean
    would have given: with the old count [n] and mean [m], and [b]
    accepted values, [(n + k + b) * mean = (n + k) * m + sum]. *)
Theorem mean_online_rejected_update_is_counted (batch_mode : bool)
  (u v : option string) (m : Q) (n : Z) (bad good : reading batch_mode)
  (Hn : 0 < n)
  (Hunits : units_differ v u = true) :
  exists m2,
    MeanOnline.update batch_mode (MeanOnline.mk (Some (Fin m)) n u)
      (mkTagged v (to_sample batch_mode bad))
    = (Raised units_error,
       MeanOnline.mk (Some (Fin m))
         (n + Z.of_nat (List.length (values batch_mode bad))) u) /\
    MeanOnline.update batch_mode
      (MeanOnline.mk (Some (Fin m))
         (n + Z.of_nat (List.length (values batch_mode bad))) u)
      (mkTagged u (to_sample batch_mode good))
    = (Done tt,
       MeanOnline.mk (Some (Fin m2))
         (n + Z.of_nat (List.length (values batch_mode bad))
          + Z.of_nat (List.length (values batch_mode good))) u) /\
    (inject_Z (n + Z.of_nat (List.length (values batch_mode bad))
               + Z.of_nat (List.length (values batch_mode good))) * m2
     == inject_Z (n + Z.of_nat (List.length (values batch_mode bad))) * m
        + Qsum (values batch_mode good))%Q.
Proof.
  set (k := Z.of_nat (List.length (values batch_mode bad))).
  set (b := Z.of_nat (List.length (values batch_mode good))).
  assert (Hk : 0 <= k) by (unfold k; lia).
  assert (Hb : 0 <= b) by (unfold b; lia).
  assert (Hnk : ~ (inject_Z (n + k) == 0)%Q) by (apply inject_Z_nonzero; lia).
  destruct (mean_update_next batch_mode u m (m * inject_Z (n + k)) (n + k) good)
    as (m2 & E2 & Hm2); [lia|field; exact Hnk|].
  exists m2. split; [|split; [exact E2|]].
  - destruct (batch_of_reading batch_mode bad) as (s & _ & E).
    unfold MeanOnline.update.
    cbn [magnitude units_of MeanOnline.mean MeanOnline.count MeanOnline.units].
    rewrite E. cbv beta iota. rewrite Hunits. reflexivity.
  - rewrite Hm2. fold b.
    assert (~ (inject_Z (n + k + b) == 0)%Q) by (apply inject_Z_nonzero; lia).
    field. assumption.
Qed.

Lemma mean_online_rejected_update_is_counted_witness :
  exists m2,
    MeanOnline.update true (MeanOnline.mk (Some (Fin 2)) 1 (Some "mV"%string))
      (mkTagged (Some "s"%string) (to_sample true [10; 10]%Q))
    = (Raised units_error,
       MeanOnline.mk (Some (Fin 2))
         (1 + Z.of_nat (List.length (values true [10; 10]%Q)))
         (Some "mV"%string)) /\
    MeanOnline.update true
      (MeanOnline.mk (Some (Fin 2))
         (1 + Z.of_nat (List.length (values true [10; 10]%Q)))
         (Some "mV"%string))
      (mkTagged (Some "mV"%string) (to_sample true [4]%Q))
    = (Done tt,
       MeanOnline.mk (Some (Fin m2))
         (1 + Z.of_nat (List.length (values true [10; 10]%Q))
          + Z.of_nat (List.length (values true [4]%Q)))
         (Some "mV"%string)) /\
    (inject_Z (1 + Z.of_nat (List.length (values true [10; 10]%Q))
               + Z.of_nat (List.length (values true [4]%Q))) * m2
     == inject_Z (1 + Z.of_nat (List.length (values true [10; 10]%Q))) * 2
        + Qsum (values true [4]%Q))%Q.
Proof.
  apply (mean_online_rejected_update_is_counted true (Some "mV"%string)
           (Some "s"%string) 2 1 [10; 10]%Q [4]%Q).
  - lia.
  - reflexivity.
Defined.

(** The mean of 2 and 4 is 3; after the rejected batch of two values the
    accumulator answers 2.5, with a count of 4. *)
Example mean_after_rejected_batch :
  exists self,
    snd (MeanOnline.update true
           (snd (MeanOnline.update true
                   (snd (MeanOnline.update true MeanOnline.init
                           (mkTagged (Some "mV"%string) [Fin 2])))
                   (mkTagged (Some "s"%string) [Fin 10; Fin 10])))
           (mkTagged (Some "mV"%string) [Fin 4])) = self /\
    MeanOnline.count self = 4 /\
    exists q, MeanOnline.mean self = Some (Fin q) /\ (q == 5 # 2)%Q.
Proof.
  eexists. split; [reflexivity|]. split; [reflexivity|].
  eexists. split; [reflexivity|]. vm_compute. reflexivity.
Qed.

(** ** The histogram of all intervals *)

Lemma counts_length (a e : list Q) :
  List.length (Histogram.counts a e) = (List.length e - 1)%nat.
Proof.
  induction e as [|lo [|hi rest] IH]; try reflexivity.
  change (S (List.length (Histogram.counts a (hi :: rest)))
          = (List.length (lo :: hi :: rest) - 1)%nat).
  rewrite IH. simpl. lia.
Qed.

Lemma counts_app (a b e : list Q) :
  Histogram.counts (a ++ b) e
  = zip_with Z.add (Histogram.counts a e) (Histogram.counts b e).
Proof.
  induction e as [|lo [|hi rest] IH]; try reflexivity.
  change (Z.of_nat (List.length
            (filter (Histogram.in_range lo hi
                       (match rest with [] => true | _ => false end)) (a ++ b)))
          :: Histogram.counts (a ++ b) (hi :: rest)
          = (Z.of_nat (List.length
               (filter (Histogram.in_range lo hi
                          (match rest with [] => true | _ => false end)) a))
             + Z.of_nat (List.length
                 (filter (Histogram.in_range lo hi
                            (match rest with [] => true | _ => false end)) b)))
            :: zip_with Z.add (Histogram.counts a (hi :: rest))
                 (Histogram.counts b (hi :: rest))).
  rewrite IH, filter_app, length_app, Nat2Z.inj_add. reflexivity.
Qed.

Lemma counts_empty (e : list Q) :
  Histogram.counts [] e = repeat 0 (List.length e - 1).
Proof.
  induction e as [|lo [|hi rest] IH]; try reflexivity.
  change (0 :: Histogram.counts [] (hi :: rest)
          = repeat 0 (List.length (lo :: hi :: rest) - 1)).
  rewrite IH. simpl. rewrite Nat.sub_0_r. reflexivity.
Qed.

Lemma zip_add_zeros (l : list Z) :
  zip_with Z.add (repeat 0 (List.length l)) l = l.
Proof. induction l as [|x l IH]; simpl; [reflexivity|]. rewrite IH. reflexivity. Qed.

(** The intervals of two batches in a row: those of the first, then those
    of the second with the last event of the first put in front. *)
Lemma isi_app (a b : list Q) (t : Q) :
  Np.last_item a = Done t -> isi (a ++ b) = isi a ++ isi (t :: b).
Proof.
  induction a as [|x a IH]; intros H; [discriminate|].
  destruct a as [|y a].
  - unfold Np.last_item in H. simpl in H. injection H as <-. reflexivity.
  - assert (Hl : Np.last_item (y :: a) = Done t).
    { unfold Np.last_item in *. cbn [rev] in *.
      destruct (rev a ++ [y]) as [|z r] eqn:E.
      - destruct (rev a); discriminate.
      - cbn [app] in H. exact H. }
    change (((y - x)%Q :: isi ((y :: a) ++ b))
            = ((y - x)%Q :: isi (y :: a)) ++ isi (t :: b)).
    rewrite (IH Hl). reflexivity.
Qed.

Lemma last_item_app {A : Type} (a b : list A) (t : A) :
  Np.last_item b = Done t -> Np.last_item (a ++ b) = Done t.
Proof.
  unfold Np.last_item. rewrite rev_app_distr.
  destruct (rev b) as [|x r]; [discriminate|]. intros H. exact H.
Qed.

Lemma last_item_nonempty {A : Type} (a : list A) :
  a <> [] -> exists t, Np.last_item a = Done t.
Proof.
  intros H. destruct (last_item_Done a H) as (x & E & _). exists x. exact E.
Qed.

(** What [__init__] builds for a positive bin size and a largest interval
    that is not negative: edges that increase, one more than there are
    bins, and a histogram of zeros. *)
Lemma isi_init_Done (bin_size max_isi : Q) (h0 : InterSpikeIntervalOnline.t) :
  (0 < bin_size)%Q -> (0 <= max_isi)%Q ->
  InterSpikeIntervalOnline.init bin_size max_isi = Done h0 ->
  exists (n : nat) (e : list Q),
    h0 = InterSpikeIntervalOnline.mk max_isi None bin_size n e (repeat 0 n) None /\
    Histogram.increasing e = true /\
    List.length e = S n /\
    (n <> 0%nat -> (0 < max_isi)%Q /\
       e = map (fun k => (inject_Z (Z.of_nat k)
                          * (max_isi / inject_Z (Z.of_nat n)))%Q) (seq 0 (S n))) /\
    n = Z.to_nat (Qfloor (max_isi / bin_size)).
Proof.
  intros Hbs Hmax. unfold InterSpikeIntervalOnline.init.
  destruct (Qeq_bool bin_size 0) eqn:E0.
  { apply Qeq_bool_iff in E0. rewrite E0 in Hbs. exfalso.
    exact (Qlt_irrefl 0 Hbs). }
  assert (Hq : (0 <= max_isi / bin_size)%Q).
  { apply Qle_shift_div_l; [exact Hbs|]. rewrite Qmult_0_l. exact Hmax. }
  rewrite int_of_nonneg by exact Hq.
  assert (Hf : 0 <= Qfloor (max_isi / bin_size)).
  { change 0 with (Qfloor 0). apply Qfloor_resp_le. exact Hq. }
  destruct (Z.ltb_spec (Qfloor (max_isi / bin_size)) 0) as [|_]; [lia|].
  intros H. injection H as <-.
  set (n := Z.to_nat (Qfloor (max_isi / bin_size))).
  exists n, (Histogram.linspace0 max_isi (n + 1)).
  split; [reflexivity|]. rewrite Nat.add_1_r.
  destruct (Nat.eq_dec n 0) as [->|Hn].
  - split; [reflexivity|]. split; [reflexivity|].
    split; [intros H; congruence|reflexivity].
  - assert (Hpos : (0 < max_isi)%Q).
    { assert (H1 : (1 <= max_isi / bin_size)%Q).
      { apply Qle_trans with (inject_Z (Qfloor (max_isi / bin_size)));
          [|apply Qfloor_le].
        change 1%Q with (inject_Z 1). rewrite <- Zle_Qle. unfold n in Hn. lia. }
      assert (H2 : (1 * bin_size <= max_isi / bin_size * bin_size)%Q).
      { apply Qmult_le_compat_r; [exact H1|apply Qlt_le_weak; exact Hbs]. }
      assert (H3 : (max_isi / bin_size * bin_size == max_isi)%Q)
        by (field; apply Qlt_nonzero; exact Hbs).
      Lqa.lra. }
    assert (Hc : (0 < max_isi / inject_Z (Z.of_nat n))%Q).
    { apply Qlt_shift_div_l; [|rewrite Qmult_0_l; exact Hpos].
      change 0%Q with (inject_Z 0). rewrite <- Zlt_Qlt. lia. }
    rewrite linspace0_S by exact Hn.
    split; [apply (increasing_edges _ Hc)|].
    split; [rewrite length_map, length_seq; reflexivity|].
    split; [intros _; split; [exact Hpos|reflexivity]|reflexivity].
Qed.

(** One [update] with at least one spike time, on a histogrammer whose
    edges increase: it adds the histogram of the new intervals, and
    remembers the last spike time. *)
Lemma isi_update_step (bach_mode : bool) (max_isi bs : Q) (n : nat)
  (e : list Q) (hist : list Z) (last : option Q) (u0 u : option string)
  (x : InterSpikeIntervalOnline.timestamps bach_mode) :
  Histogram.increasing e = true ->
  (last = None \/ u0 = u) ->
  stamps bach_mode x <> [] ->
  exists t1,
    Np.last_item (stamps bach_mode x) = Done t1 /\
    InterSpikeIntervalOnline.update bach_mode
      (InterSpikeIntervalOnline.mk max_isi last bs n e hist u0) (mkTagged u x)
    = (Done tt,
       InterSpikeIntervalOnline.mk max_isi (Some t1) bs n e
         (zip_with Z.add hist
            (Histogram.counts
               (match last with
                | None => isi (stamps bach_mode x)
                | Some t0 => isi (t0 :: stamps bach_mode x)
                end) e))
         u).
Proof.
  intros Hinc Hu Hne.
  destruct (last_item_nonempty _ Hne) as [t1 Ht1]. exists t1.
  split; [exact Ht1|].
  unfold InterSpikeIntervalOnline.update.
  cbn [InterSpikeIntervalOnline.last_spike_time InterSpikeIntervalOnline.units
       units_of magnitude InterSpikeIntervalOnline.bin_edges
       InterSpikeIntervalOnline.max_isi_value InterSpikeIntervalOnline.bin_size
       InterSpikeIntervalOnline.num_bins
       InterSpikeIntervalOnline.current_isi_histogram].
  assert (Hcheck : negb (is_none last) && units_differ u u0 = false).
  { destruct Hu as [->| ->]; [reflexivity|].
    rewrite units_differ_same. apply andb_false_r. }
  rewrite Hcheck.
  assert (Hint : InterSpikeIntervalOnline.intervals bach_mode last x
                 = Done (match last with
                         | None => isi (stamps bach_mode x)
                         | Some t0 => isi (t0 :: stamps bach_mode x)
                         end, t1)).
  { destruct bach_mode; cbn [InterSpikeIntervalOnline.intervals stamps] in *.
    - rewrite Ht1. reflexivity.
    - unfold Np.last_item in Ht1. simpl in Ht1. injection Ht1 as <-.
      destruct last; reflexivity. }
  rewrite Hint. unfold Histogram.histogram. rewrite Hinc.
  destruct Hu as [->| ->]; [reflexivity|].
  destruct last; reflexivity.
Qed.

(** The state after a sequence of updates that starts from a state
    holding the histogram of the intervals of [seen]. *)
Lemma feed_isi_invariant (bach_mode : bool) (max_isi bs : Q) (n : nat)
  (e : list Q) (u : option string) :
  Histogram.increasing e = true ->
  forall (updates : list (InterSpikeIntervalOnline.timestamps bach_mode))
         (seen : list Q) (t : Q),
    Np.last_item seen = Done t ->
    (forall x, In x updates -> stamps bach_mode x <> []) ->
    exists t',
      Np.last_item (seen ++ flat_map (stamps bach_mode) updates) = Done t' /\
      feed_isi bach_mode
        (InterSpikeIntervalOnline.mk max_isi (Some t) bs n e
           (Histogram.counts (isi seen) e) u)
        u updates
      = (Done tt,
         InterSpikeIntervalOnline.mk max_isi (Some t') bs n e
           (Histogram.counts
              (isi (seen ++ flat_map (stamps bach_mode) updates)) e) u).
Proof.
  intros Hinc. induction updates as [|x updates IH]; intros seen t Ht Hne.
  - cbn [flat_map feed_isi]. rewrite app_nil_r. exists t.
    split; [exact Ht|reflexivity].
  - cbn [flat_map feed_isi].
    destruct (isi_update_step bach_mode max_isi bs n e
                (Histogram.counts (isi seen) e) (Some t) u u x Hinc
                (or_intror eq_refl) (Hne x (or_introl eq_refl)))
      as (t1 & Ht1 & ->).
    rewrite <- counts_app, <- (isi_app seen _ t Ht).
    destruct (IH (seen ++ stamps bach_mode x) t1) as (t' & Ht' & Hrun).
    + apply last_item_app. exact Ht1.
    + intros y Hy. apply Hne. right. exact Hy.
    + rewrite <- app_assoc in Ht', Hrun. exists t'. split; assumption.
Qed.

(** From the initial state: the histogram after the updates is the one
    of the intervals between all the spike times. *)
Lemma feed_isi_from_init (bach_mode : bool) (max_isi bs : Q) (n : nat)
  (e : list Q) (u : option string)
  (first : InterSpikeIntervalOnline.timestamps bach_mode)
  (later : list (InterSpikeIntervalOnline.timestamps bach_mode)) :
  Histogram.increasing e = true ->
  List.length e = S n ->
  (forall x, In x (first :: later) -> stamps bach_mode x <> []) ->
  exists t,
    Np.last_item (flat_map (stamps bach_mode) (first :: later)) = Done t /\
    feed_isi bach_mode
      (InterSpikeIntervalOnline.mk max_isi None bs n e (repeat 0 n) None)
      u (first :: later)
    = (Done tt,
       InterSpikeIntervalOnline.mk max_isi (Some t) bs n e
         (Histogram.counts (isi (flat_map (stamps bach_mode) (first :: later))) e)
         u).
Proof.
  intros Hinc Hlen Hspikes. cbn [flat_map feed_isi].
  destruct (isi_update_step bach_mode max_isi bs n e (repeat 0 n) None
              None u first Hinc (or_introl eq_refl)
              (Hspikes first (or_introl eq_refl))) as (t1 & Ht1 & ->).
  assert (Hz : zip_with Z.add (repeat 0 n)
                 (Histogram.counts (isi (stamps bach_mode first)) e)
               = Histogram.counts (isi (stamps bach_mode first)) e).
  { replace n with (List.length
                      (Histogram.counts (isi (stamps bach_mode first)) e)) at 1
      by (rewrite counts_length, Hlen; lia).
    apply zip_add_zeros. }
  rewrite Hz.
  destruct (feed_isi_invariant bach_mode max_isi bs n e u Hinc later
              (stamps bach_mode first) t1 Ht1) as (t & Ht & Hrun).
  { intros x Hx. apply Hspikes. right. exact Hx. }
  exists t. split; [exact Ht|exact Hrun].
Qed.

(** X16.  A histogrammer built with a positive bin size and a largest
    interval that is not negative, fed any sequence of updates with the
    same units, single spike times or batches that each hold at least one
    spike time: every call succeeds, and afterwards the histogram is the
    one that [np.histogram] computes, over the bin edges of the
    histogrammer, from the intervals between all the consecutive spike
    times fed so far, across the updates; the last spike time is
    remembered and the result of [get_isi] carries the units. *)
Theorem isi_online_is_histogram_of_all_intervals (bach_mode : bool)
  (bin_size max_isi : Q) (u : option string)
  (first : InterSpikeIntervalOnline.timestamps bach_mode)
  (later : list (InterSpikeIntervalOnline.timestamps bach_mode))
  (h0 : InterSpikeIntervalOnline.t)
  (Hsize : (0 < bin_size)%Q)
  (Hmax : (0 <= max_isi)%Q)
  (Hinit : InterSpikeIntervalOnline.init bin_size max_isi = Done h0)
  (Hspikes : forall x, In x (first :: later) -> stamps bach_mode x <> []) :
  exists h t,
    feed_isi bach_mode h0 u (first :: later) = (Done tt, h) /\
    Histogram.histogram (isi (flat_map (stamps bach_mode) (first :: later)))
      (InterSpikeIntervalOnline.bin_edges h0)
    = Done (InterSpikeIntervalOnline.current_isi_histogram h) /\
    InterSpikeIntervalOnline.get_isi h
    = mkTagged u (InterSpikeIntervalOnline.current_isi_histogram h) /\
    Np.last_item (flat_map (stamps bach_mode) (first :: later)) = Done t /\
    InterSpikeIntervalOnline.last_spike_time h = Some t /\
    InterSpikeIntervalOnline.bin_edges h = InterSpikeIntervalOnline.bin_edges h0.
Proof.
  destruct (isi_init_Done _ _ _ Hsize Hmax Hinit) as (n & e & -> & Hinc & Hlen & _).
  destruct (feed_isi_from_init bach_mode max_isi bin_size n e u first later
              Hinc Hlen Hspikes) as (t & Ht & Hrun).
  rewrite Hrun. eexists. exists t. split; [reflexivity|].
  cbn [InterSpikeIntervalOnline.current_isi_histogram
       InterSpikeIntervalOnline.last_spike_time InterSpikeIntervalOnline.bin_edges].
  unfold Histogram.histogram, InterSpikeIntervalOnline.get_isi.
  cbn [InterSpikeIntervalOnline.current_isi_histogram
       InterSpikeIntervalOnline.units].
  rewrite Hinc.
  split; [reflexivity|]. split; [reflexivity|]. split; [exact Ht|].
  split; reflexivity.
Qed.

Lemma isi_online_is_histogram_of_all_intervals_witness :
  exists h0 h t,
    InterSpikeIntervalOnline.init 1 4 = Done h0 /\
    feed_isi true h0 (Some "ms"%string) [[0; 2]; [5; 6]]%Q = (Done tt, h) /\
    Histogram.histogram (isi (flat_map (stamps true) [[0; 2]; [5; 6]]%Q))
      (InterSpikeIntervalOnline.bin_edges h0)
    = Done (InterSpikeIntervalOnline.current_isi_histogram h) /\
    InterSpikeIntervalOnline.get_isi h
    = mkTagged (Some "ms"%string)
        (InterSpikeIntervalOnline.current_isi_histogram h) /\
    Np.last_item (flat_map (stamps true) [[0; 2]; [5; 6]]%Q) = Done t /\
    InterSpikeIntervalOnline.last_spike_time h = Some t /\
    InterSpikeIntervalOnline.bin_edges h = InterSpikeIntervalOnline.bin_edges h0.
Proof.
  eexists.
  assert (Hinit : InterSpikeIntervalOnline.init 1 4
                  = Done (InterSpikeIntervalOnline.mk 4 None 1 4
                            (Histogram.linspace0 4 5) [0; 0; 0; 0] None))
    by reflexivity.
  destruct (isi_online_is_histogram_of_all_intervals true 1 4 (Some "ms"%string)
              [0; 2]%Q [[5; 6]]%Q _ ltac:(reflexivity) ltac:(discriminate) Hinit)
    as (h & t & H).
  - intros x [<-|[<-|[]]]; discriminate.
  - exists h, t. split; [exact Hinit|exact H].
Defined.

(** ** The intervals that the histogram keeps *)

Lemma Qle_bool_comp_l (a a' v : Q) : (a == a')%Q -> Qle_bool a v = Qle_bool a' v.
Proof.
  intros E. destruct (Qle_bool a v) eqn:H1, (Qle_bool a' v) eqn:H2;
    try reflexivity.
  - apply Qle_bool_iff in H1. rewrite E in H1. apply Qle_bool_iff in H1.
    congruence.
  - apply Qle_bool_iff in H2. rewrite <- E in H2. apply Qle_bool_iff in H2.
    congruence.
Qed.

Lemma Qle_bool_comp_r (a a' v : Q) : (a == a')%Q -> Qle_bool v a = Qle_bool v a'.
Proof.
  intros E. destruct (Qle_bool v a) eqn:H1, (Qle_bool v a') eqn:H2;
    try reflexivity.
  - apply Qle_bool_iff in H1. rewrite E in H1. apply Qle_bool_iff in H1.
    congruence.
  - apply Qle_bool_iff in H2. rewrite <- E in H2. apply Qle_bool_iff in H2.
    congruence.
Qed.

Lemma filter_length_add {A : Type} (p q r : A -> bool) (l : list A) :
  (forall x, In x l ->
     (if p x then 1 else 0) + (if q x then 1 else 0) = if r x then 1 else 0) ->
  Z.of_nat (List.length (filter p l)) + Z.of_nat (List.length (filter q l))
  = Z.of_nat (List.length (filter r l)).
Proof.
  induction l as [|x l IH]; intros H; [reflexivity|].
  specialize (IH (fun y Hy => H y (or_intror Hy))).
  specialize (H x (or_introl eq_refl)). cbn [filter].
  destruct (p x), (q x), (r x); cbn [List.length]; lia.
Qed.

Lemma increasing_first_le_last (d : Q) (e : list Q) : forall lo,
  Histogram.increasing (lo :: e) = true -> (lo <= List.last (lo :: e) d)%Q.
Proof.
  induction e as [|hi e IH]; intros lo H; [apply Qle_refl|].
  change (Qle_bool lo hi && Histogram.increasing (hi :: e) = true) in H.
  apply andb_prop in H. destruct H as [H1 H2]. apply Qle_bool_iff in H1.
  change (List.last (lo :: hi :: e) d) with (List.last (hi :: e) d).
  apply Qle_trans with hi; [exact H1|apply IH; exact H2].
Qed.

(** The counts of a histogram add up to the number of values from the
    first edge to the last one, both included. *)
Lemma counts_total (d : Q) (a : list Q) (e : list Q) : forall lo,
  Histogram.increasing (lo :: e) = true -> e <> [] ->
  Np.sum (Histogram.counts a (lo :: e))
  = Z.of_nat (List.length
                (filter (fun v => Qle_bool lo v
                                  && Qle_bool v (List.last (lo :: e) d)) a)).
Proof.
  induction e as [|hi e IH]; intros lo Hinc Hne; [congruence|].
  change (Qle_bool lo hi && Histogram.increasing (hi :: e) = true) in Hinc.
  apply andb_prop in Hinc. destruct Hinc as [H1 H2]. apply Qle_bool_iff in H1.
  change (List.last (lo :: hi :: e) d) with (List.last (hi :: e) d).
  destruct e as [|x e].
  - cbn [Histogram.counts Np.sum fold_right List.last].
    unfold Histogram.in_range. lia.
  - change (Z.of_nat (List.length
              (filter (Histogram.in_range lo hi false) a))
            + Np.sum (Histogram.counts a (hi :: x :: e))
            = Z.of_nat (List.length
                (filter (fun v => Qle_bool lo v
                                  && Qle_bool v (List.last (hi :: x :: e) d)) a))).
    rewrite (IH hi H2) by discriminate.
    pose proof (increasing_first_le_last d (x :: e) hi H2) as Hlast.
    apply filter_length_add. intros v _. unfold Histogram.in_range.
    destruct (Qle_bool hi v) eqn:Ehi.
    + apply Qle_bool_iff in Ehi.
      assert (El : Qle_bool lo v = true)
        by (apply Qle_bool_iff; apply Qle_trans with hi; assumption).
      rewrite El. cbn [negb andb].
      destruct (Qle_bool v (List.last (hi :: x :: e) d)); reflexivity.
    + cbn [negb andb]. rewrite andb_true_r.
      assert (Ev : Qle_bool v (List.last (hi :: x :: e) d) = true).
      { apply Qle_bool_iff. apply Qle_trans with hi; [|exact Hlast].
        apply Qlt_le_weak. apply Qnot_le_lt. intros H.
        apply Qle_bool_iff in H. congruence. }
      rewrite Ev, andb_true_r. destruct (Qle_bool lo v); reflexivity.
Qed.

Lemma last_map_seq {A : Type} (f : nat -> A) (n : nat) (d : A) :
  List.last (map f (seq 0 (S n))) d = f n.
Proof. rewrite seq_S, map_app. cbn [map Nat.add]. apply last_last. Qed.

(** X17.  A histogrammer built with a positive bin size that does not
    exceed the largest interval, fed any sequence of updates with the same
    units, single spike times or batches that each hold at least one
    spike time: every call succeeds, and the counts of the histogram add
    up to the number of intervals between consecutive spike times that lie
    between 0 and [max_isi_value], both included.  Longer intervals, and
    the negative intervals of spike times that go back in time, are left
    out without an error. *)
Theorem isi_histogram_counts_intervals_in_range (bach_mode : bool)
  (bin_size max_isi : Q) (u : option string)
  (first : InterSpikeIntervalOnline.timestamps bach_mode)
  (later : list (InterSpikeIntervalOnline.timestamps bach_mode))
  (h0 : InterSpikeIntervalOnline.t)
  (Hsize : (0 < bin_size)%Q)
  (Hmax : (bin_size <= max_isi)%Q)
  (Hinit : InterSpikeIntervalOnline.init bin_size max_isi = Done h0)
  (Hspikes : forall x, In x (first :: later) -> stamps bach_mode x <> []) :
  exists h,
    feed_isi bach_mode h0 u (first :: later) = (Done tt, h) /\
    Np.sum (InterSpikeIntervalOnline.current_isi_histogram h)
    = Z.of_nat
        (List.length
           (filter (in_histogram_range max_isi)
              (isi (flat_map (stamps bach_mode) (first :: later))))).
Proof.
  assert (Hmax0 : (0 <= max_isi)%Q) by Lqa.lra.
  destruct (isi_init_Done _ _ _ Hsize Hmax0 Hinit)
    as (n & e & -> & Hinc & Hlen & Hedges & Hn).
  assert (Hn0 : n <> 0%nat).
  { assert (H1 : (1 <= max_isi / bin_size)%Q).
    { apply Qle_shift_div_l; [exact Hsize|]. Lqa.lra. }
    assert (H2 : 1 <= Qfloor (max_isi / bin_size)).
    { change 1 with (Qfloor 1). apply Qfloor_resp_le. exact H1. }
    lia. }
  destruct (Hedges Hn0) as [Hpos He].
  destruct (feed_isi_from_init bach_mode max_isi bin_size n e u first later
              Hinc Hlen Hspikes) as (t & _ & Hrun).
  rewrite Hrun. eexists. split; [reflexivity|].
  cbn [InterSpikeIntervalOnline.current_isi_histogram].
  set (c := (max_isi / inject_Z (Z.of_nat n))%Q) in *.
  set (f := fun k : nat => (inject_Z (Z.of_nat k) * c)%Q) in *.
  assert (Hcons : e = f 0%nat :: map f (seq 1 n)) by (rewrite He; reflexivity).
  assert (Hlast : List.last e 0%Q = f n) by (rewrite He; apply last_map_seq).
  rewrite Hcons in Hinc |- *.
  assert (Htail : map f (seq 1 n) <> []).
  { intros E. apply (f_equal (@List.length Q)) in E.
    rewrite length_map, length_seq in E. simpl in E. lia. }
  rewrite (counts_total 0%Q _ _ _ Hinc Htail).
  rewrite <- Hcons, Hlast. f_equal. f_equal. apply filter_ext. intros v.
  unfold in_histogram_range. f_equal.
  - apply Qle_bool_comp_l. unfold f. change (inject_Z (Z.of_nat 0)) with 0%Q. ring.
  - apply Qle_bool_comp_r. unfold f, c. field.
    apply inject_Z_nonzero. lia.
Qed.

Lemma isi_histogram_counts_intervals_in_range_witness :
  exists h0 h,
    InterSpikeIntervalOnline.init 1 4 = Done h0 /\
    feed_isi false h0 None [0; 2; 9; 8; 10]%Q = (Done tt, h) /\
    Np.sum (InterSpikeIntervalOnline.current_isi_histogram h)
    = Z.of_nat
        (List.length
           (filter (in_histogram_range 4)
              (isi (flat_map (stamps false) [0; 2; 9; 8; 10]%Q)))).
Proof.
  eexists.
  assert (Hinit : InterSpikeIntervalOnline.init 1 4
                  = Done (InterSpikeIntervalOnline.mk 4 None 1 4
                            (Histogram.linspace0 4 5) [0; 0; 0; 0] None))
    by reflexivity.
  destruct (isi_histogram_counts_intervals_in_range false 1 4 None
              0%Q [2; 9; 8; 10]%Q _ ltac:(reflexivity) ltac:(discriminate) Hinit)
    as (h & H).
  - intros x _. discriminate.
  - exists h. split; [exact Hinit|exact H].
Defined.

(** The spike times 0, 2, 9, 8, 10 give the intervals 2, 7, -1 and 2: the
    two intervals of 2 are counted, the interval of 7 and the negative one
    are dropped. *)
Example isi_out_of_range_dropped :
  exists h0 h,
    InterSpikeIntervalOnline.init 1 4 = Done h0 /\
    feed_isi false h0 None [0; 2; 9; 8; 10]%Q = (Done tt, h) /\
    InterSpikeIntervalOnline.get_isi h = plain [0; 0; 2; 0].
Proof. eexists. eexists. split; [reflexivity|]. split; vm_compute; reflexivity. Qed.

(** ** Resetting the histogrammer *)

(** An [update] never changes how the histogrammer was built, whatever
    its outcome. *)
Lemma isi_update_keeps_bins (bach_mode : bool) (self : InterSpikeIntervalOnline.t)
  (arg : tagged (InterSpikeIntervalOnline.timestamps bach_mode)) :
  InterSpikeIntervalOnline.reset
    (snd (InterSpikeIntervalOnline.update bach_mode self arg))
  = InterSpikeIntervalOnline.reset self.
Proof.
  unfold InterSpikeIntervalOnline.update.
  destruct (negb (is_none (InterSpikeIntervalOnline.last_spike_time self))
            && units_differ (units_of arg) (InterSpikeIntervalOnline.units self));
    [reflexivity|].
  destruct (InterSpikeIntervalOnline.intervals bach_mode
              (InterSpikeIntervalOnline.last_spike_time self) (magnitude arg))
    as [[new_isi t1]| |]; try reflexivity.
  destruct (Histogram.histogram new_isi (InterSpikeIntervalOnline.bin_edges self));
    reflexivity.
Qed.

Lemma feed_isi_keeps_bins (bach_mode : bool) (u : option string) :
  forall (updates : list (InterSpikeIntervalOnline.timestamps bach_mode))
         (self : InterSpikeIntervalOnline.t),
    InterSpikeIntervalOnline.reset (snd (feed_isi bach_mode self u updates))
    = InterSpikeIntervalOnline.reset self.
Proof.
  induction updates as [|x updates IH]; intros self; [reflexivity|].
  cbn [feed_isi].
  pose proof (isi_update_keeps_bins bach_mode self (mkTagged u x)) as H.
  destruct (InterSpikeIntervalOnline.update bach_mode self (mkTagged u x))
    as [[[]| |] self']; cbn [snd] in H |- *; try exact H.
  rewrite IH. exact H.
Qed.

(** X18.  [reset] undoes every sequence of updates: a histogrammer as
    [__init__] built it, fed any updates in either mode, with any units
    and whether they succeed or raise, and then reset, is again in the
    state that [__init__] built, with the same bins, a histogram of zeros,
    no last spike time and no units.  So it then answers later updates as
    a new histogrammer does. *)
Theorem isi_reset_restores_the_initial_state (bach_mode : bool)
  (bin_size max_isi : Q) (u : option string)
  (updates more : list (InterSpikeIntervalOnline.timestamps bach_mode))
  (h0 : InterSpikeIntervalOnline.t)
  (Hinit : InterSpikeIntervalOnline.init bin_size max_isi = Done h0) :
  InterSpikeIntervalOnline.reset (snd (feed_isi bach_mode h0 u updates)) = h0 /\
  feed_isi bach_mode
    (InterSpikeIntervalOnline.reset (snd (feed_isi bach_mode h0 u updates)))
    u more
  = feed_isi bach_mode h0 u more.
Proof.
  assert (H0 : InterSpikeIntervalOnline.reset h0 = h0).
  { unfold InterSpikeIntervalOnline.init in Hinit.
    destruct (Qeq_bool bin_size 0); [discriminate|].
    destruct (Histogram.int_of (max_isi / bin_size) <? 0); [discriminate|].
    injection Hinit as <-. reflexivity. }
  assert (H : InterSpikeIntervalOnline.reset (snd (feed_isi bach_mode h0 u updates))
              = h0)
    by (rewrite feed_isi_keeps_bins; exact H0).
  split; [exact H|]. rewrite H. reflexivity.
Qed.

Lemma isi_reset_restores_the_initial_state_witness :
  exists h0,
    InterSpikeIntervalOnline.init 1 4 = Done h0 /\
    InterSpikeIntervalOnline.reset
      (snd (feed_isi true h0 (Some "ms"%string) [[0; 2]; []; [5]]%Q)) = h0 /\
    feed_isi true
      (InterSpikeIntervalOnline.reset
         (snd (feed_isi true h0 (Some "ms"%string) [[0; 2]; []; [5]]%Q)))
      (Some "ms"%string) [[1; 3]]%Q
    = feed_isi true h0 (Some "ms"%string) [[1; 3]]%Q.
Proof.
  eexists. split; [reflexivity|].
  apply (isi_reset_restores_the_initial_state true 1 4 (Some "ms"%string)
           [[0; 2]; []; [5]]%Q [[1; 3]]%Q).
  reflexivity.
Defined.
